(** * afero-cephfs: the adapter between the go-ceph CephFS client and afero

    A shallow embedding of the adapter layer of [cephfs.go] and of the
    properties its specification states.  The repository carries two
    revisions of the adapter:

    - the revision whose handle ([File]) has two explicit capability fields
      [file] and [dir] (module [Handle] below), and
    - the revision whose handle embeds the remote file and enumerates
      directories through the generic helper [listFromDir] (module
      [Listing] below).

    The functions [convertErr], [toFileMode], [forDirItem], the [FileInfo]
    methods and the filesystem operations that do not build a handle
    ([Mkdir], [MkdirAll], [Remove], [RemoveAll], [Rename], [Stat], [Chmod],
    [Chown], [Chtimes]) are the same text in both revisions and are
    embedded once.

    The remote client (go-ceph) is an external collaborator: it is modelled
    as an interface ([CephClient]) over an abstract client state, and every
    call the adapter makes to it is recorded in a call log. *)

From Stdlib Require Import ZArith List String Ascii Bool Lia Permutation.
Import ListNotations.

Local Open Scope string_scope.
Local Open Scope Z_scope.

(* ===================================================================== *)
(** * Go runtime values used by the adapter *)
(* ===================================================================== *)

(** ** Errors

    A Go [error] value.  [CephErr] is an error value produced by the remote
    client: the adapter observes it only through
    [errors.Is(err, gocephfs.ErrNotExist)] (the flag) and through
    [err.Error()] (the text).  The sentinels are the package-level
    variables the adapter returns or compares with.  [Wrap1] and [Wrap2]
    are the values built by [fmt.Errorf] with one and with two [%w] verbs:
    they carry the formatted text and the wrapped errors. *)
Inductive error : Type :=
| CephErr (notExist : bool) (text : string)
| OsErrNotExist
| OsErrExist
| IoEOF
| ErrDirDoesntSupport
| ErrFileNil
| ErrDirNil
| ErrorsNew (text : string)
| Wrap1 (text : string) (err : error)
| Wrap2 (text : string) (err1 err2 : error).

(** [err.Error()]. *)
Definition Error (e : error) : string :=
  match e with
  | CephErr _ text => text
  | OsErrNotExist => "file does not exist"
  | OsErrExist => "file already exists"
  | IoEOF => "EOF"
  | ErrDirDoesntSupport => "type of Dir does not support this operation"
  | ErrFileNil => "cephfs file is nil, is this a directory?"
  | ErrDirNil => "cephfs dir is nil, is this a file?"
  | ErrorsNew text => text
  | Wrap1 text _ => text
  | Wrap2 text _ _ => text
  end.

(** [fmt.Errorf(prefix + "%w", err)]: every one-verb format string of the
    adapter ends in [%w], the text before it is [prefix] (with its [%s]
    arguments already substituted). *)
Definition Errorf (prefix : string) (err : error) : error :=
  Wrap1 (prefix ++ Error err) err.

(** [fmt.Errorf(prefix + "%w; %w", err1, err2)]. *)
Definition Errorf2 (prefix : string) (err1 err2 : error) : error :=
  Wrap2 (prefix ++ Error err1 ++ "; " ++ Error err2) err1 err2.

(** [errors.Is(err, gocephfs.ErrNotExist)]: the error itself, or an error
    it wraps, matches the remote client's not-found error. *)
Fixpoint errors_Is_ErrNotExist (err : error) : bool :=
  match err with
  | CephErr notExist _ => notExist
  | Wrap1 _ e => errors_Is_ErrNotExist e
  | Wrap2 _ e1 e2 => errors_Is_ErrNotExist e1 || errors_Is_ErrNotExist e2
  | _ => false
  end.

(** [os.IsNotExist(err)]: it does not look through [fmt.Errorf] wrappers,
    and the remote client's error type is none of the types it
    understands ([*PathError], [syscall.Errno], ...). *)
Definition os_IsNotExist (err : error) : bool :=
  match err with
  | OsErrNotExist => true
  | _ => false
  end.

(** [Unwrap]: the errors directly wrapped by [e]. *)
Definition Unwrap (e : error) : list error :=
  match e with
  | Wrap1 _ e1 => [e1]
  | Wrap2 _ e1 e2 => [e1; e2]
  | _ => []
  end.

(** [wraps e c]: [c] is [e] or is reached from [e] by unwrapping. *)
Inductive wraps : error -> error -> Prop :=
| wraps_refl e : wraps e e
| wraps_step e e1 c : In e1 (Unwrap e) -> wraps e1 c -> wraps e c.

(** ** Strings *)

(** [strings.Contains(s, substr)]. *)
Fixpoint strings_Contains (s substr : string) : bool :=
  String.prefix substr s ||
  match s with
  | EmptyString => false
  | String _ s' => strings_Contains s' substr
  end.

Definition is_separator (c : ascii) : bool := Ascii.eqb c "/"%char.

(** Drop the leading separators of a list of characters. *)
Fixpoint drop_separators (l : list ascii) : list ascii :=
  match l with
  | c :: l' => if is_separator c then drop_separators l' else l
  | [] => []
  end.

(** The characters before the first separator. *)
Fixpoint until_separator (l : list ascii) : list ascii :=
  match l with
  | c :: l' => if is_separator c then [] else c :: until_separator l'
  | [] => []
  end.

(** [filepath.Base(path)] on a Unix system: the last element of the path,
    trailing slashes removed; ["."] for the empty path and ["/"] for a path
    of slashes only. *)
Definition filepath_Base (path : string) : string :=
  if String.eqb path EmptyString then "."
  else
    let rev_stripped := drop_separators (rev (list_ascii_of_string path)) in
    let last := rev (until_separator rev_stripped) in
    match last with
    | [] => "/"
    | _ => string_of_list_ascii last
    end.

(** ** [os.FileMode] and the [syscall] mode constants *)

Definition S_IFMT : Z := 0xf000.
Definition S_IFBLK : Z := 0x6000.
Definition S_IFCHR : Z := 0x2000.
Definition S_IFDIR : Z := 0x4000.
Definition S_IFIFO : Z := 0x1000.
Definition S_IFLNK : Z := 0xa000.
Definition S_IFREG : Z := 0x8000.
Definition S_IFSOCK : Z := 0xc000.
Definition S_ISGID : Z := 0x400.
Definition S_ISUID : Z := 0x800.
Definition S_ISVTX : Z := 0x200.

Definition ModeDir : Z := Z.shiftl 1 31.
Definition ModeSymlink : Z := Z.shiftl 1 27.
Definition ModeDevice : Z := Z.shiftl 1 26.
Definition ModeNamedPipe : Z := Z.shiftl 1 25.
Definition ModeSocket : Z := Z.shiftl 1 24.
Definition ModeSetuid : Z := Z.shiftl 1 23.
Definition ModeSetgid : Z := Z.shiftl 1 22.
Definition ModeCharDevice : Z := Z.shiftl 1 21.
Definition ModeSticky : Z := Z.shiftl 1 20.
Definition ModeIrregular : Z := Z.shiftl 1 19.

(** [os.ModeType] and [os.ModePerm]. *)
Definition ModeType : Z :=
  Z.lor ModeDir (Z.lor ModeSymlink (Z.lor ModeNamedPipe (Z.lor ModeSocket
    (Z.lor ModeDevice (Z.lor ModeCharDevice ModeIrregular))))).
Definition ModePerm : Z := 0x1ff.

(** [m.IsDir()] and [m.Perm()] of [os.FileMode]. *)
Definition FileMode_IsDir (m : Z) : bool := negb (Z.land m ModeDir =? 0).
Definition FileMode_Perm (m : Z) : Z := Z.land m ModePerm.

(* ===================================================================== *)
(** * Error Translator and Mode Translator *)
(* ===================================================================== *)

(** [convertErr]; a nil error is [None]. *)
Definition convertErr (err : option error) : option error :=
  match err with
  | None => None
  | Some e =>
      if errors_Is_ErrNotExist e then Some OsErrNotExist
      else if strings_Contains (Error e) "ret=-17" then Some OsErrExist
      else Some e
  end.

(** [toFileMode]: [mode] is a [uint16], the result an [os.FileMode]
    ([uint32]); [0x1ff] is the octal constant [0777]. *)
Definition toFileMode (mode : Z) : Z :=
  let fm := Z.land mode 0x1ff in
  let t := Z.land mode S_IFMT in
  let fm :=
    if t =? S_IFBLK then Z.lor fm ModeDevice
    else if t =? S_IFCHR then Z.lor fm (Z.lor ModeDevice ModeCharDevice)
    else if t =? S_IFDIR then Z.lor fm ModeDir
    else if t =? S_IFIFO then Z.lor fm ModeNamedPipe
    else if t =? S_IFLNK then Z.lor fm ModeSymlink
    else if t =? S_IFREG then fm
    else if t =? S_IFSOCK then Z.lor fm ModeSocket
    else fm in
  let fm := if negb (Z.land mode S_ISGID =? 0) then Z.lor fm ModeSetgid else fm in
  let fm := if negb (Z.land mode S_ISUID =? 0) then Z.lor fm ModeSetuid else fm in
  let fm := if negb (Z.land mode S_ISVTX =? 0) then Z.lor fm ModeSticky else fm in
  fm.

(* ===================================================================== *)
(** * The remote client *)
(* ===================================================================== *)

(** Remote handles ([*gocephfs.File], [*gocephfs.Directory]) are opaque
    identifiers; what they denote is part of the client's state. *)
Definition CFile : Type := nat.
Definition CDir : Type := nat.

(** The fields of [gocephfs.CephStatx] the adapter reads: [Mode] is a
    [uint16], [Size] a [uint64], [Mtime] a pair of [int64]. *)
Record CephStatx : Type := mkStatx {
  sx_Mode : Z;
  sx_Size : Z;
  sx_Mtime_Sec : Z;
  sx_Mtime_Nsec : Z
}.

(** [gocephfs.DType]: the named constants, and any other code. *)
Inductive DType : Type :=
| DTypeBlk | DTypeChr | DTypeDir | DTypeFIFO
| DTypeLnk | DTypeReg | DTypeSock | DTypeUnknown
| DTypeOther (code : Z).

(** [gocephfs.DirEntry]: [de.Name()] and [de.DType()].  The stat record of
    an entry read by [ReadDirPlus] ([de.Statx()]) is returned next to the
    entry by [c_ReadDirPlus]. *)
Record DirEntry : Type := mkDirEntry {
  de_Name : string;
  de_DType : DType
}.

(** A result of a remote call that yields a value or an error. *)
Inductive result (A : Type) : Type :=
| Ok (a : A)
| Err (e : error).
Arguments Ok {A} a.
Arguments Err {A} e.

(** The calls of the remote client's interface, as they are logged.  The
    stat calls are always made with the mask [StatxBasicStats] and the
    flags [0], which are left out. *)
Inductive Call : Type :=
| CallOpen (path : string) (flags mode : Z)
| CallMakeDir (path : string) (mode : Z)
| CallMakeDirs (path : string) (mode : Z)
| CallOpenDir (path : string)
| CallUnlink (path : string)
| CallRemoveDir (path : string)
| CallRename (oldPath newPath : string)
| CallStatx (path : string)
| CallChmod (path : string) (mode : Z)
| CallChown (path : string) (uid gid : Z)
| CallFstatx (f : CFile)
| CallFileClose (f : CFile)
| CallRead (f : CFile) (len : nat)
| CallReadAt (f : CFile) (len : nat) (offset : Z)
| CallWrite (f : CFile) (buf : list Byte.byte)
| CallWriteAt (f : CFile) (buf : list Byte.byte) (offset : Z)
| CallSeek (f : CFile) (offset whence : Z)
| CallSync (f : CFile)
| CallTruncate (f : CFile) (size : Z)
| CallReadDir (d : CDir)
| CallReadDirPlus (d : CDir)
| CallDirClose (d : CDir).

(** The remote client over its state [St]: each primitive answers and
    moves to a new state.  The read primitives also return the new
    contents of the caller's buffer. *)
Class CephClient (St : Type) : Type := {
  c_Open : string -> Z -> Z -> St -> result CFile * St;
  c_MakeDir : string -> Z -> St -> option error * St;
  c_MakeDirs : string -> Z -> St -> option error * St;
  c_OpenDir : string -> St -> result CDir * St;
  c_Unlink : string -> St -> option error * St;
  c_RemoveDir : string -> St -> option error * St;
  c_Rename : string -> string -> St -> option error * St;
  c_Statx : string -> St -> result CephStatx * St;
  c_Chmod : string -> Z -> St -> option error * St;
  c_Chown : string -> Z -> Z -> St -> option error * St;
  c_Fstatx : CFile -> St -> result CephStatx * St;
  c_FileClose : CFile -> St -> option error * St;
  c_Read : CFile -> list Byte.byte -> St ->
           (list Byte.byte * Z * option error) * St;
  c_ReadAt : CFile -> list Byte.byte -> Z -> St ->
             (list Byte.byte * Z * option error) * St;
  c_Write : CFile -> list Byte.byte -> St -> (Z * option error) * St;
  c_WriteAt : CFile -> list Byte.byte -> Z -> St -> (Z * option error) * St;
  c_Seek : CFile -> Z -> Z -> St -> (Z * option error) * St;
  c_Sync : CFile -> St -> option error * St;
  c_Truncate : CFile -> Z -> St -> option error * St;
  c_ReadDir : CDir -> St -> result (option DirEntry) * St;
  c_ReadDirPlus : CDir -> St -> result (option (DirEntry * CephStatx)) * St;
  c_DirClose : CDir -> St -> option error * St
}.

(** The world the adapter runs in: the client's state and the log of the
    calls made to it, oldest first. *)
Record World (St : Type) : Type := mkWorld {
  remote : St;
  calls : list Call
}.
Arguments mkWorld {St} remote calls.
Arguments remote {St} w.
Arguments calls {St} w.

(** How a run of the adapter ends: it returns a value in a new world, it
    panics (a nil dereference), or the model's fuel is used up. *)
Inductive outcome (St A : Type) : Type :=
| Returns (a : A) (w : World St)
| Panics
| OutOfFuel.
Arguments Returns {St A} a w.
Arguments Panics {St A}.
Arguments OutOfFuel {St A}.

(** The adapter's computations: state passing over the world. *)
Definition M (St A : Type) : Type := World St -> outcome St A.

Definition ret {St A : Type} (a : A) : M St A := fun w => Returns a w.

Definition bind {St A B : Type} (m : M St A) (k : A -> M St B) : M St B :=
  fun w => match m w with
           | Returns a w' => k a w'
           | Panics => Panics
           | OutOfFuel => OutOfFuel
           end.

Definition out_of_fuel {St A : Type} : M St A := fun _ => OutOfFuel.
Definition panic {St A : Type} : M St A := fun _ => Panics.

(** One call of the remote client: it is logged, and the client answers. *)
Definition invoke {St A : Type} (c : Call) (op : St -> A * St) : M St A :=
  fun w => let (a, s') := op (remote w) in
           Returns a (mkWorld s' (calls w ++ [c])%list).

Declare Scope adapter_scope.
Delimit Scope adapter_scope with adapter.
Notation "x <- m ;; k" := (bind m (fun x => k))
  (at level 61, m at next level, right associativity) : adapter_scope.
Notation "m ;;; k" := (bind m (fun _ => k))
  (at level 61, right associativity) : adapter_scope.
Local Open Scope adapter_scope.

(** [os.O_RDONLY], [os.O_RDWR], [os.O_CREATE], [os.O_TRUNC] (Linux). *)
Definition O_RDONLY : Z := 0.
Definition O_RDWR : Z := 0x2.
Definition O_CREATE : Z := 0x40.
Definition O_TRUNC : Z := 0x200.

(** [uint32(x)] of an [int]. *)
Definition uint32 (x : Z) : Z := x mod 2 ^ 32.

(** [int64(x)] of a [uint64]. *)
Definition int64_of_uint64 (x : Z) : Z :=
  if x <? 2 ^ 63 then x else x - 2 ^ 64.

(* ===================================================================== *)
(** * Entry/Info Adapter *)
(* ===================================================================== *)

Record FileInfo : Type := mkFileInfo {
  fi_stat : CephStatx;
  fi_path : string
}.

Definition FileInfo_Name (info : FileInfo) : string :=
  filepath_Base (fi_path info).

Definition FileInfo_Size (info : FileInfo) : Z :=
  int64_of_uint64 (sx_Size (fi_stat info)).

Definition FileInfo_Mode (info : FileInfo) : Z :=
  toFileMode (sx_Mode (fi_stat info)).

Definition FileInfo_IsDir (info : FileInfo) : bool :=
  FileMode_IsDir (FileInfo_Mode info).

Definition FileInfo_Sys (info : FileInfo) : CephStatx := fi_stat info.

(** The pseudo-entries of a directory. *)
Definition is_dot (name : string) : bool :=
  String.eqb name "." || String.eqb name "..".

(** [fmt.Errorf(prefix + "%w", err)] where [err] may be nil: a nil operand
    is formatted as [%!w(<nil>)] and nothing is wrapped. *)
Definition Errorf_any (prefix : string) (err : option error) : error :=
  match err with
  | Some e => Errorf prefix e
  | None => ErrorsNew (prefix ++ "%!w(<nil>)")
  end.

(* ===================================================================== *)
(** * Filesystem Adapter: the operations common to both revisions *)
(* ===================================================================== *)

Section Adapter.
Context {St : Type} {client : CephClient St}.

(** The methods of [fs.mount], of a remote file and of a remote
    directory, as logged calls. *)
Definition mount_Open (path : string) (flags mode : Z) : M St (result CFile) :=
  invoke (CallOpen path flags mode) (c_Open path flags mode).
Definition mount_MakeDir (path : string) (mode : Z) : M St (option error) :=
  invoke (CallMakeDir path mode) (c_MakeDir path mode).
Definition mount_MakeDirs (path : string) (mode : Z) : M St (option error) :=
  invoke (CallMakeDirs path mode) (c_MakeDirs path mode).
Definition mount_OpenDir (path : string) : M St (result CDir) :=
  invoke (CallOpenDir path) (c_OpenDir path).
Definition mount_Unlink (path : string) : M St (option error) :=
  invoke (CallUnlink path) (c_Unlink path).
Definition mount_RemoveDir (path : string) : M St (option error) :=
  invoke (CallRemoveDir path) (c_RemoveDir path).
Definition mount_Rename (oldPath newPath : string) : M St (option error) :=
  invoke (CallRename oldPath newPath) (c_Rename oldPath newPath).
Definition mount_Statx (path : string) : M St (result CephStatx) :=
  invoke (CallStatx path) (c_Statx path).
Definition mount_Chmod (path : string) (mode : Z) : M St (option error) :=
  invoke (CallChmod path mode) (c_Chmod path mode).
Definition mount_Chown (path : string) (uid gid : Z) : M St (option error) :=
  invoke (CallChown path uid gid) (c_Chown path uid gid).

Definition file_Fstatx (f : CFile) : M St (result CephStatx) :=
  invoke (CallFstatx f) (c_Fstatx f).
Definition file_Close (f : CFile) : M St (option error) :=
  invoke (CallFileClose f) (c_FileClose f).
Definition file_Read (f : CFile) (buf : list Byte.byte)
  : M St (list Byte.byte * Z * option error) :=
  invoke (CallRead f (List.length buf)) (c_Read f buf).
Definition file_ReadAt (f : CFile) (buf : list Byte.byte) (offset : Z)
  : M St (list Byte.byte * Z * option error) :=
  invoke (CallReadAt f (List.length buf) offset) (c_ReadAt f buf offset).
Definition file_Write (f : CFile) (buf : list Byte.byte)
  : M St (Z * option error) :=
  invoke (CallWrite f buf) (c_Write f buf).
Definition file_WriteAt (f : CFile) (buf : list Byte.byte) (off : Z)
  : M St (Z * option error) :=
  invoke (CallWriteAt f buf off) (c_WriteAt f buf off).
Definition file_Seek (f : CFile) (offset whence : Z) : M St (Z * option error) :=
  invoke (CallSeek f offset whence) (c_Seek f offset whence).
Definition file_Sync (f : CFile) : M St (option error) :=
  invoke (CallSync f) (c_Sync f).
Definition file_Truncate (f : CFile) (size : Z) : M St (option error) :=
  invoke (CallTruncate f size) (c_Truncate f size).

Definition dir_ReadDir (d : CDir) : M St (result (option DirEntry)) :=
  invoke (CallReadDir d) (c_ReadDir d).
Definition dir_ReadDirPlus (d : CDir)
  : M St (result (option (DirEntry * CephStatx))) :=
  invoke (CallReadDirPlus d) (c_ReadDirPlus d).
Definition dir_Close (d : CDir) : M St (option error) :=
  invoke (CallDirClose d) (c_DirClose d).

(** [Fs.Mkdir]. *)
Definition Fs_Mkdir (path : string) (perm : Z) : M St (option error) :=
  err <- mount_MakeDir path (uint32 (FileMode_Perm perm)) ;;
  match err with
  | Some err =>
      let err := convertErr (Some err) in
      ret (Some (Errorf_any ("failed to create directory " ++ path ++ ": ") err))
  | None => ret None
  end.

(** [Fs.MkdirAll]. *)
Definition Fs_MkdirAll (path : string) (perm : Z) : M St (option error) :=
  mount_MakeDirs path (uint32 (FileMode_Perm perm)).

(** [Fs.Remove]. *)
Definition Fs_Remove (path : string) : M St (option error) :=
  err <- mount_Unlink path ;;
  ret (convertErr err).

(** [forDirItem]: the loop runs at most [fuel] times. *)
Fixpoint forDirItem (fuel : nat) (dir : CDir)
    (callback : DirEntry -> M St (option error)) : M St (option error) :=
  match fuel with
  | O => out_of_fuel
  | S fuel' =>
      r <- dir_ReadDir dir ;;
      match r with
      | Err err => ret (Some (Errorf "failed to readdir: " err))
      | Ok None => ret None
      | Ok (Some de) =>
          err <- callback de ;;
          match err with
          | Some err => ret (Some (Errorf "DirEntry callback failed: " err))
          | None => forDirItem fuel' dir callback
          end
      end
  end.

(** [Fs.Rename]. *)
Definition Fs_Rename (oldPath newPath : string) : M St (option error) :=
  mount_Rename oldPath newPath.

(** [Fs.Stat]. *)
Definition Fs_Stat (path : string) : M St (option FileInfo * option error) :=
  r <- mount_Statx path ;;
  match r with
  | Err err =>
      if errors_Is_ErrNotExist err then ret (None, Some OsErrNotExist)
      else ret (None, Some err)
  | Ok stat => ret (Some (mkFileInfo stat path), None)
  end.

(** [Fs.RemoveAll].  The recursion and the loop of [forDirItem] are
    bounded by [fuel]; the deferred [dir.Close()] runs on every return
    after the directory was opened, its result is dropped. *)
Fixpoint Fs_RemoveAll (fuel : nat) (path : string) : M St (option error) :=
  match fuel with
  | O => out_of_fuel
  | S fuel' =>
      r <- Fs_Stat path ;;
      match r with
      | (_, Some err) =>
          if os_IsNotExist err then ret None else ret (Some err)
      | (None, None) => panic
      | (Some stat, None) =>
          if negb (FileInfo_IsDir stat) then
            err <- Fs_Remove path ;;
            match err with
            | Some err =>
                ret (Some (Errorf ("'RemoveAll' failed to remove file at path "
                                   ++ path ++ ": ") err))
            | None => ret None
            end
          else
            r <- mount_OpenDir path ;;
            match r with
            | Err err => ret (Some (Errorf ("failed to open dir " ++ path ++ ": ") err))
            | Ok dir =>
                err <- forDirItem fuel' dir (fun de =>
                  let name := de_Name de in
                  if String.eqb name "." || String.eqb name ".." then ret None
                  else
                    let fullPath := path ++ "/" ++ de_Name de in
                    match de_DType de with
                    | DTypeDir =>
                        err <- Fs_RemoveAll fuel' fullPath ;;
                        match err with
                        | Some err => ret (Some err)
                        | None => ret None
                        end
                    | DTypeLnk | DTypeReg =>
                        err <- mount_Unlink fullPath ;;
                        match err with
                        | Some err =>
                            ret (Some (Errorf ("failed to remove file " ++ fullPath ++ ": ") err))
                        | None => ret None
                        end
                    | _ =>
                        err <- mount_Unlink fullPath ;;
                        match err with
                        | Some err => ret (Some (Errorf "failed to remove unknown entry: " err))
                        | None => ret None
                        end
                    end) ;;
                match err with
                | Some err => dir_Close dir ;;; ret (Some err)
                | None =>
                    err <- mount_RemoveDir path ;;
                    dir_Close dir ;;;
                    ret err
                end
            end
      end
  end.

(** The function literal that [RemoveAll] passes to [forDirItem], by
    itself: [recurse] stands for the recursive call [fs.RemoveAll]. *)
Definition RemoveAll_callback (recurse : string -> M St (option error))
    (path : string) (de : DirEntry) : M St (option error) :=
  let name := de_Name de in
  if String.eqb name "." || String.eqb name ".." then ret None
  else
    let fullPath := path ++ "/" ++ de_Name de in
    match de_DType de with
    | DTypeDir =>
        err <- recurse fullPath ;;
        match err with
        | Some err => ret (Some err)
        | None => ret None
        end
    | DTypeLnk | DTypeReg =>
        err <- mount_Unlink fullPath ;;
        match err with
        | Some err =>
            ret (Some (Errorf ("failed to remove file " ++ fullPath ++ ": ") err))
        | None => ret None
        end
    | _ =>
        err <- mount_Unlink fullPath ;;
        match err with
        | Some err => ret (Some (Errorf "failed to remove unknown entry: " err))
        | None => ret None
        end
    end.

(** [Fs.Name], [Fs.Chmod], [Fs.Chown], [Fs.Chtimes]. *)
Definition Fs_Name : string := "CephFS".

Definition Fs_Chmod (path : string) (mode : Z) : M St (option error) :=
  mount_Chmod path (uint32 (FileMode_Perm mode)).

Definition Fs_Chown (path : string) (uid gid : Z) : M St (option error) :=
  mount_Chown path (uint32 uid) (uint32 gid).

Definition Fs_Chtimes (path : string) (atime mtime : Z) : M St (option error) :=
  ret (Some (ErrorsNew "not implemented")).

End Adapter.

(* ===================================================================== *)
(** * Handle Adapter with two capability fields *)
(* ===================================================================== *)

Module Handle.

(** [File]: the [mount] field is the ambient client; a nil capability is
    [None]. *)
Record File : Type := mkFile {
  f_path : string;
  f_file : option CFile;
  f_dir : option CDir
}.

Section Methods.
Context {St : Type} {client : CephClient St}.

(** [Fs.Create]: [0x1b6] is the octal constant [0666]. *)
Definition Fs_Create (path : string) : M St (option File * option error) :=
  r <- mount_Open path (Z.lor O_RDWR (Z.lor O_CREATE O_TRUNC)) 0x1b6 ;;
  match r with
  | Err err => ret (None, Some err)
  | Ok cfile => ret (Some (mkFile path (Some cfile) None), None)
  end.

(** [Fs.OpenFile]. *)
Definition Fs_OpenFile (path : string) (flag perm : Z)
  : M St (option File * option error) :=
  r <- mount_Open path flag (uint32 (FileMode_Perm perm)) ;;
  match r with
  | Err err => ret (None, convertErr (Some err))
  | Ok cfile =>
      r <- file_Fstatx cfile ;;
      match r with
      | Err err => ret (None, Some err)
      | Ok info =>
          if FileMode_IsDir (toFileMode (sx_Mode info)) then
            r <- mount_OpenDir path ;;
            match r with
            | Err err => ret (None, convertErr (Some err))
            | Ok dir => ret (Some (mkFile path (Some cfile) (Some dir)), None)
            end
          else ret (Some (mkFile path (Some cfile) None), None)
      end
  end.

(** [Fs.Open]. *)
Definition Fs_Open (path : string) : M St (option File * option error) :=
  Fs_OpenFile path O_RDONLY 0.

Definition File_Name (f : File) : string := f_path f.

(** [File.Close]. *)
Definition File_Close (f : File) : M St (option error) :=
  errs <- match f_file f with
          | Some file =>
              err <- file_Close file ;;
              match err with
              | Some err => ret [err]
              | None => ret []
              end
          | None => ret []
          end ;;
  errs <- match f_dir f with
          | Some dir =>
              err <- dir_Close dir ;;
              match err with
              | Some err => ret (errs ++ [err])%list
              | None => ret errs
              end
          | None => ret errs
          end ;;
  match errs with
  | e0 :: e1 :: _ =>
      ret (Some (Errorf2 "failed to close file for reasons; " e0 e1))
  | [e0] => ret (Some e0)
  | [] => ret None
  end.

(** The file operations; the read operations return the buffer as the
    remote client left it. *)
Definition File_Read (f : File) (buf : list Byte.byte)
  : M St (list Byte.byte * Z * option error) :=
  match f_file f with
  | None => ret (buf, 0, Some ErrFileNil)
  | Some file => file_Read file buf
  end.

Definition File_ReadAt (f : File) (buf : list Byte.byte) (offset : Z)
  : M St (list Byte.byte * Z * option error) :=
  match f_file f with
  | None => ret (buf, 0, Some ErrFileNil)
  | Some file => file_ReadAt file buf offset
  end.

Definition File_Write (f : File) (buf : list Byte.byte)
  : M St (Z * option error) :=
  match f_file f with
  | None => ret (0, Some ErrFileNil)
  | Some file => file_Write file buf
  end.

Definition File_WriteAt (f : File) (buf : list Byte.byte) (off : Z)
  : M St (Z * option error) :=
  match f_file f with
  | None => ret (0, Some ErrFileNil)
  | Some file => file_WriteAt file buf off
  end.

Definition File_Seek (f : File) (offset whence : Z) : M St (Z * option error) :=
  match f_file f with
  | None => ret (0, Some ErrFileNil)
  | Some file => file_Seek file offset whence
  end.

Definition File_Stat (f : File) : M St (option FileInfo * option error) :=
  match f_file f with
  | None => ret (None, Some ErrFileNil)
  | Some file =>
      r <- file_Fstatx file ;;
      match r with
      | Err err => ret (None, Some err)
      | Ok stat => ret (Some (mkFileInfo stat (f_path f)), None)
      end
  end.

Definition File_Sync (f : File) : M St (option error) :=
  match f_file f with
  | None => ret (Some ErrFileNil)
  | Some file => file_Sync file
  end.

Definition File_Truncate (f : File) (size : Z) : M St (option error) :=
  match f_file f with
  | None => ret (Some ErrFileNil)
  | Some file => file_Truncate file size
  end.

Definition File_WriteString (f : File) (s : string) : M St (Z * option error) :=
  match f_file f with
  | None => ret (0, Some ErrFileNil)
  | Some _ => File_Write f (list_byte_of_string s)
  end.

(** The loop of [File.Readdir]: [count] is the remaining bound, [lst]
    the entries collected so far; it runs at most [fuel] times. *)
Fixpoint Readdir_loop (fuel : nat) (f : File) (dir : CDir) (count : Z)
    (lst : list FileInfo) : M St (list FileInfo * option error) :=
  match fuel with
  | O => out_of_fuel
  | S fuel' =>
      if count =? 0 then ret (lst, None)
      else
        r <- dir_ReadDirPlus dir ;;
        match r with
        | Err err => ret (lst, Some (Errorf "cephfs: failed to list file: " err))
        | Ok None =>
            if 0 <? count then ret (lst, Some IoEOF) else ret (lst, None)
        | Ok (Some (de, statx)) =>
            let name := de_Name de in
            if negb (String.eqb name ".") && negb (String.eqb name "..") then
              let fullPath := f_path f ++ "/" ++ de_Name de in
              let item := mkFileInfo statx fullPath in
              let lst := (lst ++ [item])%list in
              let count := if 0 <? count then count - 1 else count in
              Readdir_loop fuel' f dir count lst
            else Readdir_loop fuel' f dir count lst
        end
  end.

(** [File.Readdir]; a nil slice is the empty list. *)
Definition File_Readdir (fuel : nat) (f : File) (count : Z)
  : M St (list FileInfo * option error) :=
  match f_dir f with
  | None => ret ([], Some ErrDirNil)
  | Some dir =>
      let count := if count =? 0 then -1 else count in
      Readdir_loop fuel f dir count []
  end.

(** [File.Readdirnames]. *)
Definition File_Readdirnames (fuel : nat) (f : File) (count : Z)
  : M St (list string * option error) :=
  r <- File_Readdir fuel f count ;;
  let (deList, err) := r in
  let lst := fold_left (fun lst item => (lst ++ [FileInfo_Name item])%list) deList [] in
  ret (lst, err).

End Methods.
End Handle.

(* ===================================================================== *)
(** * Handle Adapter with an embedded remote file, and [listFromDir] *)
(* ===================================================================== *)

Module Listing.

(** [File]: the embedded [*gocephfs.File] and the path. *)
Record File : Type := mkFile {
  f_File : CFile;
  f_path : string
}.

Section Methods.
Context {St : Type} {client : CephClient St}.

(** [File.Stat]. *)
Definition File_Stat (f : File) : M St (option FileInfo * option error) :=
  r <- file_Fstatx (f_File f) ;;
  match r with
  | Err err => ret (None, Some err)
  | Ok stat => ret (Some (mkFileInfo stat (f_path f)), None)
  end.

(** The loop of [listFromDir]. *)
Fixpoint listFromDir_loop {T : Type} (fuel : nat) (dir : CDir) (count : Z)
    (lst : list T) (callback : DirEntry -> M St (result T))
  : M St (list T * option error) :=
  match fuel with
  | O => out_of_fuel
  | S fuel' =>
      if count =? 0 then ret (lst, None)
      else
        r <- dir_ReadDir dir ;;
        match r with
        | Err err => ret (lst, Some (Errorf "failed cephfs.ReadDir: " err))
        | Ok None => ret (lst, None)
        | Ok (Some de) =>
            r <- callback de ;;
            match r with
            | Err err =>
                ret (lst, Some (Errorf "listFromDir callback failed: " err))
            | Ok item =>
                let lst := (lst ++ [item])%list in
                let count := if 0 <? count then count - 1 else count in
                listFromDir_loop fuel' dir count lst callback
            end
        end
  end.

(** [listFromDir]; the deferred [dir.Close()] runs after the loop, its
    result is dropped. *)
Definition listFromDir {T : Type} (fuel : nat) (file : File) (count : Z)
    (callback : DirEntry -> M St (result T)) : M St (list T * option error) :=
  r <- File_Stat file ;;
  match r with
  | (_, Some err) => ret ([], Some err)
  | (None, None) => panic
  | (Some stat, None) =>
      if FileInfo_IsDir stat then
        r <- mount_OpenDir (f_path file) ;;
        match r with
        | Err err => ret ([], Some (Errorf "failed " err))
        | Ok dir =>
            let count := if count =? 0 then -1 else count in
            r <- listFromDir_loop fuel dir count [] callback ;;
            dir_Close dir ;;;
            ret r
        end
      else ret ([], Some (ErrorsNew "not a directory"))
  end.

(** [File.Readdir]. *)
Definition File_Readdir (fuel : nat) (f : File) (count : Z)
  : M St (list FileInfo * option error) :=
  listFromDir fuel f count (fun de =>
    let fullPath := f_path f ++ "/" ++ de_Name de in
    r <- mount_Statx fullPath ;;
    match r with
    | Err err => ret (Err (Errorf ("failed to statx file " ++ fullPath ++ ": ") err))
    | Ok stat => ret (Ok (mkFileInfo stat fullPath))
    end).

(** [File.Readdirnames]. *)
Definition File_Readdirnames (fuel : nat) (f : File) (n : Z)
  : M St (list string * option error) :=
  listFromDir fuel f n (fun de => ret (Ok (de_Name de))).

(** [Fs.Create], [Fs.Open] and [Fs.OpenFile] of this revision. *)
Definition Fs_Create (path : string) : M St (option File * option error) :=
  r <- mount_Open path (Z.lor O_RDWR (Z.lor O_CREATE O_TRUNC)) 0x1b6 ;;
  match r with
  | Err err => ret (None, Some err)
  | Ok cfile => ret (Some (mkFile cfile path), None)
  end.

Definition Fs_Open (path : string) : M St (option File * option error) :=
  r <- mount_Open path O_RDONLY 0 ;;
  match r with
  | Err err => ret (None, convertErr (Some err))
  | Ok cfile => ret (Some (mkFile cfile path), None)
  end.

Definition Fs_OpenFile (path : string) (flag perm : Z)
  : M St (option File * option error) :=
  r <- mount_Open path flag (uint32 (FileMode_Perm perm)) ;;
  match r with
  | Err err => ret (None, Some err)
  | Ok cfile => ret (Some (mkFile cfile path), None)
  end.

Definition File_Name (f : File) : string := f_path f.

(** [Close], promoted from the embedded [*gocephfs.File]. *)
Definition File_Close (f : File) : M St (option error) :=
  file_Close (f_File f).

(** [File.WriteString]; [f.Write] is the promoted method of the embedded
    remote file. *)
Definition File_WriteString (f : File) (s : string) : M St (Z * option error) :=
  file_Write (f_File f) (list_byte_of_string s).

End Methods.
End Listing.


(* ===================================================================== *)
(** * The Mode Translator's table *)
(* ===================================================================== *)

(** The type flag of [os.FileMode] that stands for each POSIX file type:
    none for a regular file and for an unrecognized type.  As in the [os]
    package, a character device is [ModeDevice] with [ModeCharDevice], a
    block device is [ModeDevice] alone. *)
Definition type_flag (t : Z) : Z :=
  if t =? S_IFDIR then ModeDir
  else if t =? S_IFCHR then Z.lor ModeDevice ModeCharDevice
  else if t =? S_IFBLK then ModeDevice
  else if t =? S_IFIFO then ModeNamedPipe
  else if t =? S_IFLNK then ModeSymlink
  else if t =? S_IFSOCK then ModeSocket
  else 0.

(** The recognized file types that carry a flag. *)
Definition flagged_types : list Z :=
  [S_IFDIR; S_IFCHR; S_IFBLK; S_IFIFO; S_IFLNK; S_IFSOCK].

(** The Mode Translator's contract at one raw mode, as a test. *)
Definition toFileMode_ok (mode : Z) : bool :=
  let fm := toFileMode mode in
  (Z.land fm ModePerm =? Z.land mode 0x1ff) &&
  (Z.land fm ModeType =? type_flag (Z.land mode S_IFMT)) &&
  Bool.eqb (Z.testbit fm 23) (Z.testbit mode 11) &&
  Bool.eqb (Z.testbit fm 22) (Z.testbit mode 10) &&
  Bool.eqb (Z.testbit fm 20) (Z.testbit mode 9).

(** [all_below n P b]: [P] holds of every [n]-bit extension of the prefix
    [b], that is of every [m] with [b * 2^n <= m < (b + 1) * 2^n]. *)
Fixpoint all_below (n : nat) (P : Z -> bool) (b : Z) : bool :=
  match n with
  | O => P b
  | S n' => all_below n' P (2 * b) && all_below n' P (2 * b + 1)
  end.


(* ===================================================================== *)
(** * What the remote client does during a run *)
(* ===================================================================== *)

Section Behaviour.
Context {St : Type} {client : CephClient St}.

(** How an enumeration of a directory stops: the remote client reports the
    end of the directory, its read fails, or the per-entry transform
    fails. *)
Inductive ending : Type :=
| AtEnd
| ReadFails (e : error)
| TransformFails (e : error).

(** [reads_plus d w l e w']: from the world [w], successive [ReadDirPlus]
    calls on the directory [d] yield the entries [l], in this order, and
    the next call stops the enumeration with [e], leaving the world
    [w']. *)
Inductive reads_plus (d : CDir)
  : World St -> list (DirEntry * CephStatx) -> ending -> World St -> Prop :=
| reads_plus_end w w' :
    dir_ReadDirPlus d w = Returns (Ok None) w' ->
    reads_plus d w [] AtEnd w'
| reads_plus_fails w w' e :
    dir_ReadDirPlus d w = Returns (Err e) w' ->
    reads_plus d w [] (ReadFails e) w'
| reads_plus_entry w w1 w' de l e :
    dir_ReadDirPlus d w = Returns (Ok (Some de)) w1 ->
    reads_plus d w1 l e w' ->
    reads_plus d w (de :: l) e w'.

(** [collects d callback w items e w']: from [w], reading [d] entry by
    entry with [ReadDir] and running [callback] on every entry yields
    [items], until the enumeration stops with [e] in the world [w']. *)
Inductive collects {T : Type} (d : CDir) (callback : DirEntry -> M St (result T))
  : World St -> list T -> ending -> World St -> Prop :=
| collects_end w w' :
    dir_ReadDir d w = Returns (Ok None) w' ->
    collects d callback w [] AtEnd w'
| collects_read_fails w w' e :
    dir_ReadDir d w = Returns (Err e) w' ->
    collects d callback w [] (ReadFails e) w'
| collects_transform_fails w w1 w' de e :
    dir_ReadDir d w = Returns (Ok (Some de)) w1 ->
    callback de w1 = Returns (Err e) w' ->
    collects d callback w [] (TransformFails e) w'
| collects_item w w1 w2 w' de item items e :
    dir_ReadDir d w = Returns (Ok (Some de)) w1 ->
    callback de w1 = Returns (Ok item) w2 ->
    collects d callback w2 items e w' ->
    collects d callback w (item :: items) e w'.

(** The entries [File.Readdir] of the two-capability handle builds from
    the raw entries [l]: the pseudo-entries are left out. *)
Definition listed (f : Handle.File) (l : list (DirEntry * CephStatx))
  : list FileInfo :=
  map (fun p => mkFileInfo (snd p) (Handle.f_path f ++ "/" ++ de_Name (fst p)))
      (filter (fun p => negb (is_dot (de_Name (fst p)))) l).

(** A run of the recursive delete, cut at the adapter's own operations
    ([Stat], [Remove] and the logged calls); it is the form the proofs
    below work with, and [deletes] further down is the algorithm over
    the remote client's answers.  [removes path w c w']: deleting [path]
    in the world [w] ends in [w'], with success ([c = None]) or with the
    failure [c] of one of its steps.

    - the target is statted; not-found is success, another stat failure
      propagates;
    - a target that is not a directory is removed directly ([Remove]);
    - a directory is opened and its children are processed
      ([children]), the directory itself is removed only after all of
      them were processed, and a failure of a child is the failure of the
      whole;
    - [children] reads the entries one by one until the end of the
      directory and stops at the first failure;
    - [child] skips ["."] and [".."], deletes a directory child
      recursively, unlinks a symlink or a regular file, and unlinks an
      entry of any other type the same way.

    The opened directory is closed before the operation returns. *)
Inductive removes : string -> World St -> option error -> World St -> Prop :=
| removes_absent path w w' info err :
    Fs_Stat path w = Returns (info, Some err) w' ->
    os_IsNotExist err = true ->
    removes path w None w'
| removes_stat_fails path w w' info err :
    Fs_Stat path w = Returns (info, Some err) w' ->
    os_IsNotExist err = false ->
    removes path w (Some err) w'
| removes_plain path w w1 w' stat c :
    Fs_Stat path w = Returns (Some stat, None) w1 ->
    FileInfo_IsDir stat = false ->
    Fs_Remove path w1 = Returns c w' ->
    removes path w c w'
| removes_open_fails path w w1 w' stat err :
    Fs_Stat path w = Returns (Some stat, None) w1 ->
    FileInfo_IsDir stat = true ->
    mount_OpenDir path w1 = Returns (Err err) w' ->
    removes path w (Some err) w'
| removes_directory path w w1 w2 w3 w4 w' stat dir c closed :
    Fs_Stat path w = Returns (Some stat, None) w1 ->
    FileInfo_IsDir stat = true ->
    mount_OpenDir path w1 = Returns (Ok dir) w2 ->
    children path dir w2 None w3 ->
    mount_RemoveDir path w3 = Returns c w4 ->
    dir_Close dir w4 = Returns closed w' ->
    removes path w c w'
| removes_child_fails path w w1 w2 w3 w' stat dir err closed :
    Fs_Stat path w = Returns (Some stat, None) w1 ->
    FileInfo_IsDir stat = true ->
    mount_OpenDir path w1 = Returns (Ok dir) w2 ->
    children path dir w2 (Some err) w3 ->
    dir_Close dir w3 = Returns closed w' ->
    removes path w (Some err) w'

with children : string -> CDir -> World St -> option error -> World St -> Prop :=
| children_done path dir w w' :
    dir_ReadDir dir w = Returns (Ok None) w' ->
    children path dir w None w'
| children_read_fails path dir w w' err :
    dir_ReadDir dir w = Returns (Err err) w' ->
    children path dir w (Some err) w'
| children_next path dir w w1 w2 w' de c :
    dir_ReadDir dir w = Returns (Ok (Some de)) w1 ->
    child path de w1 None w2 ->
    children path dir w2 c w' ->
    children path dir w c w'
| children_abort path dir w w1 w' de err :
    dir_ReadDir dir w = Returns (Ok (Some de)) w1 ->
    child path de w1 (Some err) w' ->
    children path dir w (Some err) w'

with child : string -> DirEntry -> World St -> option error -> World St -> Prop :=
| child_dot path de w :
    is_dot (de_Name de) = true ->
    child path de w None w
| child_directory path de w w' c :
    is_dot (de_Name de) = false ->
    de_DType de = DTypeDir ->
    removes (path ++ "/" ++ de_Name de) w c w' ->
    child path de w c w'
| child_file path de w w' c :
    is_dot (de_Name de) = false ->
    de_DType de = DTypeLnk \/ de_DType de = DTypeReg ->
    mount_Unlink (path ++ "/" ++ de_Name de) w = Returns c w' ->
    child path de w c w'
| child_other path de w w' c :
    is_dot (de_Name de) = false ->
    de_DType de <> DTypeDir ->
    de_DType de <> DTypeLnk ->
    de_DType de <> DTypeReg ->
    mount_Unlink (path ++ "/" ++ de_Name de) w = Returns c w' ->
    child path de w c w'.

Scheme removes_mut := Minimality for removes Sort Prop
  with children_mut := Minimality for children Sort Prop
  with child_mut := Minimality for child Sort Prop.

Combined Scheme removes_children_child_ind
  from removes_mut, children_mut, child_mut.

(** [answers c op w a w']: in the world [w] the remote client is asked
    [c]; it answers [a], and [w'] is the world after: the client's new
    state, and the log with [c] added at its end. *)
Definition answers {A : Type} (c : Call) (op : St -> A * St)
    (w : World St) (a : A) (w' : World St) : Prop :=
  op (remote w) = (a, remote w') /\ calls w' = (calls w ++ [c])%list.

(** The failure of the remote stat counts as not-found: it matches the
    remote client's not-found error, or it is the generic not-found error
    already. *)
Definition stat_not_found (raw : error) : bool :=
  errors_Is_ErrNotExist raw || os_IsNotExist raw.

(** The stat record is that of a directory: its translated mode has the
    directory flag. *)
Definition statx_is_dir (stat : CephStatx) : bool :=
  FileMode_IsDir (toFileMode (sx_Mode stat)).

(** The recursive delete as the specification words it, over the calls
    to the remote client and its answers.  [deletes path w c w']:
    deleting [path] in the world [w] ends in [w'], with success
    ([c = None]) or with the failure [c] of one of its steps.

    - the target is statted (one [Statx] call); not-found is success,
      another stat failure is the failure of the whole;
    - a target that is not a directory is removed directly: one [Unlink]
      call on the target, whose failure goes through the Error
      Translator;
    - a directory is opened ([OpenDir]) and emptied ([empties]); only
      after all its entries were processed the directory itself is
      removed ([RemoveDir]); a failure of an entry is the failure of the
      whole, and then the directory is not removed;
    - [empties] reads the entries one by one ([ReadDir]) until the end of
      the directory and stops at the first failure;
    - [deletes_entry] passes over ["."] and [".."] without a call,
      deletes a directory entry recursively, unlinks a symlink or a
      regular file, and unlinks an entry of any other type the same way.

    The opened directory is closed ([Close]) before the operation
    returns. *)
Inductive deletes : string -> World St -> option error -> World St -> Prop :=
| deletes_absent path w w' raw :
    answers (CallStatx path) (c_Statx path) w (Err raw) w' ->
    stat_not_found raw = true ->
    deletes path w None w'
| deletes_stat_fails path w w' raw :
    answers (CallStatx path) (c_Statx path) w (Err raw) w' ->
    stat_not_found raw = false ->
    deletes path w (Some raw) w'
| deletes_plain path w w1 w' stat failure :
    answers (CallStatx path) (c_Statx path) w (Ok stat) w1 ->
    statx_is_dir stat = false ->
    answers (CallUnlink path) (c_Unlink path) w1 failure w' ->
    deletes path w (convertErr failure) w'
| deletes_open_fails path w w1 w' stat raw :
    answers (CallStatx path) (c_Statx path) w (Ok stat) w1 ->
    statx_is_dir stat = true ->
    answers (CallOpenDir path) (c_OpenDir path) w1 (Err raw) w' ->
    deletes path w (Some raw) w'
| deletes_directory path w w1 w2 w3 w4 w' stat dir failure closed :
    answers (CallStatx path) (c_Statx path) w (Ok stat) w1 ->
    statx_is_dir stat = true ->
    answers (CallOpenDir path) (c_OpenDir path) w1 (Ok dir) w2 ->
    empties path dir w2 None w3 ->
    answers (CallRemoveDir path) (c_RemoveDir path) w3 failure w4 ->
    answers (CallDirClose dir) (c_DirClose dir) w4 closed w' ->
    deletes path w failure w'
| deletes_entry_fails path w w1 w2 w3 w' stat dir failure closed :
    answers (CallStatx path) (c_Statx path) w (Ok stat) w1 ->
    statx_is_dir stat = true ->
    answers (CallOpenDir path) (c_OpenDir path) w1 (Ok dir) w2 ->
    empties path dir w2 (Some failure) w3 ->
    answers (CallDirClose dir) (c_DirClose dir) w3 closed w' ->
    deletes path w (Some failure) w'

with empties : string -> CDir -> World St -> option error -> World St -> Prop :=
| empties_done path dir w w' :
    answers (CallReadDir dir) (c_ReadDir dir) w (Ok None) w' ->
    empties path dir w None w'
| empties_read_fails path dir w w' raw :
    answers (CallReadDir dir) (c_ReadDir dir) w (Err raw) w' ->
    empties path dir w (Some raw) w'
| empties_next path dir w w1 w2 w' de c :
    answers (CallReadDir dir) (c_ReadDir dir) w (Ok (Some de)) w1 ->
    deletes_entry path de w1 None w2 ->
    empties path dir w2 c w' ->
    empties path dir w c w'
| empties_abort path dir w w1 w' de failure :
    answers (CallReadDir dir) (c_ReadDir dir) w (Ok (Some de)) w1 ->
    deletes_entry path de w1 (Some failure) w' ->
    empties path dir w (Some failure) w'

with deletes_entry
  : string -> DirEntry -> World St -> option error -> World St -> Prop :=
| entry_dot path de w :
    is_dot (de_Name de) = true ->
    deletes_entry path de w None w
| entry_directory path de w w' c :
    is_dot (de_Name de) = false ->
    de_DType de = DTypeDir ->
    deletes (path ++ "/" ++ de_Name de) w c w' ->
    deletes_entry path de w c w'
| entry_file path de w w' failure :
    is_dot (de_Name de) = false ->
    de_DType de = DTypeLnk \/ de_DType de = DTypeReg ->
    answers (CallUnlink (path ++ "/" ++ de_Name de))
            (c_Unlink (path ++ "/" ++ de_Name de)) w failure w' ->
    deletes_entry path de w failure w'
| entry_other path de w w' failure :
    is_dot (de_Name de) = false ->
    de_DType de <> DTypeDir ->
    de_DType de <> DTypeLnk ->
    de_DType de <> DTypeReg ->
    answers (CallUnlink (path ++ "/" ++ de_Name de))
            (c_Unlink (path ++ "/" ++ de_Name de)) w failure w' ->
    deletes_entry path de w failure w'.

Scheme deletes_mut := Minimality for deletes Sort Prop
  with empties_mut := Minimality for empties Sort Prop
  with deletes_entry_mut := Minimality for deletes_entry Sort Prop.

Combined Scheme deletes_empties_entry_ind
  from deletes_mut, empties_mut, deletes_entry_mut.

(** [carries r c]: the error [r] the adapter returns reports the failure
    [c]: both are nil, or [r] is [c] or wraps it. *)
Definition carries (r c : option error) : Prop :=
  match r, c with
  | None, None => True
  | Some e, Some c => wraps e c
  | _, _ => False
  end.

(** [translated raw e]: the returned error [e] is the Error Translator's
    image of the remote failure [raw], or wraps it. *)
Definition translated (raw e : error) : Prop :=
  exists c, convertErr (Some raw) = Some c /\ wraps e c.


(** [yields_plain_names P]: in the states of the remote client that meet
    [P], and [ReadDirPlus] keeps the client in them, the entries that
    [ReadDirPlus] yields have names that are not empty and hold no
    slash. *)
Definition yields_plain_names (P : St -> Prop) : Prop :=
  forall d s r s',
    P s ->
    c_ReadDirPlus d s = (r, s') ->
    P s' /\
    forall de sx, r = Ok (Some (de, sx)) ->
      de_Name de <> EmptyString /\
      forall c, In c (list_ascii_of_string (de_Name de)) -> is_separator c = false.

End Behaviour.


(* ===================================================================== *)
(** * A scripted client *)
(* ===================================================================== *)

(** A client that answers from a script: its state is the list of the
    replies still to give, each call consumes one.  It is the test double
    the adapter is run against on concrete inputs. *)
Module Scripted.

Inductive Reply : Type :=
| ReplyNil
| ReplyErr (e : error)
| ReplyFile (f : CFile)
| ReplyDir (d : CDir)
| ReplyStatx (s : CephStatx)
| ReplyEntry (de : DirEntry)
| ReplyEntryPlus (de : DirEntry) (s : CephStatx)
| ReplyCount (buf : list Byte.byte) (n : Z) (err : option error).

(** The error of a call the script has no fitting reply for. *)
Definition off_script : error := CephErr false "cephfs: off script".

Definition answer {A : Type} (read : Reply -> A) (dflt : A) (s : list Reply)
  : A * list Reply :=
  match s with
  | r :: s' => (read r, s')
  | [] => (dflt, [])
  end.

Definition as_error (r : Reply) : option error :=
  match r with
  | ReplyNil => None
  | ReplyErr e => Some e
  | _ => Some off_script
  end.

Definition as_file (r : Reply) : result CFile :=
  match r with
  | ReplyFile f => Ok f
  | ReplyErr e => Err e
  | _ => Err off_script
  end.

Definition as_dir (r : Reply) : result CDir :=
  match r with
  | ReplyDir d => Ok d
  | ReplyErr e => Err e
  | _ => Err off_script
  end.

Definition as_statx (r : Reply) : result CephStatx :=
  match r with
  | ReplyStatx s => Ok s
  | ReplyErr e => Err e
  | _ => Err off_script
  end.

Definition as_entry (r : Reply) : result (option DirEntry) :=
  match r with
  | ReplyNil => Ok None
  | ReplyEntry de => Ok (Some de)
  | ReplyErr e => Err e
  | _ => Err off_script
  end.

Definition as_entry_plus (r : Reply) : result (option (DirEntry * CephStatx)) :=
  match r with
  | ReplyNil => Ok None
  | ReplyEntryPlus de s => Ok (Some (de, s))
  | ReplyErr e => Err e
  | _ => Err off_script
  end.

Definition as_read (buf : list Byte.byte) (r : Reply)
  : list Byte.byte * Z * option error :=
  match r with
  | ReplyCount buf' n err => (buf', n, err)
  | ReplyErr e => (buf, 0, Some e)
  | _ => (buf, 0, Some off_script)
  end.

Definition as_count (r : Reply) : Z * option error :=
  match r with
  | ReplyCount _ n err => (n, err)
  | ReplyErr e => (0, Some e)
  | _ => (0, Some off_script)
  end.

#[global] Instance client : CephClient (list Reply) := {
  c_Open _ _ _ := answer as_file (Err off_script);
  c_MakeDir _ _ := answer as_error (Some off_script);
  c_MakeDirs _ _ := answer as_error (Some off_script);
  c_OpenDir _ := answer as_dir (Err off_script);
  c_Unlink _ := answer as_error (Some off_script);
  c_RemoveDir _ := answer as_error (Some off_script);
  c_Rename _ _ := answer as_error (Some off_script);
  c_Statx _ := answer as_statx (Err off_script);
  c_Chmod _ _ := answer as_error (Some off_script);
  c_Chown _ _ _ := answer as_error (Some off_script);
  c_Fstatx _ := answer as_statx (Err off_script);
  c_FileClose _ := answer as_error (Some off_script);
  c_Read _ buf := answer (as_read buf) (buf, 0, Some off_script);
  c_ReadAt _ buf _ := answer (as_read buf) (buf, 0, Some off_script);
  c_Write _ _ := answer as_count (0, Some off_script);
  c_WriteAt _ _ _ := answer as_count (0, Some off_script);
  c_Seek _ _ _ := answer as_count (0, Some off_script);
  c_Sync _ := answer as_error (Some off_script);
  c_Truncate _ _ := answer as_error (Some off_script);
  c_ReadDir _ := answer as_entry (Err off_script);
  c_ReadDirPlus _ := answer as_entry_plus (Err off_script);
  c_DirClose _ := answer as_error (Some off_script)
}.

(** The world in which the client will give the replies of [script] and no
    call was made yet. *)
Definition world (script : list Reply) : World (list Reply) :=
  mkWorld script [].

(** Stat records of a directory and of a regular file. *)
Definition dir_statx : CephStatx := mkStatx 0x41ed 0 0 0.
Definition reg_statx : CephStatx := mkStatx 0x81a4 12 0 0.

End Scripted.


(* ===================================================================== *)
(** * Further notions of the [os] package and of the call log *)
(* ===================================================================== *)

(** [os.IsExist(err)]: like [os.IsNotExist], it does not look through
    [fmt.Errorf] wrappers. *)
Definition os_IsExist (err : error) : bool :=
  match err with
  | OsErrExist => true
  | _ => false
  end.

(** [m.IsRegular()] of [os.FileMode]. *)
Definition FileMode_IsRegular (m : Z) : bool := Z.land m ModeType =? 0.

(** The two file-type answers of a translated mode, as a test. *)
Definition toFileMode_kind_ok (mode : Z) : bool :=
  Bool.eqb (FileMode_IsDir (toFileMode mode)) (Z.land mode S_IFMT =? S_IFDIR) &&
  Bool.eqb (FileMode_IsRegular (toFileMode mode))
           (negb (existsb (Z.eqb (Z.land mode S_IFMT)) flagged_types)).

(** The paths a logged call names. *)
Definition call_paths (c : Call) : list string :=
  match c with
  | CallOpen path _ _ => [path]
  | CallMakeDir path _ => [path]
  | CallMakeDirs path _ => [path]
  | CallOpenDir path => [path]
  | CallUnlink path => [path]
  | CallRemoveDir path => [path]
  | CallRename oldPath newPath => [oldPath; newPath]
  | CallStatx path => [path]
  | CallChmod path _ => [path]
  | CallChown path _ _ => [path]
  | _ => []
  end.

(** The calls that only look at the remote filesystem or work on an open
    directory, and the calls that delete. *)
Definition removal_call (c : Call) : bool :=
  match c with
  | CallStatx _ | CallOpenDir _ | CallReadDir _ | CallDirClose _
  | CallUnlink _ | CallRemoveDir _ => true
  | _ => false
  end.

(** [under root p]: the path [p] is [root] or is built from [root] by
    appending ["/"] and more. *)
Definition under (root p : string) : Prop :=
  p = root \/ exists rest, p = root ++ "/" ++ rest.


(** [confined root w w']: from [w] to [w'] the log gained only calls that
    look at or delete things, and every path they name is [root] or lies
    under it. *)
Definition confined {St : Type} (root : string) (w w' : World St) : Prop :=
  exists delta,
    calls w' = (calls w ++ delta)%list /\
    forall c, In c delta ->
      removal_call c = true /\ forall p, In p (call_paths c) -> under root p.


(* ===================================================================== *)
(** * Connection arguments and the mount's life cycle *)
(* ===================================================================== *)

(** The white space of the ASCII path of [strings.Fields]: space, tab,
    line feed, vertical tab, form feed, carriage return. *)
Definition asciiSpace (c : ascii) : bool :=
  (Ascii.eqb c " " || Ascii.eqb c "009" || Ascii.eqb c "010" ||
   Ascii.eqb c "011" || Ascii.eqb c "012" || Ascii.eqb c "013")%char.

(** [fields_from s cur]: the fields of [s], after the characters [cur] of a
    field that has begun. *)
Fixpoint fields_from (s : string) (cur : string) : list string :=
  match s with
  | EmptyString => if String.eqb cur EmptyString then [] else [cur]
  | String c s' =>
      if asciiSpace c then
        if String.eqb cur EmptyString then fields_from s' EmptyString
        else cur :: fields_from s' EmptyString
      else fields_from s' (cur ++ String c EmptyString)
  end.

(** The byte of a character of a Go string. *)
Definition byte_of (c : ascii) : Z := Z.of_N (N_of_ascii c).

(** [utf8.RuneError], and the test for a continuation byte. *)
Definition RuneError : Z := 0xFFFD.

Definition between (lo hi b : Z) : bool := (lo <=? b) && (b <=? hi).

(** [utf8.DecodeRuneInString(s)], which is also how [range] walks a
    string: the rune at the head of [s] and the number of bytes it takes.
    An encoding that is invalid, or cut short, is [RuneError] of width
    one.  The second byte of a rune is confined by its first: [0xE0] asks
    for [0xA0..0xBF] (no overlong forms), [0xED] for [0x80..0x9F] (no
    surrogates), [0xF0] for [0x90..0xBF], [0xF4] for [0x80..0x8F]. *)
Definition utf8_DecodeRuneInString (s : string) : Z * nat :=
  match s with
  | EmptyString => (RuneError, 0%nat)
  | String c0 rest =>
      let s0 := byte_of c0 in
      if s0 <? 0x80 then (s0, 1%nat)
      else if (s0 <? 0xC2) || (0xF4 <? s0) then (RuneError, 1%nat)
      else
        match rest with
        | EmptyString => (RuneError, 1%nat)
        | String c1 rest1 =>
            let s1 := byte_of c1 in
            let lo := if s0 =? 0xE0 then 0xA0 else if s0 =? 0xF0 then 0x90 else 0x80 in
            let hi := if s0 =? 0xED then 0x9F else if s0 =? 0xF4 then 0x8F else 0xBF in
            if negb (between lo hi s1) then (RuneError, 1%nat)
            else if s0 <? 0xE0 then
              (Z.lor (Z.shiftl (Z.land s0 0x1F) 6) (Z.land s1 0x3F), 2%nat)
            else
              match rest1 with
              | EmptyString => (RuneError, 1%nat)
              | String c2 rest2 =>
                  let s2 := byte_of c2 in
                  if negb (between 0x80 0xBF s2) then (RuneError, 1%nat)
                  else if s0 <? 0xF0 then
                    (Z.lor (Z.shiftl (Z.land s0 0x0F) 12)
                       (Z.lor (Z.shiftl (Z.land s1 0x3F) 6) (Z.land s2 0x3F)),
                     3%nat)
                  else
                    match rest2 with
                    | EmptyString => (RuneError, 1%nat)
                    | String c3 _ =>
                        let s3 := byte_of c3 in
                        if negb (between 0x80 0xBF s3) then (RuneError, 1%nat)
                        else
                          (Z.lor (Z.shiftl (Z.land s0 0x07) 18)
                             (Z.lor (Z.shiftl (Z.land s1 0x3F) 12)
                                (Z.lor (Z.shiftl (Z.land s2 0x3F) 6)
                                   (Z.land s3 0x3F))),
                           4%nat)
                    end
              end
        end
  end.

(** [unicode.IsSpace(r)]: in Latin-1 the six ASCII white-space
    characters, U+0085 and U+00A0; beyond it the characters of the
    [White_Space] property. *)
Definition unicode_IsSpace (r : Z) : bool :=
  between 0x09 0x0D r || (r =? 0x20) || (r =? 0x85) || (r =? 0xA0) ||
  (r =? 0x1680) || between 0x2000 0x200A r || (r =? 0x2028) || (r =? 0x2029) ||
  (r =? 0x202F) || (r =? 0x205F) || (r =? 0x3000).

(** [strings.FieldsFunc(s, f)], rune by rune.  [more] counts the bytes
    that still belong to the rune that began before, [keep] tells whether
    that rune is part of a field, [cur] holds the bytes of the field that
    has begun. *)
Fixpoint fields_runes (f : Z -> bool) (s : string) (more : nat) (keep : bool)
    (cur : string) : list string :=
  match s with
  | EmptyString => if String.eqb cur EmptyString then [] else [cur]
  | String c s' =>
      match more with
      | S more' =>
          fields_runes f s' more' keep
            (if keep then cur ++ String c EmptyString else cur)
      | O =>
          let (r, size) := utf8_DecodeRuneInString s in
          if f r then
            if String.eqb cur EmptyString
            then fields_runes f s' (Nat.pred size) false EmptyString
            else cur :: fields_runes f s' (Nat.pred size) false EmptyString
          else fields_runes f s' (Nat.pred size) true (cur ++ String c EmptyString)
      end
  end.

Definition strings_FieldsFunc (s : string) (f : Z -> bool) : list string :=
  fields_runes f s 0 false EmptyString.

(** [strings.Fields(s)]: a string of ASCII bytes only is split at the six
    ASCII white-space bytes; a string that holds any other byte is split
    at the runes that are [unicode.IsSpace]. *)
Definition strings_Fields (s : string) : list string :=
  if forallb (fun c => byte_of c <? 0x80) (list_ascii_of_string s)
  then fields_from s EmptyString
  else strings_FieldsFunc s unicode_IsSpace.

(** [strings.CutPrefix(s, prefix)]. *)
Definition strings_CutPrefix (s prefix : string) : string * bool :=
  if String.prefix prefix s then
    (substring (String.length prefix) (String.length s - String.length prefix) s,
     true)
  else (s, false).

Record cephArgs : Type := mkCephArgs {
  Name : string;
  KeyringPath : string;
  ConfigPath : string
}.

(** The three targets of the pointers in the [prefixes] map. *)
Inductive argField : Type := ArgName | ArgConfigPath | ArgKeyringPath.

(** [*ptr = s]. *)
Definition set_arg (ptr : argField) (s : string) (myArgs : cephArgs) : cephArgs :=
  match ptr with
  | ArgName => mkCephArgs s (KeyringPath myArgs) (ConfigPath myArgs)
  | ArgConfigPath => mkCephArgs (Name myArgs) (KeyringPath myArgs) s
  | ArgKeyringPath => mkCephArgs (Name myArgs) s (ConfigPath myArgs)
  end.

Definition get_arg (ptr : argField) (myArgs : cephArgs) : string :=
  match ptr with
  | ArgName => Name myArgs
  | ArgConfigPath => ConfigPath myArgs
  | ArgKeyringPath => KeyringPath myArgs
  end.

(** The entries of the [prefixes] map. *)
Definition prefixes : list (string * argField) :=
  [("-n=", ArgName); ("--name=", ArgName);
   ("-c=", ArgConfigPath); ("-k=", ArgKeyringPath)].

(** The inner loop of [getCephArgs] on one argument: the map is ranged
    over in the order [order], up to the first prefix that is found. *)
Fixpoint apply_prefixes (order : list (string * argField)) (arg : string)
    (myArgs : cephArgs) : cephArgs :=
  match order with
  | [] => myArgs
  | (prefix, ptr) :: rest =>
      let (s, found) := strings_CutPrefix arg prefix in
      if found then set_arg ptr s myArgs
      else apply_prefixes rest arg myArgs
  end.

(** The outer loop of [getCephArgs] from the [i]-th argument on.  Go
    ranges over a map in an order of its own choice: [orders i] is the
    order at the [i]-th argument. *)
Fixpoint parse_args (orders : nat -> list (string * argField)) (i : nat)
    (args : list string) (myArgs : cephArgs) : cephArgs :=
  match args with
  | [] => myArgs
  | arg :: rest =>
      parse_args orders (S i) rest (apply_prefixes (orders i) arg myArgs)
  end.

(** [getCephArgs]; [envCephArgs] is the value of [CEPH_ARGS]. *)
Definition getCephArgs (orders : nat -> list (string * argField))
    (envCephArgs : string) : cephArgs :=
  let args := strings_Fields envCephArgs in
  parse_args orders 0 args (mkCephArgs EmptyString EmptyString EmptyString).

(** A [*gocephfs.MountInfo] under construction or in use, and the
    adapter's [Fs] around it. *)
Definition CMount : Type := nat.

Record Fs : Type := mkFs { fs_mount : CMount }.

(** The calls of the mount's life cycle, as they are logged. *)
Inductive SessionCall : Type :=
| CallCreateMountWithId (id : string)
| CallReadConfigFile (m : CMount) (path : string)
| CallReadDefaultConfigFile (m : CMount)
| CallMount (m : CMount)
| CallUnmount (m : CMount)
| CallRelease (m : CMount).

(** The part of the remote client that makes and ends a mount. *)
Class CephSession (St : Type) : Type := {
  c_CreateMountWithId : string -> St -> result CMount * St;
  c_ReadConfigFile : CMount -> string -> St -> option error * St;
  c_ReadDefaultConfigFile : CMount -> St -> option error * St;
  c_Mount : CMount -> St -> option error * St;
  c_Unmount : CMount -> St -> option error * St;
  c_Release : CMount -> St -> option error * St
}.

(** The state of the client with the log of the life-cycle calls. *)
Definition Session (St : Type) : Type := (St * list SessionCall)%type.

Definition session_call {St A : Type} (c : SessionCall) (op : St -> A * St)
    (w : Session St) : A * Session St :=
  let (a, s') := op (fst w) in (a, (s', (snd w ++ [c])%list)).

Section SessionOps.
Context {St : Type} {session : CephSession St}.

(** [NewCephFS]. *)
Definition NewCephFS (orders : nat -> list (string * argField))
    (envCephArgs : string) (w : Session St)
  : (option Fs * option error) * Session St :=
  let args := getCephArgs orders envCephArgs in
  let mountId := fst (strings_CutPrefix (Name args) "client.") in
  let (r, w) := session_call (CallCreateMountWithId mountId)
                             (c_CreateMountWithId mountId) w in
  match r with
  | Err err =>
      ((None, Some (Errorf ("failed to create cephfs mount with id "
                            ++ mountId ++ ": ") err)), w)
  | Ok mount =>
      let (failed, w) :=
        if negb (String.eqb (ConfigPath args) EmptyString) then
          let (err, w) := session_call (CallReadConfigFile mount (ConfigPath args))
                                       (c_ReadConfigFile mount (ConfigPath args)) w in
          match err with
          | Some err =>
              (Some (Errorf ("failed to read ceph config at "
                             ++ ConfigPath args ++ ": ") err), w)
          | None => (None, w)
          end
        else
          let (err, w) := session_call (CallReadDefaultConfigFile mount)
                                       (c_ReadDefaultConfigFile mount) w in
          match err with
          | Some err => (Some (Errorf "failed to read default ceph config: " err), w)
          | None => (None, w)
          end in
      match failed with
      | Some e => ((None, Some e), w)
      | None =>
          let (err, w) := session_call (CallMount mount) (c_Mount mount) w in
          match err with
          | Some err => ((None, Some (Errorf "failed to mount cephfs: " err)), w)
          | None => ((Some (mkFs mount), None), w)
          end
      end
  end.

(** [ToAferoFS]. *)
Definition ToAferoFS (cephfsys : CMount) : Fs := mkFs cephfsys.

(** [Fs.Unmount]. *)
Definition Fs_Unmount (fs : Fs) (w : Session St) : option error * Session St :=
  let (err, w) := session_call (CallUnmount (fs_mount fs))
                               (c_Unmount (fs_mount fs)) w in
  match err with
  | Some err => (Some (Errorf "failed to unmount cephfs: " err), w)
  | None =>
      let (err, w) := session_call (CallRelease (fs_mount fs))
                                   (c_Release (fs_mount fs)) w in
      match err with
      | Some err => (Some (Errorf "failed to release cephfs: " err), w)
      | None => (None, w)
      end
  end.

End SessionOps.


(** A scripted client for the life cycle of a mount. *)
Module ScriptedSession.

Inductive Reply : Type :=
| ReplyNil
| ReplyErr (e : error)
| ReplyMount (m : CMount).

Definition off_script : error := CephErr false "cephfs: off script".

Definition answer {A : Type} (read : Reply -> A) (dflt : A) (s : list Reply)
  : A * list Reply :=
  match s with
  | r :: s' => (read r, s')
  | [] => (dflt, [])
  end.

Definition as_error (r : Reply) : option error :=
  match r with
  | ReplyNil => None
  | ReplyErr e => Some e
  | ReplyMount _ => Some off_script
  end.

Definition as_mount (r : Reply) : result CMount :=
  match r with
  | ReplyMount m => Ok m
  | ReplyErr e => Err e
  | ReplyNil => Err off_script
  end.

#[global] Instance session : CephSession (list Reply) := {
  c_CreateMountWithId _ := answer as_mount (Err off_script);
  c_ReadConfigFile _ _ := answer as_error (Some off_script);
  c_ReadDefaultConfigFile _ := answer as_error (Some off_script);
  c_Mount _ := answer as_error (Some off_script);
  c_Unmount _ := answer as_error (Some off_script);
  c_Release _ := answer as_error (Some off_script)
}.

(** U+00A0, the no-break space, in UTF-8. *)
Definition nbsp : string := String "194" (String "160" EmptyString).

(** The map is ranged over in the order of its literal, or backwards. *)
Definition in_order : nat -> list (string * argField) := fun _ => prefixes.
Definition backwards : nat -> list (string * argField) := fun _ => rev prefixes.

End ScriptedSession.


(* ===================================================================== *)
(** * The interactive shell (cmd/shell.go) *)
(* ===================================================================== *)

(** What a command hands to the shell's context, in the order of its
    calls: a line to [c.Println], a failure to [c.Err].  When and how the
    shell library shows them is the library's business. *)
Inductive Output : Type :=
| Printed (line : string)
| Failed (err : error).

(** [fmt.Errorf(text + "%v", err)]: the text of [err] is kept, [err]
    itself is not wrapped. *)
Definition Errorf_v (text : string) (err : error) : error :=
  ErrorsNew (text ++ Error err).

(** The [afero.Fs] the shell drives, with the [afero.File] and the
    [os.FileInfo] values it hands out.  A nil interface value is [None]. *)
Class AferoFs (St F I : Type) : Type := {
  afero_Create : string -> M St (option F * option error);
  afero_Mkdir : string -> Z -> M St (option error);
  afero_Open : string -> M St (option F * option error);
  afero_Remove : string -> M St (option error);
  afero_Stat : string -> M St (option I * option error);
  afero_Close : F -> M St (option error);
  afero_Readdirnames : F -> Z -> M St (list string * option error);
  info_Name : I -> string;
  info_Size : I -> Z;
  info_Mode : I -> Z;
  info_IsDir : I -> bool
}.

(** A command's run: what it handed to the context, and how it ended.
    What was handed over before a panic stays handed over. *)
Record Ran (St A : Type) : Type := mkRan {
  written : list Output;
  ended : outcome St A
}.
Arguments mkRan {St A} written ended.
Arguments written {St A} r.
Arguments ended {St A} r.

Definition Sh (St A : Type) : Type := World St -> Ran St A.

Definition sh_ret {St A : Type} (a : A) : Sh St A :=
  fun w => mkRan [] (Returns a w).

Definition sh_bind {St A B : Type} (m : Sh St A) (k : A -> Sh St B) : Sh St B :=
  fun w =>
    let r := m w in
    match ended r with
    | Returns a w' =>
        let r' := k a w' in
        mkRan (written r ++ written r')%list (ended r')
    | Panics => mkRan (written r) Panics
    | OutOfFuel => mkRan (written r) OutOfFuel
    end.

Definition sh_call {St A : Type} (m : M St A) : Sh St A :=
  fun w => mkRan [] (m w).

Definition sh_panic {St A : Type} : Sh St A := fun _ => mkRan [] Panics.

Definition sh_Println {St : Type} (line : string) : Sh St unit :=
  fun w => mkRan [Printed line] (Returns tt w).

Definition sh_Err {St : Type} (err : error) : Sh St unit :=
  fun w => mkRan [Failed err] (Returns tt w).

Declare Scope shell_scope.
Delimit Scope shell_scope with shell.
Notation "x <- m ;; k" := (sh_bind m (fun x => k))
  (at level 61, m at next level, right associativity) : shell_scope.
Notation "m ;;; k" := (sh_bind m (fun _ => k))
  (at level 61, right associativity) : shell_scope.

Section Shell.
Context {St F I : Type} {fs : AferoFs St F I}.

(** [strconv.Atoi], and [json.MarshalIndent] of the record the [stat]
    command builds (name, size, mode, isDir), as a string. *)
Variable Atoi : string -> result Z.
Variable MarshalIndent : string -> Z -> Z -> bool -> result string.

Local Open Scope shell_scope.

(** [for _, item := range list { c.Println(item) }]. *)
Fixpoint print_all (lst : list string) : Sh St unit :=
  match lst with
  | [] => sh_ret tt
  | item :: rest => sh_Println item ;;; print_all rest
  end.

(** The [list] command.  The deferred [dir.Close()] runs when the command
    returns. *)
Definition cmd_list (args : list string) : Sh St unit :=
  let path := match args with p :: _ => p | [] => "/" end in
  let parsed := match args with _ :: a :: _ => Atoi a | _ => Ok 0 end in
  match parsed with
  | Err err => sh_Err (Errorf "failed to parse string as int: " err)
  | Ok count =>
      r <- sh_call (afero_Stat path) ;;
      match r with
      | (_, Some err) =>
          sh_Err (Errorf_v ("failed to access file at " ++ path ++ ": ") err)
      | (None, None) => sh_panic
      | (Some stat, None) =>
          if info_IsDir stat then
            r <- sh_call (afero_Open path) ;;
            match r with
            | (_, Some err) =>
                sh_Err (Errorf_v ("failed to open " ++ path ++ ": ") err)
            | (None, None) => sh_panic
            | (Some dir, None) =>
                r <- sh_call (afero_Readdirnames dir count) ;;
                let (lst, err) := r in
                print_all lst ;;;
                match err with
                | Some err => sh_Err (Errorf_v "failed to read directory: " err)
                | None => sh_ret tt
                end ;;;
                sh_call (afero_Close dir) ;;;
                sh_ret tt
            end
          else sh_Println (info_Name stat)
      end
  end.

(** The [create] command: it does not return after [Create] failed. *)
Definition cmd_create (args : list string) : Sh St unit :=
  match args with
  | [] => sh_Err (ErrorsNew "you must provide a file path or name")
  | _ :: _ :: _ => sh_Err (ErrorsNew "multiple inputs provided, we only expect one")
  | [path] =>
      r <- sh_call (afero_Create path) ;;
      let (file, err) := r in
      match err with
      | Some err => sh_Err (Errorf_v "failed to create file: " err)
      | None => sh_ret tt
      end ;;;
      sh_Println "file created" ;;;
      match file with
      | None => sh_panic
      | Some file => sh_call (afero_Close file) ;;; sh_ret tt
      end
  end.

(** The [mkdir] command; [0x1ed] is the octal constant [0755]. *)
Definition cmd_mkdir (args : list string) : Sh St unit :=
  match args with
  | [] => sh_Err (ErrorsNew "you must provide a file path")
  | _ :: _ :: _ => sh_Err (ErrorsNew "multiple inputs provided, we only expect one")
  | [path] =>
      err <- sh_call (afero_Mkdir path 0x1ed) ;;
      match err with
      | Some err => sh_Err (Errorf_v "failed to create directory: " err)
      | None => sh_ret tt
      end
  end.

(** The [stat] command. *)
Definition cmd_stat (args : list string) : Sh St unit :=
  match args with
  | [] => sh_Err (ErrorsNew "you must provide a file path")
  | _ :: _ :: _ => sh_Err (ErrorsNew "multiple inputs provided, we only expect one")
  | [path] =>
      r <- sh_call (afero_Stat path) ;;
      match r with
      | (_, Some err) => sh_Err (Errorf_v "failed to open file: " err)
      | (None, None) => sh_panic
      | (Some info, None) =>
          match MarshalIndent (info_Name info) (info_Size info) (info_Mode info)
                  (info_IsDir info) with
          | Err err => sh_Err (Errorf_v "failed to marshal file info: " err)
          | Ok jinfo => sh_Println jinfo
          end
      end
  end.

(** The [rm] command. *)
Definition cmd_rm (args : list string) : Sh St unit :=
  match args with
  | [] => sh_Err (ErrorsNew "you must provide a file path")
  | _ :: _ :: _ => sh_Err (ErrorsNew "multiple inputs provided, we only expect one")
  | [path] =>
      err <- sh_call (afero_Remove path) ;;
      match err with
      | Some err => sh_Err (Errorf "failed to remove file: " err)
      | None => sh_ret tt
      end
  end.

End Shell.

(** The two revisions of the adapter as the shell's [afero.Fs]; [fuel]
    bounds the loops of their listings. *)
Section Backends.
Context {St : Type} {client : CephClient St}.

Definition HandleFs (fuel : nat) : AferoFs St Handle.File FileInfo := {|
  afero_Create := Handle.Fs_Create;
  afero_Mkdir := Fs_Mkdir;
  afero_Open := Handle.Fs_Open;
  afero_Remove := Fs_Remove;
  afero_Stat := Fs_Stat;
  afero_Close := Handle.File_Close;
  afero_Readdirnames := Handle.File_Readdirnames fuel;
  info_Name := FileInfo_Name;
  info_Size := FileInfo_Size;
  info_Mode := FileInfo_Mode;
  info_IsDir := FileInfo_IsDir
|}.

Definition ListingFs (fuel : nat) : AferoFs St Listing.File FileInfo := {|
  afero_Create := Listing.Fs_Create;
  afero_Mkdir := Fs_Mkdir;
  afero_Open := Listing.Fs_Open;
  afero_Remove := Fs_Remove;
  afero_Stat := Fs_Stat;
  afero_Close := Listing.File_Close;
  afero_Readdirnames := Listing.File_Readdirnames fuel;
  info_Name := FileInfo_Name;
  info_Size := FileInfo_Size;
  info_Mode := FileInfo_Mode;
  info_IsDir := FileInfo_IsDir
|}.

End Backends.

(** [strconv.Atoi] on the one number the scripted runs of the shell use. *)
Definition atoi_ten (s : string) : result Z :=
  if String.eqb s "10" then Ok 10
  else Err (ErrorsNew "strconv.Atoi: invalid syntax").

(* ===================================================================== *)
(** * Strings and errors: basic facts *)
(* ===================================================================== *)

Lemma prefix_append (p t : string) : String.prefix p (p ++ t) = true.
Proof.
  induction p as [|a p IH]; simpl.
  - destruct t; reflexivity.
  - destruct (ascii_dec a a) as [_|Hne]; [exact IH | now elim Hne].
Qed.

Lemma prefix_split (p s : string) :
  String.prefix p s = true -> exists t, s = p ++ t.
Proof.
  revert s; induction p as [|a p IH]; intros s H.
  - exists s; reflexivity.
  - destruct s as [|b s]; simpl in H; [discriminate|].
    destruct (ascii_dec a b) as [->|]; [|discriminate].
    destruct (IH s H) as [t ->].
    exists t; reflexivity.
Qed.

(** [strings_Contains] decides whether [substr] occurs in [s]. *)
Lemma strings_Contains_spec (s substr : string) :
  strings_Contains s substr = true <-> exists a b, s = a ++ substr ++ b.
Proof.
  split.
  - induction s as [|c s IH]; cbn [strings_Contains]; intros H.
    + rewrite orb_false_r in H.
      destruct (prefix_split _ _ H) as [t Ht].
      exists EmptyString, t; exact Ht.
    + apply orb_true_iff in H as [H|H].
      * destruct (prefix_split _ _ H) as [t Ht].
        exists EmptyString, t; exact Ht.
      * destruct (IH H) as (a & b & ->).
        exists (String c a), b; reflexivity.
  - intros (a & b & ->).
    induction a as [|c a IH].
    + change (EmptyString ++ substr ++ b) with (substr ++ b).
      destruct (substr ++ b) eqn:E; cbn [strings_Contains];
        rewrite <- E, prefix_append; reflexivity.
    + change (String c a ++ substr ++ b) with (String c (a ++ substr ++ b)).
      cbn [strings_Contains]; rewrite IH; apply orb_true_r.
Qed.

Lemma strings_Contains_false (s substr : string) :
  strings_Contains s substr = false <-> forall a b, s <> a ++ substr ++ b.
Proof.
  split.
  - intros H a b Heq.
    assert (Ht : strings_Contains s substr = true)
      by (apply strings_Contains_spec; eauto).
    congruence.
  - intros H.
    destruct (strings_Contains s substr) eqn:E; [|reflexivity].
    apply strings_Contains_spec in E as (a & b & Heq).
    now elim (H a b).
Qed.

Lemma wraps_Errorf (prefix : string) (e c : error) :
  wraps e c -> wraps (Errorf prefix e) c.
Proof.
  intros H; eapply wraps_step; [|exact H].
  simpl; auto.
Qed.

Lemma wraps_trans (a b c : error) : wraps a b -> wraps b c -> wraps a c.
Proof.
  induction 1; intros Hc; [exact Hc|].
  eapply wraps_step; eauto.
Qed.

(** X28.  The Error Translator changes nothing when it is applied twice:
    an error that went through it once, as the errors of [Remove] and
    [Mkdir] did, comes out of it unchanged. *)
Lemma convertErr_idempotent (err : option error) :
  convertErr (convertErr err) = convertErr err.
Proof.
  destruct err as [e|]; [|reflexivity].
  unfold convertErr.
  destruct (errors_Is_ErrNotExist e) eqn:Hi; [reflexivity|].
  destruct (strings_Contains (Error e) "ret=-17") eqn:Hc; [reflexivity|].
  now rewrite Hi, Hc.
Qed.

(** A non-nil error stays non-nil through the Error Translator. *)
Lemma convertErr_Some (e : error) : exists c, convertErr (Some e) = Some c.
Proof.
  unfold convertErr.
  destruct (errors_Is_ErrNotExist e); [eauto|].
  destruct (strings_Contains (Error e) "ret=-17"); eauto.
Qed.

(* ===================================================================== *)
(** * Error Translator *)
(* ===================================================================== *)

(** C3.  [convertErr] of nil is nil.  For a non-nil error [e]: when [e]
    matches the remote client's not-found error the result is the generic
    not-found error, whatever the text of [e] is; otherwise, when the
    text of [e] contains the marker [ret=-17], the result is the generic
    already-exists error; otherwise the result is [e] itself.  The first
    rule has no condition on the text and the second one requires that
    the first did not apply: this is the order in which they are
    checked. *)
Theorem convertErr_rules :
  convertErr None = None /\
  (forall e, errors_Is_ErrNotExist e = true ->
             convertErr (Some e) = Some OsErrNotExist) /\
  (forall e, errors_Is_ErrNotExist e = false ->
             (exists a b, Error e = a ++ "ret=-17" ++ b) ->
             convertErr (Some e) = Some OsErrExist) /\
  (forall e, errors_Is_ErrNotExist e = false ->
             (forall a b, Error e <> a ++ "ret=-17" ++ b) ->
             convertErr (Some e) = Some e).
Proof.
  split; [reflexivity|].
  split; [|split]; intros e Hi.
  - unfold convertErr; now rewrite Hi.
  - intros Hc; apply strings_Contains_spec in Hc.
    unfold convertErr; now rewrite Hi, Hc.
  - intros Hc; apply strings_Contains_false in Hc.
    unfold convertErr; now rewrite Hi, Hc.
Qed.

(** The rules at work: a not-found error whose text carries the marker is
    still translated to not-found, the marker alone gives already-exists,
    and an error with neither is passed through. *)
Lemma convertErr_rules_witness :
  convertErr (Some (Wrap1 "mkdir: ret=-17" (CephErr true "cephfs: ret=-2")))
    = Some OsErrNotExist /\
  convertErr (Some (CephErr false "cephfs: ret=-17, File exists"))
    = Some OsErrExist /\
  convertErr (Some (CephErr false "cephfs: ret=-13, Permission denied"))
    = Some (CephErr false "cephfs: ret=-13, Permission denied").
Proof.
  destruct convertErr_rules as (_ & Hfound & Hexist & Hpass).
  split; [|split].
  - apply Hfound; reflexivity.
  - apply Hexist; [reflexivity|].
    exists "cephfs: ", ", File exists"; reflexivity.
  - apply Hpass; [reflexivity|].
    intros a b; apply strings_Contains_false; vm_compute; reflexivity.
Defined.

(* ===================================================================== *)
(** * Mode Translator *)
(* ===================================================================== *)

Lemma all_below_sound (n : nat) (P : Z -> bool) :
  forall b, all_below n P b = true ->
  forall m, b * 2 ^ Z.of_nat n <= m < (b + 1) * 2 ^ Z.of_nat n -> P m = true.
Proof.
  induction n as [|n IH]; intros b H m Hm.
  - simpl in *. replace m with b by lia. exact H.
  - cbn [all_below] in H. apply andb_true_iff in H as [H0 H1].
    rewrite Nat2Z.inj_succ, Z.pow_succ_r in Hm by lia.
    assert (Hp : 0 < 2 ^ Z.of_nat n) by (apply Z.pow_pos_nonneg; lia).
    destruct (Z_lt_le_dec m ((2 * b + 1) * 2 ^ Z.of_nat n)) as [Hlt|Hge].
    + apply (IH (2 * b) H0); nia.
    + apply (IH (2 * b + 1) H1); nia.
Qed.

Lemma toFileMode_ok_uint16 (mode : Z) :
  0 <= mode < 65536 -> toFileMode_ok mode = true.
Proof.
  intros H.
  apply (all_below_sound 16 toFileMode_ok 0); [vm_compute; reflexivity|].
  change (2 ^ Z.of_nat 16) with 65536; lia.
Qed.

Lemma testbit_land_shiftl_1 (a : Z) (n : Z) :
  0 <= n -> (Z.land a (Z.shiftl 1 n) <> 0 <-> Z.testbit a n = true).
Proof.
  intros Hn.
  rewrite Z.shiftl_1_l.
  split.
  - intros H. destruct (Z.testbit a n) eqn:E; [reflexivity|].
    elim H. apply Z.bits_inj'. intros k Hk.
    rewrite Z.land_spec, Z.bits_0.
    destruct (Z.eq_dec k n) as [->|Hne].
    + rewrite E; reflexivity.
    + rewrite Z.pow2_bits_false by lia. apply andb_false_r.
  - intros H Hz.
    assert (Hb : Z.testbit (Z.land a (2 ^ n)) n = false)
      by (rewrite Hz; apply Z.bits_0).
    rewrite Z.land_spec, H, Z.pow2_bits_true in Hb by lia.
    discriminate.
Qed.

(** The six flagged file types have six different, non-empty flags: a
    translated mode determines its type. *)
Lemma type_flag_injective :
  NoDup (map type_flag flagged_types) /\ ~ In 0 (map type_flag flagged_types).
Proof.
  split.
  - vm_compute. repeat constructor; simpl; intuition discriminate.
  - vm_compute. intuition discriminate.
Qed.

(** C5.  For every 16-bit raw mode: the permission bits of the translated
    mode are the low nine bits of the raw mode; its type bits are exactly
    the flag of the raw mode's type nibble (the directory, character
    device, block device, named pipe, symlink and socket flag; no type
    bit for a regular file or an unrecognized nibble); and the setuid,
    setgid and sticky flags are set if and only if the raw bits
    [S_ISUID], [S_ISGID] and [S_ISVTX] are, whatever the type nibble
    is. *)
Theorem toFileMode_spec (mode : Z) :
  0 <= mode < 65536 ->
  Z.land (toFileMode mode) ModePerm = Z.land mode 0x1ff /\
  Z.land (toFileMode mode) ModeType = type_flag (Z.land mode S_IFMT) /\
  (Z.land (toFileMode mode) ModeSetuid <> 0 <-> Z.land mode S_ISUID <> 0) /\
  (Z.land (toFileMode mode) ModeSetgid <> 0 <-> Z.land mode S_ISGID <> 0) /\
  (Z.land (toFileMode mode) ModeSticky <> 0 <-> Z.land mode S_ISVTX <> 0).
Proof.
  intros H.
  pose proof (toFileMode_ok_uint16 mode H) as Hok.
  unfold toFileMode_ok in Hok.
  repeat (apply andb_true_iff in Hok as [Hok ?]).
  apply Z.eqb_eq in Hok.
  repeat match goal with
         | E : (_ =? _) = true |- _ => apply Z.eqb_eq in E
         | E : Bool.eqb _ _ = true |- _ => apply eqb_prop in E
         end.
  split; [assumption|]. split; [assumption|].
  unfold ModeSetuid, ModeSetgid, ModeSticky.
  change S_ISUID with (Z.shiftl 1 11).
  change S_ISGID with (Z.shiftl 1 10).
  change S_ISVTX with (Z.shiftl 1 9).
  rewrite !testbit_land_shiftl_1 by lia.
  repeat split; congruence.
Qed.

(** A setuid directory with mode [rwxr-xr-x]. *)
Lemma toFileMode_spec_witness :
  0 <= 0x49ed < 65536 /\
  Z.land (toFileMode 0x49ed) ModePerm = Z.land 0x49ed 0x1ff /\
  Z.land (toFileMode 0x49ed) ModeType = type_flag (Z.land 0x49ed S_IFMT) /\
  (Z.land (toFileMode 0x49ed) ModeSetuid <> 0 <-> Z.land 0x49ed S_ISUID <> 0) /\
  (Z.land (toFileMode 0x49ed) ModeSetgid <> 0 <-> Z.land 0x49ed S_ISGID <> 0) /\
  (Z.land (toFileMode 0x49ed) ModeSticky <> 0 <-> Z.land 0x49ed S_ISVTX <> 0).
Proof.
  split; [lia|].
  apply (toFileMode_spec 0x49ed); lia.
Defined.

(* ===================================================================== *)
(** * Handle Adapter: close and the file capability *)
(* ===================================================================== *)

(** Unfold one layer of the adapter's monad and of the logged calls. *)
Ltac run :=
  unfold mount_Open, mount_MakeDir, mount_MakeDirs, mount_OpenDir, mount_Unlink,
    mount_RemoveDir, mount_Rename, mount_Statx, mount_Chmod, mount_Chown,
    file_Fstatx, file_Close, file_Read, file_ReadAt, file_Write,
    file_WriteAt, file_Seek, file_Sync, file_Truncate,
    dir_ReadDir, dir_ReadDirPlus, dir_Close in *;
  unfold bind, ret, invoke, panic, out_of_fuel in *;
  cbn [remote calls] in *.

Section HandleFacts.
Context {St : Type} {client : CephClient St}.

(** C4.  [Close] closes every populated capability, the directory also
    when closing the file failed: the log gains one close call per
    populated capability, the file first.  With no failure the result is
    nil, with one failure it is that failure, and with two it is one
    error that wraps both, in the order file, directory, and whose text
    holds both texts.  [r1] and [r2] are the results of the two closes,
    nil for a capability that is absent. *)
Theorem Close_aggregates (f : Handle.File) (w : World St)
    (r1 r2 : option error) (s1 s2 : St) :
  match Handle.f_file f with
  | Some file => c_FileClose file (remote w)
  | None => (None, remote w)
  end = (r1, s1) ->
  match Handle.f_dir f with
  | Some dir => c_DirClose dir s1
  | None => (None, s1)
  end = (r2, s2) ->
  exists r,
    Handle.File_Close f w =
      Returns r (mkWorld s2
                   (calls w ++
                    match Handle.f_file f with
                    | Some file => [CallFileClose file]
                    | None => []
                    end ++
                    match Handle.f_dir f with
                    | Some dir => [CallDirClose dir]
                    | None => []
                    end)%list) /\
    match r1, r2 with
    | None, None => r = None
    | Some e, None => r = Some e
    | None, Some e => r = Some e
    | Some e1, Some e2 =>
        exists e, r = Some e /\ Unwrap e = [e1; e2] /\
          Error e = "failed to close file for reasons; " ++ Error e1 ++ "; " ++ Error e2
    end.
Proof.
  intros H1 H2.
  unfold Handle.File_Close.
  destruct w as [s log]; cbn [remote calls] in *.
  destruct (Handle.f_file f) as [file|], (Handle.f_dir f) as [dir|]; run.
  - rewrite H1; destruct r1 as [e1|]; cbn [remote calls]; rewrite H2;
      destruct r2 as [e2|]; rewrite <- app_assoc; cbn [app];
      eexists; (split; [reflexivity|]); eauto.
  - rewrite H1; inversion H2; subst; rewrite app_nil_r.
    destruct r1 as [e1|]; eexists; (split; [reflexivity|]); reflexivity.
  - inversion H1; subst; rewrite H2; cbn [app].
    destruct r2 as [e2|]; eexists; (split; [reflexivity|]); reflexivity.
  - inversion H1; inversion H2; subst; rewrite app_nil_r.
    eexists; split; reflexivity.
Qed.

(** C6.  On a handle without file capability, [Read], [ReadAt], [Write],
    [WriteAt], [Seek], [Stat], [Sync], [Truncate] and [WriteString] fail
    with [ErrFileNil]; the world is the one they were called in: the
    remote client was not called and the caller's buffer is untouched. *)
Theorem nil_file_guard (f : Handle.File) (w : World St)
    (buf : list Byte.byte) (offset whence size : Z) (s : string) :
  Handle.f_file f = None ->
  Handle.File_Read f buf w = Returns (buf, 0, Some ErrFileNil) w /\
  Handle.File_ReadAt f buf offset w = Returns (buf, 0, Some ErrFileNil) w /\
  Handle.File_Write f buf w = Returns (0, Some ErrFileNil) w /\
  Handle.File_WriteAt f buf offset w = Returns (0, Some ErrFileNil) w /\
  Handle.File_Seek f offset whence w = Returns (0, Some ErrFileNil) w /\
  Handle.File_Stat f w = Returns (None, Some ErrFileNil) w /\
  Handle.File_Sync f w = Returns (Some ErrFileNil) w /\
  Handle.File_Truncate f size w = Returns (Some ErrFileNil) w /\
  Handle.File_WriteString f s w = Returns (0, Some ErrFileNil) w.
Proof.
  intros Hnil.
  unfold Handle.File_Read, Handle.File_ReadAt, Handle.File_Write,
    Handle.File_WriteAt, Handle.File_Seek, Handle.File_Stat,
    Handle.File_Sync, Handle.File_Truncate, Handle.File_WriteString,
    Handle.File_Write.
  rewrite Hnil.
  repeat split.
Qed.

Lemma fold_left_names (l : list FileInfo) (acc : list string) :
  fold_left (fun lst item => (lst ++ [FileInfo_Name item])%list) l acc =
  (acc ++ map FileInfo_Name l)%list.
Proof.
  revert acc; induction l as [|x l IH]; intros acc; cbn [fold_left map].
  - now rewrite app_nil_r.
  - rewrite IH, <- app_assoc; reflexivity.
Qed.

(** C10.  On the two-capability handle, [Readdirnames(n)] ends as
    [Readdir(n)] does from the same world: when [Readdir(n)] returns the
    records [l] with the error [err], [Readdirnames(n)] returns the base
    names of [l], in the order of [l], with the same [err] (nil, [io.EOF]
    or a failure) and leaves the same world. *)
Theorem Readdirnames_follows_Readdir (fuel : nat) (f : Handle.File)
    (n : Z) (w : World St) :
  Handle.File_Readdirnames fuel f n w =
  match Handle.File_Readdir fuel f n w with
  | Returns (l, err) w' =>
      Returns (map (fun item => filepath_Base (fi_path item)) l, err) w'
  | Panics => Panics
  | OutOfFuel => OutOfFuel
  end.
Proof.
  unfold Handle.File_Readdirnames, bind.
  destruct (Handle.File_Readdir fuel f n w) as [[l err] w'| |]; try reflexivity.
  unfold ret; rewrite fold_left_names; reflexivity.
Qed.

End HandleFacts.

(** Both closes fail: the result wraps both failures. *)
Lemma Close_aggregates_witness :
  let e1 := CephErr false "cephfs: ret=-5" in
  let e2 := CephErr false "cephfs: ret=-9" in
  let f := Handle.mkFile "/d" (Some 1%nat) (Some 2%nat) in
  let w := Scripted.world [Scripted.ReplyErr e1; Scripted.ReplyErr e2] in
  c_FileClose 1%nat (remote w) = (Some e1, [Scripted.ReplyErr e2]) /\
  c_DirClose 2%nat [Scripted.ReplyErr e2] = (Some e2, []) /\
  exists r,
    Handle.File_Close f w =
      Returns r (mkWorld [] [CallFileClose 1%nat; CallDirClose 2%nat]) /\
    exists e, r = Some e /\ Unwrap e = [e1; e2] /\
      Error e = "failed to close file for reasons; cephfs: ret=-5; cephfs: ret=-9".
Proof.
  intros e1 e2 f w.
  split; [reflexivity|]. split; [reflexivity|].
  exact (Close_aggregates f w (Some e1) (Some e2) [Scripted.ReplyErr e2] []
           eq_refl eq_refl).
Defined.

(** A directory-only handle. *)
Lemma nil_file_guard_witness :
  let f := Handle.mkFile "/d" None (Some 2%nat) in
  let w := Scripted.world [Scripted.ReplyNil] in
  Handle.f_file f = None /\
  Handle.File_Read f [] w = Returns ([], 0, Some ErrFileNil) w /\
  Handle.File_Sync f w = Returns (Some ErrFileNil) w.
Proof.
  intros f w.
  split; [reflexivity|].
  pose proof (nil_file_guard f w [] 0 0 0 "abc" eq_refl) as H.
  split; [apply H|apply H].
Defined.

(* ===================================================================== *)
(** * Filesystem Adapter: which errors are translated *)
(* ===================================================================== *)

Section Translation.
Context {St : Type} {client : CephClient St}.

Lemma invoke_run {A : Type} (c : Call) (op : St -> A * St) (w : World St)
    (a : A) (s' : St) :
  op (remote w) = (a, s') ->
  invoke c op w = Returns a (mkWorld s' (calls w ++ [c])%list).
Proof. intros H; unfold invoke; rewrite H; reflexivity. Qed.

Lemma invoke_at {A : Type} (c : Call) (op : St -> A * St) (s s' : St)
    (log : list Call) (a : A) :
  op s = (a, s') ->
  invoke c op (mkWorld s log) = Returns a (mkWorld s' (log ++ [c])%list).
Proof. intros H; unfold invoke; cbn [remote calls]; rewrite H; reflexivity. Qed.

(** [Fs.Stat] makes one call, [Statx]; it maps the remote not-found error
    to the generic one and returns every other error as it is. *)
Lemma Fs_Stat_run (path : string) (w : World St) :
  exists s',
    let w' := mkWorld s' (calls w ++ [CallStatx path])%list in
    match c_Statx path (remote w) with
    | (Ok stat, s) =>
        s = s' /\ Fs_Stat path w = Returns (Some (mkFileInfo stat path), None) w'
    | (Err raw, s) =>
        s = s' /\
        Fs_Stat path w =
          Returns (None, Some (if errors_Is_ErrNotExist raw
                               then OsErrNotExist else raw)) w'
    end.
Proof.
  unfold Fs_Stat; run.
  destruct (c_Statx path (remote w)) as [[stat|raw] s]; exists s;
    cbn [remote calls]; (split; [reflexivity|]); [reflexivity|].
  destruct (errors_Is_ErrNotExist raw); reflexivity.
Qed.

(** C9, as the code has it.  Of the failures of the remote client, in
    the revision with the two-capability handle:
    - translated: [Remove] returns the Error Translator's image; [Mkdir]
      returns that image wrapped as ["failed to create directory <path>: "];
      [OpenFile], and [Open] which is [OpenFile] read-only, return the
      image of a failing open and of a failing directory open;
      [RemoveAll] returns the image of the failing unlink of a target
      that is not a directory, wrapped as
      ["'RemoveAll' failed to remove file at path <path>: "];
    - [Stat] applies the not-found rule only;
    - unchanged: [Create], [MkdirAll], [Rename], [Chmod] and [Chown]
      return the remote failure as it is, and so do [OpenFile] for the
      failing stat between its two opens and [RemoveAll] for a failing
      stat that is no not-found;
    - [RemoveAll] does not translate the failures it meets on a directory
      target: the failing open comes back wrapped
      (["failed to open dir <path>: "]), a failing read wrapped
      (["failed to readdir: "]), the failing unlink of a child wrapped
      (["failed to remove file <child>: "] or
      ["failed to remove unknown entry: "], and then
      ["DirEntry callback failed: "]), the failing rmdir unchanged, and
      what the recursive call on a child directory returns as it is.
    In the revision with the single handle, [Open] returns the image of a
    failing open, [OpenFile] and [Create] return it unchanged. *)
Theorem error_translation_by_operation (w : World St) (raw : error) (s' : St) :
  (* translated *)
  ((forall path,
       c_Unlink path (remote w) = (Some raw, s') ->
       Fs_Remove path w =
         Returns (convertErr (Some raw))
                 (mkWorld s' (calls w ++ [CallUnlink path])%list)) /\
   (forall path perm,
       c_MakeDir path (uint32 (FileMode_Perm perm)) (remote w) = (Some raw, s') ->
       exists c,
         convertErr (Some raw) = Some c /\
         Fs_Mkdir path perm w =
           Returns (Some (Errorf ("failed to create directory " ++ path ++ ": ") c))
                   (mkWorld s' (calls w ++ [CallMakeDir path (uint32 (FileMode_Perm perm))])%list)) /\
   (forall path flag perm,
       c_Open path flag (uint32 (FileMode_Perm perm)) (remote w) = (Err raw, s') ->
       Handle.Fs_OpenFile path flag perm w =
         Returns (None, convertErr (Some raw))
                 (mkWorld s' (calls w ++ [CallOpen path flag (uint32 (FileMode_Perm perm))])%list)) /\
   (forall path flag perm cfile s1 info s2,
       c_Open path flag (uint32 (FileMode_Perm perm)) (remote w) = (Ok cfile, s1) ->
       c_Fstatx cfile s1 = (Ok info, s2) ->
       FileMode_IsDir (toFileMode (sx_Mode info)) = true ->
       c_OpenDir path s2 = (Err raw, s') ->
       Handle.Fs_OpenFile path flag perm w =
         Returns (None, convertErr (Some raw))
                 (mkWorld s' (calls w ++ [CallOpen path flag (uint32 (FileMode_Perm perm));
                                          CallFstatx cfile; CallOpenDir path])%list)) /\
   (forall path, Handle.Fs_Open path w = Handle.Fs_OpenFile path O_RDONLY 0 w) /\
   (forall path stat s1 fuel,
       c_Statx path (remote w) = (Ok stat, s1) ->
       FileInfo_IsDir (mkFileInfo stat path) = false ->
       c_Unlink path s1 = (Some raw, s') ->
       exists c,
         convertErr (Some raw) = Some c /\
         Fs_RemoveAll (S fuel) path w =
           Returns (Some (Errorf ("'RemoveAll' failed to remove file at path "
                                  ++ path ++ ": ") c))
                   (mkWorld s' (calls w ++ [CallStatx path; CallUnlink path])%list))) /\
  (* the not-found rule only *)
  (forall path,
      c_Statx path (remote w) = (Err raw, s') ->
      Fs_Stat path w =
        Returns (None, Some (if errors_Is_ErrNotExist raw then OsErrNotExist else raw))
                (mkWorld s' (calls w ++ [CallStatx path])%list)) /\
  (* unchanged *)
  ((forall path,
       c_Open path (Z.lor O_RDWR (Z.lor O_CREATE O_TRUNC)) 0x1b6 (remote w) = (Err raw, s') ->
       Handle.Fs_Create path w =
         Returns (None, Some raw)
                 (mkWorld s' (calls w ++ [CallOpen path (Z.lor O_RDWR (Z.lor O_CREATE O_TRUNC)) 0x1b6])%list)) /\
   (forall path perm,
       c_MakeDirs path (uint32 (FileMode_Perm perm)) (remote w) = (Some raw, s') ->
       Fs_MkdirAll path perm w =
         Returns (Some raw)
                 (mkWorld s' (calls w ++ [CallMakeDirs path (uint32 (FileMode_Perm perm))])%list)) /\
   (forall oldPath newPath,
       c_Rename oldPath newPath (remote w) = (Some raw, s') ->
       Fs_Rename oldPath newPath w =
         Returns (Some raw)
                 (mkWorld s' (calls w ++ [CallRename oldPath newPath])%list)) /\
   (forall path mode,
       c_Chmod path (uint32 (FileMode_Perm mode)) (remote w) = (Some raw, s') ->
       Fs_Chmod path mode w =
         Returns (Some raw)
                 (mkWorld s' (calls w ++ [CallChmod path (uint32 (FileMode_Perm mode))])%list)) /\
   (forall path uid gid,
       c_Chown path (uint32 uid) (uint32 gid) (remote w) = (Some raw, s') ->
       Fs_Chown path uid gid w =
         Returns (Some raw)
                 (mkWorld s' (calls w ++ [CallChown path (uint32 uid) (uint32 gid)])%list)) /\
   (forall path flag perm cfile s1,
       c_Open path flag (uint32 (FileMode_Perm perm)) (remote w) = (Ok cfile, s1) ->
       c_Fstatx cfile s1 = (Err raw, s') ->
       Handle.Fs_OpenFile path flag perm w =
         Returns (None, Some raw)
                 (mkWorld s' (calls w ++ [CallOpen path flag (uint32 (FileMode_Perm perm));
                                          CallFstatx cfile])%list)) /\
   (forall path fuel,
       c_Statx path (remote w) = (Err raw, s') ->
       stat_not_found raw = false ->
       Fs_RemoveAll (S fuel) path w =
         Returns (Some raw) (mkWorld s' (calls w ++ [CallStatx path])%list))) /\
  (* [RemoveAll] on a directory target *)
  ((forall path stat s1 fuel,
       c_Statx path (remote w) = (Ok stat, s1) ->
       FileInfo_IsDir (mkFileInfo stat path) = true ->
       c_OpenDir path s1 = (Err raw, s') ->
       Fs_RemoveAll (S fuel) path w =
         Returns (Some (Errorf ("failed to open dir " ++ path ++ ": ") raw))
                 (mkWorld s' (calls w ++ [CallStatx path; CallOpenDir path])%list)) /\
   (forall dir callback fuel,
       c_ReadDir dir (remote w) = (Err raw, s') ->
       forDirItem (S fuel) dir callback w =
         Returns (Some (Errorf "failed to readdir: " raw))
                 (mkWorld s' (calls w ++ [CallReadDir dir])%list)) /\
   (forall recurse path de,
       is_dot (de_Name de) = false ->
       de_DType de <> DTypeDir ->
       c_Unlink (path ++ "/" ++ de_Name de) (remote w) = (Some raw, s') ->
       RemoveAll_callback recurse path de w =
         Returns (Some (Errorf
                          match de_DType de with
                          | DTypeLnk | DTypeReg =>
                              "failed to remove file " ++ (path ++ "/" ++ de_Name de) ++ ": "
                          | _ => "failed to remove unknown entry: "
                          end raw))
                 (mkWorld s' (calls w ++ [CallUnlink (path ++ "/" ++ de_Name de)])%list)) /\
   (forall dir callback fuel de s1 e w2,
       c_ReadDir dir (remote w) = (Ok (Some de), s1) ->
       callback de (mkWorld s1 (calls w ++ [CallReadDir dir])%list) = Returns (Some e) w2 ->
       forDirItem (S fuel) dir callback w =
         Returns (Some (Errorf "DirEntry callback failed: " e)) w2) /\
   (forall path stat s1 dir s2 fuel res w3,
       c_Statx path (remote w) = (Ok stat, s1) ->
       FileInfo_IsDir (mkFileInfo stat path) = true ->
       c_OpenDir path s1 = (Ok dir, s2) ->
       forDirItem fuel dir (RemoveAll_callback (Fs_RemoveAll fuel) path)
         (mkWorld s2 (calls w ++ [CallStatx path; CallOpenDir path])%list) =
         Returns res w3 ->
       match res with
       | Some e =>
           Fs_RemoveAll (S fuel) path w =
             Returns (Some e)
                     (mkWorld (snd (c_DirClose dir (remote w3)))
                              (calls w3 ++ [CallDirClose dir])%list)
       | None =>
           c_RemoveDir path (remote w3) = (Some raw, s') ->
           Fs_RemoveAll (S fuel) path w =
             Returns (Some raw)
                     (mkWorld (snd (c_DirClose dir s'))
                              (calls w3 ++ [CallRemoveDir path; CallDirClose dir])%list)
       end) /\
   (forall recurse path de r w',
       is_dot (de_Name de) = false ->
       de_DType de = DTypeDir ->
       recurse (path ++ "/" ++ de_Name de) w = Returns r w' ->
       RemoveAll_callback recurse path de w = Returns r w')) /\
  (* the revision with the single handle *)
  ((forall path,
       c_Open path O_RDONLY 0 (remote w) = (Err raw, s') ->
       Listing.Fs_Open path w =
         Returns (None, convertErr (Some raw))
                 (mkWorld s' (calls w ++ [CallOpen path O_RDONLY 0])%list)) /\
   (forall path flag perm,
       c_Open path flag (uint32 (FileMode_Perm perm)) (remote w) = (Err raw, s') ->
       Listing.Fs_OpenFile path flag perm w =
         Returns (None, Some raw)
                 (mkWorld s' (calls w ++ [CallOpen path flag (uint32 (FileMode_Perm perm))])%list)) /\
   (forall path,
       c_Open path (Z.lor O_RDWR (Z.lor O_CREATE O_TRUNC)) 0x1b6 (remote w) = (Err raw, s') ->
       Listing.Fs_Create path w =
         Returns (None, Some raw)
                 (mkWorld s' (calls w ++ [CallOpen path (Z.lor O_RDWR (Z.lor O_CREATE O_TRUNC)) 0x1b6])%list))).
Proof.
  assert (Hstat : forall path stat s1,
             c_Statx path (remote w) = (Ok stat, s1) ->
             Fs_Stat path w =
               Returns (Some (mkFileInfo stat path), None)
                       (mkWorld s1 (calls w ++ [CallStatx path])%list)).
  { intros path stat s1 H. unfold Fs_Stat, bind, mount_Statx.
    rewrite (invoke_run _ _ _ _ _ H); reflexivity. }
  repeat match goal with |- _ /\ _ => split end.
  - (* Remove *)
    intros path H. unfold Fs_Remove, bind, mount_Unlink.
    rewrite (invoke_run _ _ _ _ _ H); reflexivity.
  - (* Mkdir *)
    intros path perm H. unfold Fs_Mkdir, bind, mount_MakeDir.
    rewrite (invoke_run _ _ _ _ _ H).
    destruct (convertErr_Some raw) as [c Hc].
    exists c; split; [exact Hc|]. rewrite Hc; reflexivity.
  - (* OpenFile, the open *)
    intros path flag perm H. unfold Handle.Fs_OpenFile, bind, mount_Open.
    rewrite (invoke_run _ _ _ _ _ H); reflexivity.
  - (* OpenFile, the directory open *)
    intros path flag perm cfile s1 info s2 Hopen Hfstat Hisdir Hopendir.
    unfold Handle.Fs_OpenFile, bind, mount_Open, file_Fstatx, mount_OpenDir.
    rewrite (invoke_run _ _ _ _ _ Hopen), (invoke_at _ _ _ _ _ _ Hfstat), Hisdir,
            (invoke_at _ _ _ _ _ _ Hopendir).
    rewrite <- !app_assoc; reflexivity.
  - (* Open *)
    reflexivity.
  - (* RemoveAll, a target that is no directory *)
    intros path stat s1 fuel Hs Hisdir Hunlink.
    cbn [Fs_RemoveAll]. unfold bind at 1. rewrite (Hstat _ _ _ Hs), Hisdir.
    cbn [negb]. unfold Fs_Remove, bind, mount_Unlink.
    rewrite (invoke_at _ _ _ _ _ _ Hunlink).
    rewrite <- app_assoc. cbn [app].
    destruct (convertErr_Some raw) as [c Hc]. rewrite Hc.
    exists c; split; reflexivity.
  - (* Stat *)
    intros path H. unfold Fs_Stat, bind, mount_Statx.
    rewrite (invoke_run _ _ _ _ _ H).
    destruct (errors_Is_ErrNotExist raw); reflexivity.
  - (* Create *)
    intros path H. unfold Handle.Fs_Create, bind, mount_Open.
    rewrite (invoke_run _ _ _ _ _ H); reflexivity.
  - (* MkdirAll *)
    intros path perm H. unfold Fs_MkdirAll, mount_MakeDirs.
    apply invoke_run, H.
  - (* Rename *)
    intros oldPath newPath H. unfold Fs_Rename, mount_Rename.
    apply invoke_run, H.
  - (* Chmod *)
    intros path mode H. unfold Fs_Chmod, mount_Chmod.
    apply invoke_run, H.
  - (* Chown *)
    intros path uid gid H. unfold Fs_Chown, mount_Chown.
    apply invoke_run, H.
  - (* OpenFile, the stat *)
    intros path flag perm cfile s1 Hopen Hfstat.
    unfold Handle.Fs_OpenFile, bind, mount_Open, file_Fstatx.
    rewrite (invoke_run _ _ _ _ _ Hopen), (invoke_at _ _ _ _ _ _ Hfstat).
    rewrite <- !app_assoc; reflexivity.
  - (* RemoveAll, the stat *)
    intros path fuel H Hnf.
    apply orb_false_iff in Hnf as [Hi Hne].
    cbn [Fs_RemoveAll]. unfold bind at 1. unfold Fs_Stat, bind, mount_Statx.
    rewrite (invoke_run _ _ _ _ _ H), Hi. unfold ret. rewrite Hne. reflexivity.
  - (* RemoveAll, the directory open *)
    intros path stat s1 fuel Hs Hisdir Hopen.
    cbn [Fs_RemoveAll]. unfold bind at 1. rewrite (Hstat _ _ _ Hs), Hisdir.
    cbn [negb]. unfold bind, mount_OpenDir.
    rewrite (invoke_at _ _ _ _ _ _ Hopen).
    rewrite <- app_assoc. reflexivity.
  - (* the loop, a read *)
    intros dir callback fuel H.
    cbn [forDirItem]. unfold bind, dir_ReadDir.
    rewrite (invoke_run _ _ _ _ _ H); reflexivity.
  - (* the function literal, an unlink *)
    intros recurse path de Hdot Hdir H.
    unfold RemoveAll_callback. fold (is_dot (de_Name de)). rewrite Hdot.
    destruct (de_DType de); try (now elim Hdir);
      unfold bind, mount_Unlink; rewrite (invoke_run _ _ _ _ _ H); reflexivity.
  - (* the loop, a failing child *)
    intros dir callback fuel de s1 e w2 Hread Hcall.
    cbn [forDirItem]. unfold bind, dir_ReadDir.
    rewrite (invoke_run _ _ _ _ _ Hread), Hcall; reflexivity.
  - (* RemoveAll, after the loop *)
    intros path stat s1 dir s2 fuel res w3 Hs Hisdir Hopen Hloop.
    unfold RemoveAll_callback in Hloop.
    destruct res as [e|]; [|intros Hrmdir];
      cbn [Fs_RemoveAll]; unfold bind at 1; rewrite (Hstat _ _ _ Hs), Hisdir;
      cbn [negb]; unfold bind at 1, mount_OpenDir at 1;
      rewrite (invoke_at _ _ _ _ _ _ Hopen), <- app_assoc; cbn [app];
      unfold bind at 1; rewrite Hloop.
    + unfold bind, dir_Close, invoke.
      destruct (c_DirClose dir (remote w3)); reflexivity.
    + unfold bind, mount_RemoveDir, dir_Close.
      rewrite (invoke_run _ _ _ _ _ Hrmdir). unfold invoke. cbn [remote calls].
      destruct (c_DirClose dir s'). rewrite <- app_assoc. reflexivity.
  - (* the function literal, a child directory *)
    intros recurse path de r w' Hdot Htype Hrec.
    unfold RemoveAll_callback. fold (is_dot (de_Name de)).
    rewrite Hdot, Htype. unfold bind. rewrite Hrec.
    destruct r; reflexivity.
  - (* the single-handle revision: Open *)
    intros path H. unfold Listing.Fs_Open, bind, mount_Open.
    rewrite (invoke_run _ _ _ _ _ H); reflexivity.
  - (* OpenFile *)
    intros path flag perm H. unfold Listing.Fs_OpenFile, bind, mount_Open.
    rewrite (invoke_run _ _ _ _ _ H); reflexivity.
  - (* Create *)
    intros path H. unfold Listing.Fs_Create, bind, mount_Open.
    rewrite (invoke_run _ _ _ _ _ H); reflexivity.
Qed.

End Translation.

Lemma CephErr_wraps_only_itself (notExist : bool) (text : string) (c : error) :
  wraps (CephErr notExist text) c -> c = CephErr notExist text.
Proof.
  inversion 1; subst; [reflexivity|].
  match goal with H : In _ (Unwrap _) |- _ => destruct H end.
Qed.

(** C9 does not hold of [Rename]: the remote not-found error comes back as
    it is, while its translation is the generic not-found error. *)
Lemma Rename_error_not_translated :
  let raw := CephErr true "cephfs: ret=-2, No such file or directory" in
  let w := Scripted.world [Scripted.ReplyErr raw] in
  c_Rename "/a" "/b" (remote w) = (Some raw, []) /\
  Fs_Rename "/a" "/b" w = Returns (Some raw) (mkWorld [] [CallRename "/a" "/b"]) /\
  convertErr (Some raw) = Some OsErrNotExist /\
  ~ translated raw raw.
Proof.
  intros raw w.
  repeat split.
  intros (c & Hc & Hw).
  apply CephErr_wraps_only_itself in Hw.
  subst c; discriminate Hc.
Qed.

(** The remote client fails with the already-exists marker, at each of
    the calls the operations make. *)
Lemma error_translation_by_operation_witness :
  let raw := CephErr false "cephfs: ret=-17, File exists" in
  let x := mkDirEntry "x" DTypeReg in
  let w := Scripted.world [Scripted.ReplyErr raw] in
  let file := Scripted.world [Scripted.ReplyStatx Scripted.reg_statx;
                              Scripted.ReplyErr raw] in
  let dir := Scripted.world [Scripted.ReplyStatx Scripted.dir_statx;
                             Scripted.ReplyErr raw] in
  let opened := Scripted.world [Scripted.ReplyFile 3%nat; Scripted.ReplyErr raw] in
  let listing := Scripted.world [Scripted.ReplyFile 3%nat;
                                 Scripted.ReplyStatx Scripted.dir_statx;
                                 Scripted.ReplyErr raw] in
  let entry := Scripted.world [Scripted.ReplyEntry x; Scripted.ReplyErr raw] in
  let child := Scripted.world [Scripted.ReplyStatx Scripted.dir_statx;
                               Scripted.ReplyDir 1%nat;
                               Scripted.ReplyEntry x;
                               Scripted.ReplyErr raw;
                               Scripted.ReplyNil] in
  let empty := Scripted.world [Scripted.ReplyStatx Scripted.dir_statx;
                               Scripted.ReplyDir 1%nat;
                               Scripted.ReplyNil;
                               Scripted.ReplyErr raw;
                               Scripted.ReplyNil] in
  (* translated *)
  (Fs_Remove "/a" w = Returns (Some OsErrExist) (mkWorld [] [CallUnlink "/a"]) /\
   Fs_Mkdir "/a" 0x1ed w =
     Returns (Some (Errorf "failed to create directory /a: " OsErrExist))
             (mkWorld [] [CallMakeDir "/a" 0x1ed]) /\
   Handle.Fs_OpenFile "/a" O_RDWR 0x1a4 w =
     Returns (None, Some OsErrExist) (mkWorld [] [CallOpen "/a" O_RDWR 0x1a4]) /\
   Handle.Fs_OpenFile "/a" O_RDONLY 0 listing =
     Returns (None, Some OsErrExist)
             (mkWorld [] [CallOpen "/a" O_RDONLY 0; CallFstatx 3%nat; CallOpenDir "/a"]) /\
   Fs_RemoveAll 1 "/a" file =
     Returns (Some (Errorf "'RemoveAll' failed to remove file at path /a: " OsErrExist))
             (mkWorld [] [CallStatx "/a"; CallUnlink "/a"])) /\
  (* the not-found rule only *)
  Fs_Stat "/a" w = Returns (None, Some raw) (mkWorld [] [CallStatx "/a"]) /\
  (* unchanged *)
  (Handle.Fs_Create "/a" w =
     Returns (None, Some raw) (mkWorld [] [CallOpen "/a" 0x242 0x1b6]) /\
   Fs_MkdirAll "/a" 0x1ed w = Returns (Some raw) (mkWorld [] [CallMakeDirs "/a" 0x1ed]) /\
   Fs_Rename "/a" "/b" w = Returns (Some raw) (mkWorld [] [CallRename "/a" "/b"]) /\
   Fs_Chmod "/a" 0x1a4 w = Returns (Some raw) (mkWorld [] [CallChmod "/a" 0x1a4]) /\
   Fs_Chown "/a" 1000 1000 w = Returns (Some raw) (mkWorld [] [CallChown "/a" 1000 1000]) /\
   Handle.Fs_OpenFile "/a" O_RDONLY 0 opened =
     Returns (None, Some raw) (mkWorld [] [CallOpen "/a" O_RDONLY 0; CallFstatx 3%nat]) /\
   Fs_RemoveAll 1 "/a" w = Returns (Some raw) (mkWorld [] [CallStatx "/a"])) /\
  (* [RemoveAll] on a directory target *)
  (Fs_RemoveAll 1 "/a" dir =
     Returns (Some (Errorf "failed to open dir /a: " raw))
             (mkWorld [] [CallStatx "/a"; CallOpenDir "/a"]) /\
   forDirItem 1 1%nat (RemoveAll_callback (Fs_RemoveAll 0) "/a") w =
     Returns (Some (Errorf "failed to readdir: " raw)) (mkWorld [] [CallReadDir 1%nat]) /\
   RemoveAll_callback (Fs_RemoveAll 0) "/a" x w =
     Returns (Some (Errorf "failed to remove file /a/x: " raw))
             (mkWorld [] [CallUnlink "/a/x"]) /\
   forDirItem 1 1%nat (RemoveAll_callback (Fs_RemoveAll 0) "/a") entry =
     Returns (Some (Errorf "DirEntry callback failed: "
                      (Errorf "failed to remove file /a/x: " raw)))
             (mkWorld [] [CallReadDir 1%nat; CallUnlink "/a/x"]) /\
   Fs_RemoveAll 2 "/a" child =
     Returns (Some (Errorf "DirEntry callback failed: "
                      (Errorf "failed to remove file /a/x: " raw)))
             (mkWorld [] [CallStatx "/a"; CallOpenDir "/a"; CallReadDir 1%nat;
                          CallUnlink "/a/x"; CallDirClose 1%nat]) /\
   Fs_RemoveAll 2 "/a" empty =
     Returns (Some raw)
             (mkWorld [] [CallStatx "/a"; CallOpenDir "/a"; CallReadDir 1%nat;
                          CallRemoveDir "/a"; CallDirClose 1%nat]) /\
   RemoveAll_callback (Fs_RemoveAll 1) "/a" (mkDirEntry "sub" DTypeDir) w =
     Returns (Some raw) (mkWorld [] [CallStatx "/a/sub"])) /\
  (* the revision with the single handle *)
  (Listing.Fs_Open "/a" w =
     Returns (None, Some OsErrExist) (mkWorld [] [CallOpen "/a" O_RDONLY 0]) /\
   Listing.Fs_OpenFile "/a" O_RDWR 0x1a4 w =
     Returns (None, Some raw) (mkWorld [] [CallOpen "/a" O_RDWR 0x1a4]) /\
   Listing.Fs_Create "/a" w =
     Returns (None, Some raw) (mkWorld [] [CallOpen "/a" 0x242 0x1b6])).
Proof.
  intros raw x w file dir opened listing entry child empty.
  pose proof (error_translation_by_operation w raw []) as [Ht [Hstat [Hu [Hd Hl]]]].
  destruct Ht as [Hremove [Hmkdir [Hopenfile _]]].
  destruct Hu as [Hcreate [Hmkdirall [Hrename [Hchmod [Hchown [_ Hstatfails]]]]]].
  destruct Hd as [_ [Hread [Hunlink _]]].
  destruct Hl as [Hopen' [Hopenfile' Hcreate']].
  split; [|split; [|split; [|split]]].
  - split; [exact (Hremove "/a" eq_refl)|].
    split.
    { destruct (Hmkdir "/a" 0x1ed eq_refl) as (c & Hc & Hrun).
      vm_compute in Hc. inversion Hc; subst c. exact Hrun. }
    split; [exact (Hopenfile "/a" O_RDWR 0x1a4 eq_refl)|].
    split.
    { refine (proj1 (proj2 (proj2 (proj2 (proj1
                (error_translation_by_operation listing raw [])))))
                "/a" O_RDONLY 0 3%nat
                [Scripted.ReplyStatx Scripted.dir_statx; Scripted.ReplyErr raw]
                Scripted.dir_statx [Scripted.ReplyErr raw] _ _ _ _);
        reflexivity. }
    edestruct (proj2 (proj2 (proj2 (proj2 (proj2 (proj1
                 (error_translation_by_operation file raw []))))))
                 "/a" Scripted.reg_statx [Scripted.ReplyErr raw] 0%nat)
      as (c & Hc & Hrun); [reflexivity | reflexivity | reflexivity |].
    vm_compute in Hc. inversion Hc; subst c. exact Hrun.
  - exact (Hstat "/a" eq_refl).
  - split; [exact (Hcreate "/a" eq_refl)|].
    split; [exact (Hmkdirall "/a" 0x1ed eq_refl)|].
    split; [exact (Hrename "/a" "/b" eq_refl)|].
    split; [exact (Hchmod "/a" 0x1a4 eq_refl)|].
    split; [exact (Hchown "/a" 1000 1000 eq_refl)|].
    pose proof (proj1 (proj2 (proj2 (error_translation_by_operation opened raw []))))
      as Hunchanged.
    do 5 apply proj2 in Hunchanged.
    split; [|exact (Hstatfails "/a" 0%nat eq_refl eq_refl)].
    refine (proj1 Hunchanged "/a" O_RDONLY 0 3%nat [Scripted.ReplyErr raw] _ _);
      reflexivity.
  - pose proof (fun v t => proj1 (proj2 (proj2 (proj2
                  (error_translation_by_operation v raw t))))) as Hdir.
    split.
    { refine (proj1 (Hdir dir []) "/a" Scripted.dir_statx [Scripted.ReplyErr raw] 0%nat
                _ _ _); reflexivity. }
    split; [exact (Hread 1%nat _ 0%nat eq_refl)|].
    split; [exact (Hunlink (Fs_RemoveAll 0) "/a" x eq_refl ltac:(discriminate) eq_refl)|].
    split.
    { refine (proj1 (proj2 (proj2 (proj2 (Hdir entry []))))
                1%nat _ 0%nat x [Scripted.ReplyErr raw] _ _ _ _);
        [reflexivity | vm_compute; reflexivity]. }
    split.
    { refine (proj1 (proj2 (proj2 (proj2 (proj2 (Hdir child [])))))
                "/a" Scripted.dir_statx _ 1%nat _ 1%nat
                (Some (Errorf "DirEntry callback failed: "
                         (Errorf "failed to remove file /a/x: " raw)))
                (mkWorld [Scripted.ReplyNil]
                   [CallStatx "/a"; CallOpenDir "/a"; CallReadDir 1%nat;
                    CallUnlink "/a/x"])
                _ _ _ _);
        [reflexivity | reflexivity | reflexivity | vm_compute; reflexivity]. }
    split.
    { refine (proj1 (proj2 (proj2 (proj2 (proj2 (Hdir empty [Scripted.ReplyNil])))))
                "/a" Scripted.dir_statx _ 1%nat _ 1%nat None
                (mkWorld [Scripted.ReplyErr raw; Scripted.ReplyNil]
                   [CallStatx "/a"; CallOpenDir "/a"; CallReadDir 1%nat])
                _ _ _ _ _);
        [reflexivity | reflexivity | reflexivity | vm_compute; reflexivity
        | reflexivity]. }
    refine (proj2 (proj2 (proj2 (proj2 (proj2 (Hdir w [])))))
              (Fs_RemoveAll 1) "/a" (mkDirEntry "sub" DTypeDir) _ _ _ _ _);
      [reflexivity | reflexivity | vm_compute; reflexivity].
  - split; [exact (Hopen' "/a" eq_refl)|].
    split; [exact (Hopenfile' "/a" O_RDWR 0x1a4 eq_refl) | exact (Hcreate' "/a" eq_refl)].
Defined.

(* ===================================================================== *)
(** * Recursive delete of an absent path *)
(* ===================================================================== *)

Section Runs.
Context {St : Type} {client : CephClient St}.

Lemma bind_run {A B : Type} (m : M St A) (k : A -> M St B)
    (w w1 : World St) (a : A) :
  m w = Returns a w1 -> bind m k w = k a w1.
Proof. intros H; unfold bind; rewrite H; reflexivity. Qed.

Lemma bind_Returns {A B : Type} (m : M St A) (k : A -> M St B)
    (w w' : World St) (b : B) :
  bind m k w = Returns b w' ->
  exists a w1, m w = Returns a w1 /\ k a w1 = Returns b w'.
Proof.
  unfold bind; destruct (m w) as [a w1| |]; intros H; try discriminate.
  eauto.
Qed.

Lemma invoke_Returns {A : Type} (c : Call) (op : St -> A * St) (w : World St) :
  invoke c op w =
  Returns (fst (op (remote w))) (mkWorld (snd (op (remote w))) (calls w ++ [c])%list).
Proof. unfold invoke; destruct (op (remote w)); reflexivity. Qed.

(** [Fs.Stat] calls the remote client once, with [Statx]. *)
Lemma Fs_Stat_calls (path : string) (w w' : World St)
    (r : option FileInfo * option error) :
  Fs_Stat path w = Returns r w' -> calls w' = (calls w ++ [CallStatx path])%list.
Proof.
  destruct (Fs_Stat_run path w) as [s' H].
  destruct (c_Statx path (remote w)) as [[stat|raw] s];
    destruct H as [_ H]; rewrite H; intros E; inversion E; reflexivity.
Qed.

(** C7.  When the stat of [path] reports not-found, [RemoveAll] returns
    nil in the world the stat left: the only call made is that [Statx],
    no unlink and no rmdir.  When the stat reports not-found again in
    that world, a second [RemoveAll] likewise returns nil after one more
    [Statx] and nothing else. *)
Theorem RemoveAll_absent_twice (path : string) (w w1 w2 : World St)
    (info1 info2 : option FileInfo) (err1 err2 : error) (fuel1 fuel2 : nat) :
  Fs_Stat path w = Returns (info1, Some err1) w1 ->
  os_IsNotExist err1 = true ->
  Fs_Stat path w1 = Returns (info2, Some err2) w2 ->
  os_IsNotExist err2 = true ->
  Fs_RemoveAll (S fuel1) path w = Returns None w1 /\
  calls w1 = (calls w ++ [CallStatx path])%list /\
  Fs_RemoveAll (S fuel2) path w1 = Returns None w2 /\
  calls w2 = (calls w ++ [CallStatx path; CallStatx path])%list.
Proof.
  intros H1 E1 H2 E2.
  pose proof (Fs_Stat_calls _ _ _ _ H1) as C1.
  pose proof (Fs_Stat_calls _ _ _ _ H2) as C2.
  repeat split.
  - cbn [Fs_RemoveAll]. rewrite (bind_run _ _ _ _ _ H1).
    destruct info1; rewrite E1; reflexivity.
  - exact C1.
  - cbn [Fs_RemoveAll]. rewrite (bind_run _ _ _ _ _ H2).
    destruct info2; rewrite E2; reflexivity.
  - rewrite C2, C1, <- app_assoc; reflexivity.
Qed.

End Runs.

(** The remote client reports not-found for ["/gone"], twice. *)
Lemma RemoveAll_absent_twice_witness :
  let gone := CephErr true "cephfs: ret=-2, No such file or directory" in
  let w := Scripted.world [Scripted.ReplyErr gone; Scripted.ReplyErr gone] in
  let w1 := mkWorld [Scripted.ReplyErr gone] [CallStatx "/gone"] in
  let w2 := mkWorld [] [CallStatx "/gone"; CallStatx "/gone"] in
  Fs_Stat "/gone" w = Returns (None, Some OsErrNotExist) w1 /\
  Fs_Stat "/gone" w1 = Returns (None, Some OsErrNotExist) w2 /\
  Fs_RemoveAll 1 "/gone" w = Returns None w1 /\
  Fs_RemoveAll 1 "/gone" w1 = Returns None w2.
Proof.
  intros gone w w1 w2.
  split; [reflexivity|]. split; [reflexivity|].
  assert (R : Fs_RemoveAll 1 "/gone" w = Returns None w1 /\
              calls w1 = (calls w ++ [CallStatx "/gone"])%list /\
              Fs_RemoveAll 1 "/gone" w1 = Returns None w2 /\
              calls w2 = (calls w ++ [CallStatx "/gone"; CallStatx "/gone"])%list).
  { apply (RemoveAll_absent_twice "/gone" w w1 w2 None None
             OsErrNotExist OsErrNotExist 0 0); reflexivity. }
  destruct R as (R1 & _ & R2 & _).
  split; [exact R1 | exact R2].
Defined.

(* ===================================================================== *)
(** * Directory enumeration *)
(* ===================================================================== *)

Section Enumeration.
Context {St : Type} {client : CephClient St}.

Lemma not_dot_test (name : string) :
  negb (String.eqb name ".") && negb (String.eqb name "..") = negb (is_dot name).
Proof. unfold is_dot; now rewrite negb_orb. Qed.

Lemma listed_dot (f : Handle.File) (de : DirEntry) (sx : CephStatx)
    (l : list (DirEntry * CephStatx)) :
  is_dot (de_Name de) = true -> listed f ((de, sx) :: l) = listed f l.
Proof. intros H; unfold listed; cbn [filter fst]; rewrite H; reflexivity. Qed.

Lemma listed_entry (f : Handle.File) (de : DirEntry) (sx : CephStatx)
    (l : list (DirEntry * CephStatx)) :
  is_dot (de_Name de) = false ->
  listed f ((de, sx) :: l) =
  mkFileInfo sx (Handle.f_path f ++ "/" ++ de_Name de) :: listed f l.
Proof. intros H; unfold listed; cbn [filter fst]; rewrite H; reflexivity. Qed.

(** The loop of [File.Readdir] when the bound is not reached: it is
    negative, or larger than the number of entries the directory still
    has.  The loop collects every entry that is not a pseudo-entry and
    stops with the enumeration. *)
Lemma Readdir_loop_exhausts (f : Handle.File) (d : CDir) :
  forall w l e w',
    reads_plus d w l e w' ->
    forall count acc fuel,
      (List.length l < fuel)%nat ->
      count < 0 \/ Z.of_nat (List.length (listed f l)) < count ->
      Handle.Readdir_loop fuel f d count acc w =
      Returns ((acc ++ listed f l)%list,
               match e with
               | AtEnd => if 0 <? count then Some IoEOF else None
               | ReadFails err => Some (Errorf "cephfs: failed to list file: " err)
               | TransformFails err => Some err
               end) w'.
Proof.
  induction 1 as [w w' Hread | w w' err Hread | w w1 w' [de sx] l e Hread Hrest IH];
    intros count acc fuel Hfuel Hcount;
    (destruct fuel as [|fuel]; [inversion Hfuel|]);
    cbn [Handle.Readdir_loop];
    (replace (count =? 0) with false by (symmetry; apply Z.eqb_neq; lia));
    rewrite (bind_run _ _ _ _ _ Hread).
  - cbn [listed filter map]. rewrite app_nil_r.
    destruct (0 <? count); reflexivity.
  - cbn [listed filter map]. rewrite app_nil_r. reflexivity.
  - cbn [List.length] in Hfuel.
    rewrite not_dot_test.
    destruct (is_dot (de_Name de)) eqn:Hdot; cbn [negb].
    + rewrite (listed_dot f de sx l Hdot) in *.
      apply IH; [lia | exact Hcount].
    + rewrite (listed_entry f de sx l Hdot) in *.
      cbn [List.length] in Hcount.
      rewrite IH; [| lia | destruct (0 <? count) eqn:Hpos; [apply Z.ltb_lt in Hpos | apply Z.ltb_ge in Hpos]; lia].
      rewrite <- app_assoc. cbn [app].
      replace (0 <? (if 0 <? count then count - 1 else count)) with (0 <? count);
        [reflexivity|].
      destruct (0 <? count) eqn:Hpos; [|now rewrite Hpos].
      apply Z.ltb_lt in Hpos. symmetry; apply Z.ltb_lt; lia.
Qed.

(** The loop of [File.Readdir] when the directory still has at least
    [count] entries that are no pseudo-entries: it returns the first
    [count] of them and no error. *)
Lemma Readdir_loop_bounded (f : Handle.File) (d : CDir) :
  forall w l e w',
    reads_plus d w l e w' ->
    forall count acc fuel,
      (List.length l < fuel)%nat ->
      0 < count <= Z.of_nat (List.length (listed f l)) ->
      exists w'',
        Handle.Readdir_loop fuel f d count acc w =
        Returns ((acc ++ firstn (Z.to_nat count) (listed f l))%list, None) w''.
Proof.
  induction 1 as [w w' Hread | w w' err Hread | w w1 w' [de sx] l e Hread Hrest IH];
    intros count acc fuel Hfuel Hcount;
    try (cbn in Hcount; lia).
  destruct fuel as [|fuel]; [inversion Hfuel|].
  cbn [List.length] in Hfuel.
  cbn [Handle.Readdir_loop].
  replace (count =? 0) with false by (symmetry; apply Z.eqb_neq; lia).
  rewrite (bind_run _ _ _ _ _ Hread).
  rewrite not_dot_test.
  destruct (is_dot (de_Name de)) eqn:Hdot; cbn [negb].
  - rewrite (listed_dot f de sx l Hdot) in *.
    apply IH; [lia | exact Hcount].
  - rewrite (listed_entry f de sx l Hdot) in *.
    cbn [List.length] in Hcount.
    replace (0 <? count) with true by (symmetry; apply Z.ltb_lt; lia).
    replace (Z.to_nat count) with (S (Z.to_nat (count - 1))) by lia.
    cbn [firstn].
    destruct (Z.eq_dec (count - 1) 0) as [Hz|Hnz].
    + rewrite Hz. destruct fuel as [|fuel]; [lia|].
      cbn [Handle.Readdir_loop Z.eqb Z.to_nat firstn].
      exists w1; reflexivity.
    + destruct (IH (count - 1) (acc ++ [mkFileInfo sx (Handle.f_path f ++ "/" ++ de_Name de)])%list
                  fuel) as [w'' Hloop]; [lia | lia |].
      exists w''. rewrite Hloop, <- app_assoc. reflexivity.
Qed.

(** The loop of [listFromDir] when the bound is not reached: it returns
    every item collected until the enumeration stopped, with the wrapped
    failure if it stopped on one. *)
Lemma listFromDir_loop_exhausts {T : Type} (d : CDir)
    (callback : DirEntry -> M St (result T)) :
  forall w items e w',
    collects d callback w items e w' ->
    forall count acc fuel,
      (List.length items < fuel)%nat ->
      count < 0 \/ Z.of_nat (List.length items) < count ->
      Listing.listFromDir_loop fuel d count acc callback w =
      Returns ((acc ++ items)%list,
               match e with
               | AtEnd => None
               | ReadFails err => Some (Errorf "failed cephfs.ReadDir: " err)
               | TransformFails err => Some (Errorf "listFromDir callback failed: " err)
               end) w'.
Proof.
  induction 1 as [w w' Hread | w w' err Hread | w w1 w' de err Hread Hcb
                 | w w1 w2 w' de item items e Hread Hcb Hrest IH];
    intros count acc fuel Hfuel Hcount;
    (destruct fuel as [|fuel]; [inversion Hfuel|]);
    cbn [Listing.listFromDir_loop];
    (replace (count =? 0) with false by (symmetry; apply Z.eqb_neq; lia));
    rewrite (bind_run _ _ _ _ _ Hread);
    try rewrite (bind_run _ _ _ _ _ Hcb);
    try (rewrite app_nil_r; reflexivity).
  cbn [List.length] in Hfuel, Hcount.
  rewrite IH; [| lia | destruct (0 <? count) eqn:Hpos; [apply Z.ltb_lt in Hpos | apply Z.ltb_ge in Hpos]; lia].
  rewrite <- app_assoc; reflexivity.
Qed.

(** C8.  When the remote read fails during an enumeration whose bound is
    not yet reached, [File.Readdir] of the two-capability handle returns
    the entries collected so far with the wrapped failure, in the world
    the failing read left.  When, in [listFromDir], the remote read or
    the per-entry transform fails, [listFromDir] returns the items
    collected so far with the wrapped failure; the only call after the
    failure is the deferred close of the directory. *)
Theorem enumeration_keeps_partial_list :
  (forall (f : Handle.File) (d : CDir) (n : Z) (fuel : nat)
          (w w' : World St) (l : list (DirEntry * CephStatx)) (err : error),
      Handle.f_dir f = Some d ->
      reads_plus d w l (ReadFails err) w' ->
      n <= 0 \/ Z.of_nat (List.length (listed f l)) < n ->
      (List.length l < fuel)%nat ->
      Handle.File_Readdir fuel f n w =
      Returns (listed f l, Some (Errorf "cephfs: failed to list file: " err)) w') /\
  (forall (T : Type) (file : Listing.File) (callback : DirEntry -> M St (result T))
          (d : CDir) (n : Z) (fuel : nat) (w w1 w2 w3 w4 : World St)
          (stat : FileInfo) (items : list T) (e : ending) (err : error)
          (closed : option error),
      Listing.File_Stat file w = Returns (Some stat, None) w1 ->
      FileInfo_IsDir stat = true ->
      mount_OpenDir (Listing.f_path file) w1 = Returns (Ok d) w2 ->
      collects d callback w2 items e w3 ->
      dir_Close d w3 = Returns closed w4 ->
      n <= 0 \/ Z.of_nat (List.length items) < n ->
      (List.length items < fuel)%nat ->
      (e = ReadFails err ->
       Listing.listFromDir fuel file n callback w =
       Returns (items, Some (Errorf "failed cephfs.ReadDir: " err)) w4) /\
      (e = TransformFails err ->
       Listing.listFromDir fuel file n callback w =
       Returns (items, Some (Errorf "listFromDir callback failed: " err)) w4)).
Proof.
  split.
  - intros f d n fuel w w' l err Hdir Hreads Hn Hfuel.
    unfold Handle.File_Readdir. rewrite Hdir.
    rewrite (Readdir_loop_exhausts f d _ _ _ _ Hreads); [reflexivity | exact Hfuel |].
    destruct (n =? 0) eqn:Hz; [lia|].
    apply Z.eqb_neq in Hz. lia.
  - intros T file callback d n fuel w w1 w2 w3 w4 stat items e err closed
           Hstat Hisdir Hopen Hcollects Hclose Hn Hfuel.
    assert (Hloop :
      Listing.listFromDir fuel file n callback w =
      Returns (items,
               match e with
               | AtEnd => None
               | ReadFails err => Some (Errorf "failed cephfs.ReadDir: " err)
               | TransformFails err => Some (Errorf "listFromDir callback failed: " err)
               end) w4).
    { unfold Listing.listFromDir.
      rewrite (bind_run _ _ _ _ _ Hstat), Hisdir.
      rewrite (bind_run _ _ _ _ _ Hopen).
      erewrite bind_run;
        [| apply (listFromDir_loop_exhausts d callback _ _ _ _ Hcollects);
           [exact Hfuel | destruct (n =? 0) eqn:Hz; [lia | apply Z.eqb_neq in Hz; lia]]].
      rewrite (bind_run _ _ _ _ _ Hclose). reflexivity. }
    split; intros ->; exact Hloop.
Qed.

End Enumeration.

(** The read fails after two entries were listed; in [listFromDir] the
    transform (the stat of the entry) fails on the second entry. *)
Lemma enumeration_keeps_partial_list_witness :
  let failure := CephErr false "cephfs: ret=-5, Input/output error" in
  let a := mkDirEntry "a" DTypeReg in
  let b := mkDirEntry "b" DTypeReg in
  let f := Handle.mkFile "/d" None (Some 1%nat) in
  let w := Scripted.world [Scripted.ReplyEntryPlus a Scripted.reg_statx;
                           Scripted.ReplyEntryPlus b Scripted.reg_statx;
                           Scripted.ReplyErr failure] in
  let file := Listing.mkFile 3%nat "/d" in
  let v := Scripted.world [Scripted.ReplyStatx Scripted.dir_statx;
                           Scripted.ReplyDir 1%nat;
                           Scripted.ReplyEntry a;
                           Scripted.ReplyStatx Scripted.reg_statx;
                           Scripted.ReplyEntry b;
                           Scripted.ReplyErr failure;
                           Scripted.ReplyNil] in
  let u := Scripted.world [Scripted.ReplyStatx Scripted.dir_statx;
                           Scripted.ReplyDir 1%nat;
                           Scripted.ReplyEntry a;
                           Scripted.ReplyErr failure;
                           Scripted.ReplyNil] in
  (exists w',
      reads_plus 1%nat w [(a, Scripted.reg_statx); (b, Scripted.reg_statx)]
                 (ReadFails failure) w' /\
      Handle.File_Readdir 3 f 0 w =
      Returns ([mkFileInfo Scripted.reg_statx "/d/a";
                mkFileInfo Scripted.reg_statx "/d/b"],
               Some (Errorf "cephfs: failed to list file: " failure)) w') /\
  (exists v',
      Listing.File_Readdir 2 file 5 v =
      Returns ([mkFileInfo Scripted.reg_statx "/d/a"],
               Some (Errorf "listFromDir callback failed: "
                       (Errorf "failed to statx file /d/b: " failure))) v') /\
  (exists u',
      Listing.File_Readdirnames 2 file 0 u =
      Returns (["a"], Some (Errorf "failed cephfs.ReadDir: " failure)) u').
Proof.
  intros failure a b f w file v u.
  destruct (@enumeration_keeps_partial_list _ Scripted.client) as [Hhandle Hlist].
  split; [|split].
  - eexists.
    assert (Hreads :
      reads_plus 1%nat w [(a, Scripted.reg_statx); (b, Scripted.reg_statx)]
        (ReadFails failure)
        (mkWorld [] [CallReadDirPlus 1%nat; CallReadDirPlus 1%nat; CallReadDirPlus 1%nat])).
    { eapply reads_plus_entry; [vm_compute; reflexivity|].
      eapply reads_plus_entry; [vm_compute; reflexivity|].
      apply reads_plus_fails; vm_compute; reflexivity. }
    split; [exact Hreads|].
    apply (Hhandle f 1%nat 0 3%nat w _ _ failure eq_refl Hreads);
      [left; lia | cbn; lia].
  - eexists.
    refine (proj2 (Hlist FileInfo file _ 1%nat 5 2%nat v _ _ _ _
                     (mkFileInfo Scripted.dir_statx "/d")
                     [mkFileInfo Scripted.reg_statx "/d/a"]
                     (TransformFails (Errorf "failed to statx file /d/b: " failure))
                     (Errorf "failed to statx file /d/b: " failure)
                     None _ _ _ _ _ _ _) eq_refl).
    + vm_compute; reflexivity.
    + reflexivity.
    + vm_compute; reflexivity.
    + eapply collects_item; [vm_compute; reflexivity | vm_compute; reflexivity |].
      eapply collects_transform_fails; vm_compute; reflexivity.
    + vm_compute; reflexivity.
    + right; cbn; lia.
    + cbn; lia.
  - eexists.
    refine (proj1 (Hlist string file _ 1%nat 0 2%nat u _ _ _ _
                     (mkFileInfo Scripted.dir_statx "/d") ["a"]
                     (ReadFails failure) failure None _ _ _ _ _ _ _) eq_refl).
    + vm_compute; reflexivity.
    + reflexivity.
    + vm_compute; reflexivity.
    + eapply collects_item; [vm_compute; reflexivity | vm_compute; reflexivity |].
      eapply collects_read_fails; vm_compute; reflexivity.
    + vm_compute; reflexivity.
    + left; lia.
    + cbn; lia.
Defined.

(** C1 fails on [listFromDir].  The directory ["/d"] holds the two
    entries [a] and [b]; the remote client also yields ["."] and [".."].
    [Readdir(2)] through [listFromDir] returns two records, named ["."]
    and [".."]: the transform ran on the pseudo-entries (they were
    statted) and they used up the bound.  [Readdir(0)] returns four
    records, not the two entries of the directory. *)
Theorem listFromDir_counts_dot_entries :
  let file := Listing.mkFile 3%nat "/d" in
  let w := Scripted.world [Scripted.ReplyStatx Scripted.dir_statx;
                           Scripted.ReplyDir 1%nat;
                           Scripted.ReplyEntry (mkDirEntry "." DTypeDir);
                           Scripted.ReplyStatx Scripted.dir_statx;
                           Scripted.ReplyEntry (mkDirEntry ".." DTypeDir);
                           Scripted.ReplyStatx Scripted.dir_statx;
                           Scripted.ReplyEntry (mkDirEntry "a" DTypeReg);
                           Scripted.ReplyStatx Scripted.reg_statx;
                           Scripted.ReplyEntry (mkDirEntry "b" DTypeReg);
                           Scripted.ReplyStatx Scripted.reg_statx;
                           Scripted.ReplyNil;
                           Scripted.ReplyNil] in
  let v := Scripted.world [Scripted.ReplyStatx Scripted.dir_statx;
                           Scripted.ReplyDir 1%nat;
                           Scripted.ReplyEntry (mkDirEntry "." DTypeDir);
                           Scripted.ReplyEntry (mkDirEntry ".." DTypeDir);
                           Scripted.ReplyEntry (mkDirEntry "a" DTypeReg);
                           Scripted.ReplyEntry (mkDirEntry "b" DTypeReg);
                           Scripted.ReplyNil;
                           Scripted.ReplyNil] in
  (exists l w',
      Listing.File_Readdir 8 file 2 w = Returns (l, None) w' /\
      map FileInfo_Name l = ["."; ".."] /\
      calls w' = [CallFstatx 3%nat; CallOpenDir "/d";
                  CallReadDir 1%nat; CallStatx "/d/.";
                  CallReadDir 1%nat; CallStatx "/d/..";
                  CallDirClose 1%nat]) /\
  (exists l w',
      Listing.File_Readdir 8 file 0 w = Returns (l, None) w' /\
      map FileInfo_Name l = ["."; ".."; "a"; "b"]) /\
  (exists l v',
      Listing.File_Readdirnames 8 file 2 v = Returns (l, None) v' /\
      l = ["."; ".."]).
Proof.
  intros file w v.
  split; [|split]; do 2 eexists; (split; [vm_compute; reflexivity|]);
    try split; reflexivity.
Qed.

(* ===================================================================== *)
(** * Recursive delete *)
(* ===================================================================== *)

Section RecursiveDelete.
Context {St : Type} {client : CephClient St}.

(** One unfolding of [RemoveAll], with its function literal named. *)
Lemma Fs_RemoveAll_step (fuel : nat) (path : string) :
  Fs_RemoveAll (S fuel) path =
  (r <- Fs_Stat path ;;
   match r with
   | (_, Some err) => if os_IsNotExist err then ret None else ret (Some err)
   | (None, None) => panic
   | (Some stat, None) =>
       if negb (FileInfo_IsDir stat) then
         err <- Fs_Remove path ;;
         match err with
         | Some err =>
             ret (Some (Errorf ("'RemoveAll' failed to remove file at path "
                                ++ path ++ ": ") err))
         | None => ret None
         end
       else
         r <- mount_OpenDir path ;;
         match r with
         | Err err => ret (Some (Errorf ("failed to open dir " ++ path ++ ": ") err))
         | Ok dir =>
             err <- forDirItem fuel dir (RemoveAll_callback (Fs_RemoveAll fuel) path) ;;
             match err with
             | Some err => dir_Close dir ;;; ret (Some err)
             | None =>
                 err <- mount_RemoveDir path ;;
                 dir_Close dir ;;;
                 ret err
             end
         end
   end)%adapter.
Proof. reflexivity. Qed.

Lemma carries_refl (r : option error) : carries r r.
Proof. destruct r; simpl; [apply wraps_refl | exact I]. Qed.

Lemma carries_Errorf (prefix : string) (e : error) (c : option error) :
  carries (Some e) c -> carries (Some (Errorf prefix e)) c.
Proof. destruct c; simpl; [apply wraps_Errorf | trivial]. Qed.

Lemma ret_Returns {A : Type} (a b : A) (w w' : World St) :
  ret a w = Returns b w' -> a = b /\ w = w'.
Proof. unfold ret; intros H; inversion H; auto. Qed.

(** What the function literal does is what the specification says of one
    child, provided the recursive call does what it says of a path. *)
Lemma callback_child (recurse : string -> M St (option error)) (path : string) :
  (forall p w r w',
      recurse p w = Returns r w' -> exists c, removes p w c w' /\ carries r c) ->
  forall de w r w',
    RemoveAll_callback recurse path de w = Returns r w' ->
    exists c, child path de w c w' /\ carries r c.
Proof.
  intros Hrec de w r w' Hrun.
  unfold RemoveAll_callback in Hrun.
  fold (is_dot (de_Name de)) in Hrun.
  destruct (is_dot (de_Name de)) eqn:Hdot.
  - apply ret_Returns in Hrun as [<- <-].
    exists None; split; [now apply child_dot | exact I].
  - assert (Hunlink : forall prefix,
        (err <- mount_Unlink (path ++ "/" ++ de_Name de) ;;
         match err with
         | Some err => ret (Some (Errorf prefix err))
         | None => ret None
         end)%adapter w = Returns r w' ->
        exists c, mount_Unlink (path ++ "/" ++ de_Name de) w = Returns c w' /\
                  carries r c).
    { intros prefix H.
      apply bind_Returns in H as (c & w1 & Hc & Hk).
      exists c. destruct c as [e|]; apply ret_Returns in Hk as [<- <-];
        (split; [exact Hc|]); [apply carries_Errorf, carries_refl | exact I]. }
    destruct (de_DType de) eqn:Htype;
      try (apply Hunlink in Hrun as (c & Hc & Hcarries);
           exists c; split; [|exact Hcarries]).
    all: try (apply child_other; [exact Hdot | congruence .. | exact Hc]).
    all: try (apply child_file; [exact Hdot | auto | exact Hc]).
    apply bind_Returns in Hrun as (err & w1 & Hcall & Hk).
    destruct (Hrec _ _ _ _ Hcall) as (c & Hremoves & Hcarries).
    exists c.
    destruct err as [e|]; apply ret_Returns in Hk as [<- <-];
      (split; [now apply child_directory | exact Hcarries]).
Qed.

(** The loop of [forDirItem] processes the children as the specification
    says, provided its callback does what it says of one child. *)
Lemma forDirItem_children (callback : DirEntry -> M St (option error))
    (path : string) (dir : CDir) :
  (forall de w r w',
      callback de w = Returns r w' -> exists c, child path de w c w' /\ carries r c) ->
  forall fuel w r w',
    forDirItem fuel dir callback w = Returns r w' ->
    exists c, children path dir w c w' /\ carries r c.
Proof.
  intros Hcb fuel; induction fuel as [|fuel IH]; intros w r w' Hrun;
    [discriminate|].
  cbn [forDirItem] in Hrun.
  apply bind_Returns in Hrun as (read & w1 & Hread & Hk).
  destruct read as [[de|]|err].
  - apply bind_Returns in Hk as (res & w2 & Hcall & Hk).
    destruct (Hcb _ _ _ _ Hcall) as (c & Hchild & Hcarries).
    destruct res as [e|].
    + apply ret_Returns in Hk as [<- <-].
      destruct c as [c|]; [|contradiction].
      exists (Some c); split.
      * eapply children_abort; eassumption.
      * apply carries_Errorf; exact Hcarries.
    + destruct c as [c|]; [contradiction|].
      destruct (IH _ _ _ Hk) as (c' & Hrest & Hcarries').
      exists c'; split; [|exact Hcarries'].
      eapply children_next; eassumption.
  - apply ret_Returns in Hk as [<- <-].
    exists None; split; [now apply children_done | exact I].
  - apply ret_Returns in Hk as [<- <-].
    exists (Some err); split; [now apply children_read_fails|].
    apply carries_Errorf, carries_refl.
Qed.

(** Whatever [RemoveAll] returns, it deleted as the specification says. *)
Lemma RemoveAll_sound (fuel : nat) :
  forall path w r w',
    Fs_RemoveAll fuel path w = Returns r w' ->
    exists c, removes path w c w' /\ carries r c.
Proof.
  induction fuel as [|fuel IH]; intros path w r w' Hrun; [discriminate|].
  rewrite Fs_RemoveAll_step in Hrun.
  apply bind_Returns in Hrun as ([info err] & w1 & Hstat & Hk).
  destruct err as [err|].
  - assert (Hk' : (if os_IsNotExist err then ret None else ret (Some err)) w1
                  = Returns r w') by (destruct info; exact Hk).
    destruct (os_IsNotExist err) eqn:Hne; apply ret_Returns in Hk' as [<- <-].
    + exists None; split; [eapply removes_absent; eassumption | exact I].
    + exists (Some err); split;
        [eapply removes_stat_fails; eassumption | apply wraps_refl].
  - destruct info as [stat|]; [|discriminate].
    destruct (FileInfo_IsDir stat) eqn:Hisdir; cbn [negb] in Hk.
    + apply bind_Returns in Hk as (opened & w2 & Hopen & Hk).
      destruct opened as [dir|err].
      * apply bind_Returns in Hk as (res & w3 & Hloop & Hk).
        destruct (forDirItem_children _ path dir
                    (callback_child _ path IH) _ _ _ _ Hloop)
          as (c & Hchildren & Hcarries).
        destruct res as [e|].
        -- apply bind_Returns in Hk as (closed & w4 & Hclose & Hk).
           apply ret_Returns in Hk as [<- <-].
           destruct c as [c|]; [|contradiction].
           exists (Some c); split; [|exact Hcarries].
           eapply removes_child_fails; eassumption.
        -- destruct c as [c|]; [contradiction|].
           apply bind_Returns in Hk as (removed & w4 & Hrmdir & Hk).
           apply bind_Returns in Hk as (closed & w5 & Hclose & Hk).
           apply ret_Returns in Hk as [<- <-].
           exists removed; split; [|apply carries_refl].
           eapply removes_directory; eassumption.
      * apply ret_Returns in Hk as [<- <-].
        exists (Some err); split;
          [eapply removes_open_fails; eassumption
          | apply carries_Errorf, carries_refl].
    + apply bind_Returns in Hk as (removed & w2 & Hremove & Hk).
      exists removed.
      destruct removed as [e|]; apply ret_Returns in Hk as [<- <-];
        (split; [eapply removes_plain; eassumption|]);
        [apply carries_Errorf, carries_refl | exact I].
Qed.

Lemma carries_None (r : option error) : carries r None -> r = None.
Proof. destruct r; simpl; [contradiction | reflexivity]. Qed.

Lemma carries_Some (r : option error) (c : error) :
  carries r (Some c) -> exists e, r = Some e /\ wraps e c.
Proof. destruct r as [e|]; simpl; [eauto | contradiction]. Qed.

(** Every delete the specification describes is what [RemoveAll], the
    loop of [forDirItem] and the function literal do, once the fuel
    suffices. *)
Lemma RemoveAll_complete_mutual :
  (forall path w c w',
      removes path w c w' ->
      exists n, forall fuel, (n <= fuel)%nat ->
        exists r, Fs_RemoveAll fuel path w = Returns r w' /\ carries r c) /\
  (forall path dir w c w',
      children path dir w c w' ->
      exists n, forall fuel k, (n <= fuel)%nat -> (n <= k)%nat ->
        exists r,
          forDirItem k dir (RemoveAll_callback (Fs_RemoveAll fuel) path) w
            = Returns r w' /\ carries r c) /\
  (forall path de w c w',
      child path de w c w' ->
      exists n, forall fuel, (n <= fuel)%nat ->
        exists r,
          RemoveAll_callback (Fs_RemoveAll fuel) path de w = Returns r w' /\
          carries r c).
Proof.
  apply removes_children_child_ind.
  - (* not found *)
    intros path w w' info err Hstat Hne.
    exists 1%nat; intros [|fuel] Hfuel; [lia|].
    exists None. rewrite Fs_RemoveAll_step, (bind_run _ _ _ _ _ Hstat).
    destruct info; rewrite Hne; split; [reflexivity | exact I | reflexivity | exact I].
  - (* the stat fails *)
    intros path w w' info err Hstat Hne.
    exists 1%nat; intros [|fuel] Hfuel; [lia|].
    exists (Some err). rewrite Fs_RemoveAll_step, (bind_run _ _ _ _ _ Hstat).
    destruct info; rewrite Hne; split;
      [reflexivity | apply wraps_refl | reflexivity | apply wraps_refl].
  - (* not a directory *)
    intros path w w1 w' stat c Hstat Hisdir Hremove.
    exists 1%nat; intros [|fuel] Hfuel; [lia|].
    rewrite Fs_RemoveAll_step, (bind_run _ _ _ _ _ Hstat), Hisdir.
    cbn [negb]. rewrite (bind_run _ _ _ _ _ Hremove).
    destruct c as [e|]; eexists; (split; [reflexivity|]);
      [apply carries_Errorf, carries_refl | exact I].
  - (* the directory cannot be opened *)
    intros path w w1 w' stat err Hstat Hisdir Hopen.
    exists 1%nat; intros [|fuel] Hfuel; [lia|].
    rewrite Fs_RemoveAll_step, (bind_run _ _ _ _ _ Hstat), Hisdir.
    cbn [negb]. rewrite (bind_run _ _ _ _ _ Hopen).
    eexists; split; [reflexivity | apply carries_Errorf, carries_refl].
  - (* a directory, all children processed *)
    intros path w w1 w2 w3 w4 w' stat dir c closed
           Hstat Hisdir Hopen _ [n IH] Hrmdir Hclose.
    exists (S n); intros [|fuel] Hfuel; [lia|].
    destruct (IH fuel fuel) as (r & Hloop & Hcarries); [lia | lia |].
    apply carries_None in Hcarries; subst r.
    rewrite Fs_RemoveAll_step, (bind_run _ _ _ _ _ Hstat), Hisdir.
    cbn [negb]. rewrite (bind_run _ _ _ _ _ Hopen), (bind_run _ _ _ _ _ Hloop).
    rewrite (bind_run _ _ _ _ _ Hrmdir), (bind_run _ _ _ _ _ Hclose).
    exists c; split; [reflexivity | apply carries_refl].
  - (* a directory, a child fails *)
    intros path w w1 w2 w3 w' stat dir err closed
           Hstat Hisdir Hopen _ [n IH] Hclose.
    exists (S n); intros [|fuel] Hfuel; [lia|].
    destruct (IH fuel fuel) as (r & Hloop & Hcarries); [lia | lia |].
    apply carries_Some in Hcarries as (e & -> & Hwraps).
    rewrite Fs_RemoveAll_step, (bind_run _ _ _ _ _ Hstat), Hisdir.
    cbn [negb]. rewrite (bind_run _ _ _ _ _ Hopen), (bind_run _ _ _ _ _ Hloop).
    rewrite (bind_run _ _ _ _ _ Hclose).
    exists (Some e); split; [reflexivity | exact Hwraps].
  - (* end of the directory *)
    intros path dir w w' Hread.
    exists 1%nat; intros fuel [|k] _ Hk; [lia|].
    cbn [forDirItem]. rewrite (bind_run _ _ _ _ _ Hread).
    exists None; split; [reflexivity | exact I].
  - (* the read fails *)
    intros path dir w w' err Hread.
    exists 1%nat; intros fuel [|k] _ Hk; [lia|].
    cbn [forDirItem]. rewrite (bind_run _ _ _ _ _ Hread).
    eexists; split; [reflexivity | apply carries_Errorf, carries_refl].
  - (* a child is processed, the loop goes on *)
    intros path dir w w1 w2 w' de c Hread _ [n1 IH1] _ [n2 IH2].
    exists (S (Nat.max n1 n2)); intros fuel [|k] Hfuel Hk; [lia|].
    destruct (IH1 fuel) as (r1 & Hcall & Hcarries); [lia|].
    apply carries_None in Hcarries; subst r1.
    cbn [forDirItem].
    rewrite (bind_run _ _ _ _ _ Hread), (bind_run _ _ _ _ _ Hcall).
    apply IH2; lia.
  - (* a child fails, the loop stops *)
    intros path dir w w1 w' de err Hread _ [n IH].
    exists (S n); intros fuel [|k] Hfuel Hk; [lia|].
    destruct (IH fuel) as (r1 & Hcall & Hcarries); [lia|].
    apply carries_Some in Hcarries as (e & -> & Hwraps).
    cbn [forDirItem].
    rewrite (bind_run _ _ _ _ _ Hread), (bind_run _ _ _ _ _ Hcall).
    eexists; split; [reflexivity | apply wraps_Errorf, Hwraps].
  - (* a pseudo-entry *)
    intros path de w Hdot.
    exists 0%nat; intros fuel _.
    unfold RemoveAll_callback. fold (is_dot (de_Name de)). rewrite Hdot.
    exists None; split; [reflexivity | exact I].
  - (* a directory child *)
    intros path de w w' c Hdot Htype _ [n IH].
    exists n; intros fuel Hfuel.
    destruct (IH fuel Hfuel) as (r & Hrun & Hcarries).
    unfold RemoveAll_callback. fold (is_dot (de_Name de)).
    rewrite Hdot, Htype, (bind_run _ _ _ _ _ Hrun).
    exists r; destruct r; split; (reflexivity || exact Hcarries).
  - (* a symlink or a regular file *)
    intros path de w w' c Hdot Htype Hunlink.
    exists 0%nat; intros fuel _.
    unfold RemoveAll_callback. fold (is_dot (de_Name de)). rewrite Hdot.
    destruct Htype as [-> | ->]; rewrite (bind_run _ _ _ _ _ Hunlink);
      destruct c as [e|]; eexists; (split; [reflexivity|]);
      (apply carries_Errorf, carries_refl || exact I).
  - (* any other type *)
    intros path de w w' c Hdot Hdir Hlnk Hreg Hunlink.
    exists 0%nat; intros fuel _.
    unfold RemoveAll_callback. fold (is_dot (de_Name de)). rewrite Hdot.
    destruct (de_DType de); try congruence;
      rewrite (bind_run _ _ _ _ _ Hunlink);
      destruct c as [e|]; eexists; (split; [reflexivity|]);
      (apply carries_Errorf, carries_refl || exact I).
Qed.

(** A logged call returns what the remote client answers. *)
Lemma answers_invoke {A : Type} (c : Call) (op : St -> A * St)
    (w w' : World St) (a : A) :
  invoke c op w = Returns a w' <-> answers c op w a w'.
Proof.
  unfold invoke, answers.
  destruct (op (remote w)) as [a0 s0]. split.
  - intros H; inversion H; subst; cbn; auto.
  - intros [Hop Hlog]. inversion Hop; subst.
    destruct w' as [s l]; cbn in *. now subst.
Qed.

Lemma answers_at {A : Type} (c : Call) (op : St -> A * St)
    (w : World St) (a : A) (s' : St) :
  op (remote w) = (a, s') ->
  answers c op w a (mkWorld s' (calls w ++ [c])%list).
Proof. intros H; split; [exact H | reflexivity]. Qed.

(** [Stat] is one [Statx] call, with the not-found rule on its failure. *)
Lemma Fs_Stat_answers (path : string) (w w' : World St)
    (info : option FileInfo) (err : option error) :
  Fs_Stat path w = Returns (info, err) w' <->
  exists r,
    answers (CallStatx path) (c_Statx path) w r w' /\
    (info, err) =
      match r with
      | Ok stat => (Some (mkFileInfo stat path), None)
      | Err raw =>
          (None, Some (if errors_Is_ErrNotExist raw then OsErrNotExist else raw))
      end.
Proof.
  unfold Fs_Stat, mount_Statx. split.
  - intros H. apply bind_Returns in H as (r & w1 & Hr & Hk).
    apply answers_invoke in Hr. exists r.
    destruct r as [stat|raw]; [|destruct (errors_Is_ErrNotExist raw)];
      apply ret_Returns in Hk as [E <-]; auto.
  - intros (r & Ha & E). apply answers_invoke in Ha.
    rewrite (bind_run _ _ _ _ _ Ha).
    destruct r as [stat|raw]; [|destruct (errors_Is_ErrNotExist raw)];
      inversion E; reflexivity.
Qed.

(** [Remove] is one [Unlink] call, its failure translated. *)
Lemma Fs_Remove_answers (path : string) (w w' : World St) (c : option error) :
  Fs_Remove path w = Returns c w' <->
  exists failure,
    answers (CallUnlink path) (c_Unlink path) w failure w' /\
    c = convertErr failure.
Proof.
  unfold Fs_Remove, mount_Unlink. split.
  - intros H. apply bind_Returns in H as (failure & w1 & Hr & Hk).
    apply answers_invoke in Hr. apply ret_Returns in Hk as [<- <-]. eauto.
  - intros (failure & Ha & ->). apply answers_invoke in Ha.
    now rewrite (bind_run _ _ _ _ _ Ha).
Qed.

(** A run cut at the adapter's operations is a run of the algorithm over
    the remote client's answers. *)
Lemma removes_deletes :
  (forall path w c w', removes path w c w' -> deletes path w c w') /\
  (forall path dir w c w', children path dir w c w' -> empties path dir w c w') /\
  (forall path de w c w', child path de w c w' -> deletes_entry path de w c w').
Proof.
  apply removes_children_child_ind.
  - intros path w w' info err Hstat Hne.
    apply Fs_Stat_answers in Hstat as ([stat|raw] & Ha & E); inversion E; subst.
    eapply deletes_absent; [exact Ha|].
    unfold stat_not_found.
    destruct (errors_Is_ErrNotExist raw); [reflexivity | exact Hne].
  - intros path w w' info err Hstat Hne.
    apply Fs_Stat_answers in Hstat as ([stat|raw] & Ha & E); inversion E; subst.
    destruct (errors_Is_ErrNotExist raw) eqn:Hi; [discriminate Hne|].
    eapply deletes_stat_fails; [exact Ha|].
    unfold stat_not_found. now rewrite Hi, Hne.
  - intros path w w1 w' info c Hstat Hisdir Hremove.
    apply Fs_Stat_answers in Hstat as ([stat|raw] & Ha & E); inversion E; subst.
    apply Fs_Remove_answers in Hremove as (failure & Hu & ->).
    eapply deletes_plain; [exact Ha | exact Hisdir | exact Hu].
  - intros path w w1 w' info err Hstat Hisdir Hopen.
    apply Fs_Stat_answers in Hstat as ([stat|raw] & Ha & E); inversion E; subst.
    apply answers_invoke in Hopen.
    eapply deletes_open_fails; [exact Ha | exact Hisdir | exact Hopen].
  - intros path w w1 w2 w3 w4 w' info dir c closed
           Hstat Hisdir Hopen _ IH Hrmdir Hclose.
    apply Fs_Stat_answers in Hstat as ([stat|raw] & Ha & E); inversion E; subst.
    apply answers_invoke in Hopen, Hrmdir, Hclose.
    eapply deletes_directory; eauto.
  - intros path w w1 w2 w3 w' info dir err closed
           Hstat Hisdir Hopen _ IH Hclose.
    apply Fs_Stat_answers in Hstat as ([stat|raw] & Ha & E); inversion E; subst.
    apply answers_invoke in Hopen, Hclose.
    eapply deletes_entry_fails; eauto.
  - intros path dir w w' Hread. apply answers_invoke in Hread.
    now apply empties_done.
  - intros path dir w w' err Hread. apply answers_invoke in Hread.
    now apply empties_read_fails.
  - intros path dir w w1 w2 w' de c Hread _ IH1 _ IH2.
    apply answers_invoke in Hread. eapply empties_next; eauto.
  - intros path dir w w1 w' de err Hread _ IH.
    apply answers_invoke in Hread. eapply empties_abort; eauto.
  - intros path de w Hdot. now apply entry_dot.
  - intros path de w w' c Hdot Htype _ IH. now apply entry_directory.
  - intros path de w w' c Hdot Htype Hunlink.
    apply answers_invoke in Hunlink. now apply entry_file.
  - intros path de w w' c Hdot Hdir Hlnk Hreg Hunlink.
    apply answers_invoke in Hunlink. now apply entry_other.
Qed.

(** And back: a run of the algorithm is a run cut at the adapter's
    operations. *)
Lemma deletes_removes :
  (forall path w c w', deletes path w c w' -> removes path w c w') /\
  (forall path dir w c w', empties path dir w c w' -> children path dir w c w') /\
  (forall path de w c w', deletes_entry path de w c w' -> child path de w c w').
Proof.
  assert (Hfound : forall path w stat w1,
    answers (CallStatx path) (c_Statx path) w (Ok stat) w1 ->
    Fs_Stat path w = Returns (Some (mkFileInfo stat path), None) w1).
  { intros path w stat w1 Ha. apply Fs_Stat_answers. eauto. }
  apply deletes_empties_entry_ind.
  - intros path w w' raw Ha Hnf.
    eapply removes_absent with (info := None).
    + apply Fs_Stat_answers. exists (Err raw). split; [exact Ha | reflexivity].
    + unfold stat_not_found in Hnf.
      destruct (errors_Is_ErrNotExist raw); [reflexivity | exact Hnf].
  - intros path w w' raw Ha Hnf.
    unfold stat_not_found in Hnf. apply orb_false_iff in Hnf as [Hi Hne].
    eapply removes_stat_fails with (info := None); [|exact Hne].
    apply Fs_Stat_answers. exists (Err raw). rewrite Hi. auto.
  - intros path w w1 w' stat failure Ha Hisdir Hu.
    eapply removes_plain; [apply (Hfound _ _ _ _ Ha) | exact Hisdir |].
    apply Fs_Remove_answers. eauto.
  - intros path w w1 w' stat raw Ha Hisdir Hopen.
    apply answers_invoke in Hopen.
    eapply removes_open_fails; [apply (Hfound _ _ _ _ Ha) | exact Hisdir | exact Hopen].
  - intros path w w1 w2 w3 w4 w' stat dir failure closed
           Ha Hisdir Hopen _ IH Hrmdir Hclose.
    apply answers_invoke in Hopen, Hrmdir, Hclose.
    eapply removes_directory;
      [apply (Hfound _ _ _ _ Ha) | exact Hisdir | exact Hopen | exact IH
      | exact Hrmdir | exact Hclose].
  - intros path w w1 w2 w3 w' stat dir failure closed
           Ha Hisdir Hopen _ IH Hclose.
    apply answers_invoke in Hopen, Hclose.
    eapply removes_child_fails;
      [apply (Hfound _ _ _ _ Ha) | exact Hisdir | exact Hopen | exact IH
      | exact Hclose].
  - intros path dir w w' Hread. apply answers_invoke in Hread.
    now apply children_done.
  - intros path dir w w' raw Hread. apply answers_invoke in Hread.
    now apply children_read_fails.
  - intros path dir w w1 w2 w' de c Hread _ IH1 _ IH2.
    apply answers_invoke in Hread. eapply children_next; eauto.
  - intros path dir w w1 w' de failure Hread _ IH.
    apply answers_invoke in Hread. eapply children_abort; eauto.
  - intros path de w Hdot. now apply child_dot.
  - intros path de w w' c Hdot Htype _ IH. now apply child_directory.
  - intros path de w w' failure Hdot Htype Hunlink.
    apply answers_invoke in Hunlink. now apply child_file.
  - intros path de w w' failure Hdot Hdir Hlnk Hreg Hunlink.
    apply answers_invoke in Hunlink. now apply child_other.
Qed.

(** C2.  [RemoveAll] follows the algorithm of the specification
    ([deletes], which is written over the calls to the remote client and
    its answers): whatever it returns, it got there by the steps of the
    algorithm, in their order, with exactly the remote calls of these
    steps in the log, and it returns nil when they succeed and an error
    that is, or wraps, the failure of the step that failed; and every run
    of the algorithm is the run of [RemoveAll] once the fuel suffices for
    the depth and the size of the tree. *)
Theorem RemoveAll_follows_algorithm (path : string) (w w' : World St) :
  (forall fuel r,
      Fs_RemoveAll fuel path w = Returns r w' ->
      exists c, deletes path w c w' /\ carries r c) /\
  (forall c,
      deletes path w c w' ->
      exists n, forall fuel, (n <= fuel)%nat ->
        exists r, Fs_RemoveAll fuel path w = Returns r w' /\ carries r c).
Proof.
  split.
  - intros fuel r Hrun.
    destruct (RemoveAll_sound fuel path w r w' Hrun) as (c & Hremoves & Hcarries).
    exists c. split; [|exact Hcarries].
    now apply (proj1 removes_deletes).
  - intros c Hdeletes.
    apply (proj1 RemoveAll_complete_mutual).
    now apply (proj1 deletes_removes).
Qed.

End RecursiveDelete.

(** Three targets.  ["/f"] is a regular file: it is unlinked directly,
    and the refusal of the remote client comes back translated.  The
    directory ["/d"] holds a regular file, an empty directory and a
    character device; the remote client also yields ["."] and [".."].
    In the third run the unlink of the child ["/d/a"] is refused. *)
Lemma RemoveAll_follows_algorithm_witness :
  let gone := CephErr true "cephfs: ret=-2, No such file or directory" in
  let u := Scripted.world
             [Scripted.ReplyStatx Scripted.reg_statx;
              Scripted.ReplyErr gone] in
  let u' := mkWorld [] [CallStatx "/f"; CallUnlink "/f"] in
  let w := Scripted.world
             [Scripted.ReplyStatx Scripted.dir_statx;
              Scripted.ReplyDir 1%nat;
              Scripted.ReplyEntry (mkDirEntry "." DTypeDir);
              Scripted.ReplyEntry (mkDirEntry ".." DTypeDir);
              Scripted.ReplyEntry (mkDirEntry "a" DTypeReg);
              Scripted.ReplyNil;
              Scripted.ReplyEntry (mkDirEntry "sub" DTypeDir);
              Scripted.ReplyStatx Scripted.dir_statx;
              Scripted.ReplyDir 2%nat;
              Scripted.ReplyNil;
              Scripted.ReplyNil;
              Scripted.ReplyNil;
              Scripted.ReplyEntry (mkDirEntry "dev" DTypeChr);
              Scripted.ReplyNil;
              Scripted.ReplyNil;
              Scripted.ReplyNil;
              Scripted.ReplyNil] in
  let w' := mkWorld []
              [CallStatx "/d"; CallOpenDir "/d";
               CallReadDir 1%nat; CallReadDir 1%nat;
               CallReadDir 1%nat; CallUnlink "/d/a";
               CallReadDir 1%nat;
               CallStatx "/d/sub"; CallOpenDir "/d/sub"; CallReadDir 2%nat;
               CallRemoveDir "/d/sub"; CallDirClose 2%nat;
               CallReadDir 1%nat; CallUnlink "/d/dev";
               CallReadDir 1%nat;
               CallRemoveDir "/d"; CallDirClose 1%nat] in
  let denied := CephErr false "cephfs: ret=-13, Permission denied" in
  let v := Scripted.world
             [Scripted.ReplyStatx Scripted.dir_statx;
              Scripted.ReplyDir 1%nat;
              Scripted.ReplyEntry (mkDirEntry "a" DTypeReg);
              Scripted.ReplyErr denied;
              Scripted.ReplyNil] in
  let v' := mkWorld []
              [CallStatx "/d"; CallOpenDir "/d"; CallReadDir 1%nat;
               CallUnlink "/d/a"; CallDirClose 1%nat] in
  (Fs_RemoveAll 1 "/f" u =
     Returns (Some (Errorf "'RemoveAll' failed to remove file at path /f: "
                      OsErrNotExist)) u' /\
   deletes "/f" u (Some OsErrNotExist) u' /\
   exists n, forall fuel, (n <= fuel)%nat ->
     exists r, Fs_RemoveAll fuel "/f" u = Returns r u' /\
               carries r (Some OsErrNotExist)) /\
  (Fs_RemoveAll 7 "/d" w = Returns None w' /\
   deletes "/d" w None w' /\
   exists n, forall fuel, (n <= fuel)%nat ->
     exists r, Fs_RemoveAll fuel "/d" w = Returns r w' /\ carries r None) /\
  (deletes "/d" v (Some denied) v' /\
   Fs_RemoveAll 2 "/d" v =
     Returns (Some (Errorf "DirEntry callback failed: "
                      (Errorf "failed to remove file /d/a: " denied))) v' /\
   exists n, forall fuel, (n <= fuel)%nat ->
     exists r, Fs_RemoveAll fuel "/d" v = Returns r v' /\ carries r (Some denied)).
Proof.
  intros gone u u' w w' denied v v'.
  split; [|split].
  - assert (Hrun : Fs_RemoveAll 1 "/f" u =
                   Returns (Some (Errorf "'RemoveAll' failed to remove file at path /f: "
                                    OsErrNotExist)) u')
      by (vm_compute; reflexivity).
    assert (Hdeletes : deletes "/f" u (convertErr (Some gone)) u').
    { eapply deletes_plain with (stat := Scripted.reg_statx).
      - apply answers_at; vm_compute; reflexivity.
      - reflexivity.
      - apply answers_at; vm_compute; reflexivity. }
    split; [exact Hrun|]. split; [exact Hdeletes|].
    exact (proj2 (RemoveAll_follows_algorithm "/f" u u') _ Hdeletes).
  - assert (Hrun : Fs_RemoveAll 7 "/d" w = Returns None w')
      by (vm_compute; reflexivity).
    destruct (RemoveAll_follows_algorithm "/d" w w') as [Hsound Hcomplete].
    destruct (Hsound 7%nat None Hrun) as (c & Hdeletes & Hcarries).
    destruct c as [c|]; [contradiction|].
    split; [exact Hrun|].
    split; [exact Hdeletes|].
    exact (Hcomplete None Hdeletes).
  - assert (Hdeletes : deletes "/d" v (Some denied) v').
    { eapply deletes_entry_fails with (stat := Scripted.dir_statx)
                                      (dir := 1%nat) (closed := None).
      - apply answers_at; vm_compute; reflexivity.
      - reflexivity.
      - apply answers_at; vm_compute; reflexivity.
      - eapply empties_abort with (de := mkDirEntry "a" DTypeReg);
          [apply answers_at; vm_compute; reflexivity|].
        apply entry_file; [reflexivity | right; reflexivity |].
        apply answers_at; vm_compute; reflexivity.
      - apply answers_at; vm_compute; reflexivity. }
    split; [exact Hdeletes|].
    destruct (proj2 (RemoveAll_follows_algorithm "/d" v v') (Some denied) Hdeletes)
      as [n Hn].
    split; [vm_compute; reflexivity|].
    exists n; exact Hn.
Defined.

(* ===================================================================== *)
(** * The bound of [Readdir] on the two-capability handle *)
(* ===================================================================== *)

Lemma list_ascii_of_string_append (s t : string) :
  list_ascii_of_string (s ++ t) =
  (list_ascii_of_string s ++ list_ascii_of_string t)%list.
Proof. induction s as [|c s IH]; cbn; [reflexivity | now rewrite IH]. Qed.

Lemma drop_separators_none (l rest : list ascii) :
  l <> [] ->
  (forall c, In c l -> is_separator c = false) ->
  drop_separators (l ++ rest) = (l ++ rest)%list.
Proof.
  intros Hne Hl. destruct l as [|c l]; [now elim Hne|].
  cbn. now rewrite (Hl c (or_introl eq_refl)).
Qed.

Lemma until_separator_stops (l rest : list ascii) :
  (forall c, In c l -> is_separator c = false) ->
  until_separator (l ++ "/"%char :: rest) = l.
Proof.
  induction l as [|c l IH]; intros Hl; cbn.
  - reflexivity.
  - rewrite (Hl c (or_introl eq_refl)), IH; [reflexivity|].
    intros c' Hc'; apply Hl; now right.
Qed.

(** The base name of [parent/name] is [name], for a name that is not
    empty and holds no slash. *)
Lemma filepath_Base_child (parent name : string) :
  name <> EmptyString ->
  (forall c, In c (list_ascii_of_string name) -> is_separator c = false) ->
  filepath_Base (parent ++ "/" ++ name) = name.
Proof.
  intros Hne Hname. unfold filepath_Base.
  replace (String.eqb (parent ++ "/" ++ name) EmptyString) with false
    by (destruct parent; reflexivity).
  rewrite list_ascii_of_string_append.
  change (list_ascii_of_string ("/" ++ name))
    with ("/"%char :: list_ascii_of_string name).
  rewrite rev_app_distr. cbn [rev]. rewrite <- app_assoc. cbn [app].
  assert (Hrev : forall c, In c (rev (list_ascii_of_string name)) ->
                           is_separator c = false)
    by (intros c Hc; apply Hname, in_rev, Hc).
  rewrite drop_separators_none; [| | exact Hrev].
  - rewrite until_separator_stops by exact Hrev.
    rewrite rev_involutive.
    destruct (list_ascii_of_string name) eqn:E.
    + destruct name; [now elim Hne | discriminate E].
    + rewrite <- E. apply string_of_list_ascii_of_string.
  - intros E. apply (f_equal (@rev ascii)) in E.
    rewrite rev_involutive in E. cbn in E.
    destruct name; [now elim Hne | discriminate E].
Qed.

Section ReaddirBound.
Context {St : Type} {client : CephClient St}.

(** No record of [listed] is named ["."] or [".."], when the remote
    client yields entry names that are not empty and hold no slash. *)
Lemma listed_names (f : Handle.File) (l : list (DirEntry * CephStatx)) :
  (forall p, In p l ->
     de_Name (fst p) <> EmptyString /\
     forall c, In c (list_ascii_of_string (de_Name (fst p))) -> is_separator c = false) ->
  forall info, In info (listed f l) -> is_dot (FileInfo_Name info) = false.
Proof.
  intros Hl info Hin.
  unfold listed in Hin. apply in_map_iff in Hin as (p & <- & Hp).
  apply filter_In in Hp as [Hp Hdot].
  destruct (Hl p Hp) as [Hne Hname].
  unfold FileInfo_Name; cbn [fi_path].
  rewrite (filepath_Base_child _ _ Hne Hname).
  now apply negb_true_iff.
Qed.

(** X8.  The bound of [File.Readdir] of the two-capability handle.  The
    directory yields the raw entries [l] and then its end; [listed f l]
    are its entries without ["."] and [".."].  [Readdir(n)] with
    [0 < n <= M] returns the first [n] of them; [Readdir(0)] and a
    negative [n] return all of them; a larger [n] returns all of them
    with [io.EOF]. *)
Lemma Readdir_bound (f : Handle.File) (d : CDir) (n : Z) (fuel : nat)
    (w w' : World St) (l : list (DirEntry * CephStatx)) :
  Handle.f_dir f = Some d ->
  reads_plus d w l AtEnd w' ->
  (List.length l < fuel)%nat ->
  (0 < n <= Z.of_nat (List.length (listed f l)) ->
   exists w'',
     Handle.File_Readdir fuel f n w =
       Returns (firstn (Z.to_nat n) (listed f l), None) w'' /\
     List.length (firstn (Z.to_nat n) (listed f l)) = Z.to_nat n) /\
  (n <= 0 ->
   Handle.File_Readdir fuel f n w = Returns (listed f l, None) w') /\
  (Z.of_nat (List.length (listed f l)) < n ->
   Handle.File_Readdir fuel f n w = Returns (listed f l, Some IoEOF) w').
Proof.
  intros Hdir Hreads Hfuel.
  unfold Handle.File_Readdir; rewrite Hdir.
  split; [|split].
  - intros Hn.
    destruct (Readdir_loop_bounded f d _ _ _ _ Hreads n [] fuel Hfuel Hn)
      as [w'' Hloop].
    exists w''. replace (n =? 0) with false by (symmetry; apply Z.eqb_neq; lia).
    split; [exact Hloop|].
    apply firstn_length_le; lia.
  - intros Hn.
    rewrite (Readdir_loop_exhausts f d _ _ _ _ Hreads);
      [| exact Hfuel
       | destruct (n =? 0) eqn:E; [lia | apply Z.eqb_neq in E; lia]].
    replace (0 <? (if n =? 0 then -1 else n)) with false; [reflexivity|].
    symmetry; apply Z.ltb_ge. destruct (n =? 0); lia.
  - intros Hn.
    replace (n =? 0) with false by (symmetry; apply Z.eqb_neq; lia).
    rewrite (Readdir_loop_exhausts f d _ _ _ _ Hreads);
      [| exact Hfuel | right; exact Hn].
    replace (0 <? n) with true by (symmetry; apply Z.ltb_lt; lia).
    reflexivity.
Qed.

End ReaddirBound.

(** The same directory through [File.Readdir] of the two-capability
    handle: [Readdir(2)] returns the records of [a] and [b]. *)
Example Readdir_skips_dot_entries :
  let f := Handle.mkFile "/d" None (Some 1%nat) in
  let raw := [(mkDirEntry "." DTypeDir, Scripted.dir_statx);
              (mkDirEntry ".." DTypeDir, Scripted.dir_statx);
              (mkDirEntry "a" DTypeReg, Scripted.reg_statx);
              (mkDirEntry "b" DTypeReg, Scripted.reg_statx)] in
  let w := Scripted.world
             (map (fun p => Scripted.ReplyEntryPlus (fst p) (snd p)) raw
              ++ [Scripted.ReplyNil])%list in
  exists w',
    Handle.File_Readdir 5 f 2 w =
      Returns ([mkFileInfo Scripted.reg_statx "/d/a";
                mkFileInfo Scripted.reg_statx "/d/b"], None) w' /\
    map FileInfo_Name (listed f raw) = ["a"; "b"].
Proof.
  intros f raw w.
  assert (Hreads : reads_plus 1%nat w raw AtEnd
                     (mkWorld [] (repeat (CallReadDirPlus 1%nat) 5))).
  { do 4 (eapply reads_plus_entry; [vm_compute; reflexivity|]).
    apply reads_plus_end; vm_compute; reflexivity. }
  destruct (Readdir_bound f 1%nat 2 5%nat w _ raw eq_refl Hreads)
    as [Hbound _]; [cbn; lia|].
  destruct Hbound as (w' & Hrun & _); [cbn; lia|].
  exists w'; split; [exact Hrun | reflexivity].
Defined.

(* ===================================================================== *)
(** * File kinds of a translated mode *)
(* ===================================================================== *)

Lemma toFileMode_kind_ok_uint16 (mode : Z) :
  0 <= mode < 65536 -> toFileMode_kind_ok mode = true.
Proof.
  intros H.
  apply (all_below_sound 16 toFileMode_kind_ok 0); [vm_compute; reflexivity|].
  change (2 ^ Z.of_nat 16) with 65536; lia.
Qed.

Lemma FileInfo_IsDir_iff_uint16 (info : FileInfo) :
  0 <= sx_Mode (fi_stat info) < 65536 ->
  FileInfo_IsDir info = true ->
  Z.land (sx_Mode (fi_stat info)) S_IFMT = S_IFDIR.
Proof.
  intros H.
  pose proof (toFileMode_kind_ok_uint16 _ H) as Hok.
  unfold toFileMode_kind_ok in Hok.
  apply andb_true_iff in Hok as [Hdir _]. apply eqb_prop in Hdir.
  unfold FileInfo_IsDir, FileInfo_Mode. rewrite Hdir. apply Z.eqb_eq.
Qed.

(** X1.  [FileInfo.IsDir] answers true exactly for the stat records whose
    raw mode has the type nibble [S_IFDIR], whatever the permission,
    setuid, setgid and sticky bits are. *)
Theorem FileInfo_IsDir_iff (info : FileInfo) :
  0 <= sx_Mode (fi_stat info) < 65536 ->
  (FileInfo_IsDir info = true <->
   Z.land (sx_Mode (fi_stat info)) S_IFMT = S_IFDIR).
Proof.
  intros H.
  pose proof (toFileMode_kind_ok_uint16 _ H) as Hok.
  unfold toFileMode_kind_ok in Hok.
  apply andb_true_iff in Hok as [Hdir _]. apply eqb_prop in Hdir.
  unfold FileInfo_IsDir, FileInfo_Mode. rewrite Hdir. apply Z.eqb_eq.
Qed.

Lemma FileInfo_IsDir_iff_witness :
  0 <= sx_Mode (fi_stat (mkFileInfo (mkStatx 0x43ff 0 0 0) "/tmp")) < 65536 /\
  (FileInfo_IsDir (mkFileInfo (mkStatx 0x43ff 0 0 0) "/tmp") = true <->
   Z.land 0x43ff S_IFMT = S_IFDIR).
Proof.
  split; [cbn; lia|].
  apply (FileInfo_IsDir_iff (mkFileInfo (mkStatx 0x43ff 0 0 0) "/tmp")).
  cbn; lia.
Defined.

(** X2.  A translated mode is a regular file ([IsRegular]) exactly when
    the type nibble of the raw mode is none of directory, character
    device, block device, named pipe, symlink and socket: a nibble that
    is no POSIX file type at all is presented as a regular file. *)
Theorem toFileMode_IsRegular_iff (mode : Z) :
  0 <= mode < 65536 ->
  (FileMode_IsRegular (toFileMode mode) = true <->
   ~ In (Z.land mode S_IFMT) flagged_types).
Proof.
  intros H.
  pose proof (toFileMode_kind_ok_uint16 _ H) as Hok.
  unfold toFileMode_kind_ok in Hok.
  apply andb_true_iff in Hok as [_ Hreg]. apply eqb_prop in Hreg.
  rewrite Hreg, negb_true_iff.
  split.
  - intros Hnone Hin.
    assert (Hex : existsb (Z.eqb (Z.land mode S_IFMT)) flagged_types = true).
    { apply existsb_exists. exists (Z.land mode S_IFMT).
      split; [exact Hin | apply Z.eqb_refl]. }
    congruence.
  - intros Hnot.
    destruct (existsb _ flagged_types) eqn:Hex; [|reflexivity].
    apply existsb_exists in Hex as (t & Hin & Heq).
    apply Z.eqb_eq in Heq. subst t. contradiction.
Qed.

(** The nibble [0x3000] is no file type; [0xc000] is a socket. *)
Lemma toFileMode_IsRegular_iff_witness :
  (0 <= 0x31a4 < 65536 /\ FileMode_IsRegular (toFileMode 0x31a4) = true) /\
  (0 <= 0xc1a4 < 65536 /\ FileMode_IsRegular (toFileMode 0xc1a4) = false).
Proof.
  split; (split; [lia|]).
  - apply (toFileMode_IsRegular_iff 0x31a4); [lia|].
    vm_compute. intuition discriminate.
  - destruct (FileMode_IsRegular (toFileMode 0xc1a4)) eqn:E; [|reflexivity].
    apply (toFileMode_IsRegular_iff 0xc1a4) in E; [|lia].
    elim E. vm_compute. tauto.
Defined.

(* ===================================================================== *)
(** * Errors that are wrapped *)
(* ===================================================================== *)

Lemma strings_Contains_append (p s substr : string) :
  strings_Contains s substr = true -> strings_Contains (p ++ s) substr = true.
Proof.
  intros H. apply strings_Contains_spec in H as (a & b & ->).
  apply strings_Contains_spec. exists (p ++ a), b.
  induction p as [|c p IH]; cbn; [reflexivity | now rewrite IH].
Qed.

(** X3.  An error the adapter wrapped with [fmt.Errorf] and [%w] is
    classified by the Error Translator as the error inside it: not-found
    when that one matches the remote not-found error, and otherwise
    already-exists when its text holds the marker. *)
Theorem convertErr_through_Errorf (prefix : string) (e : error) :
  (errors_Is_ErrNotExist e = true ->
   convertErr (Some (Errorf prefix e)) = Some OsErrNotExist) /\
  (errors_Is_ErrNotExist e = false ->
   strings_Contains (Error e) "ret=-17" = true ->
   convertErr (Some (Errorf prefix e)) = Some OsErrExist).
Proof.
  split.
  - intros Hi. unfold convertErr, Errorf. cbn [errors_Is_ErrNotExist].
    now rewrite Hi.
  - intros Hi Hc. unfold convertErr, Errorf. cbn [errors_Is_ErrNotExist Error].
    now rewrite Hi, (strings_Contains_append prefix _ _ Hc).
Qed.

Lemma convertErr_through_Errorf_witness :
  let gone := CephErr true "cephfs: ret=-2, No such file or directory" in
  let busy := CephErr false "cephfs: ret=-17, File exists" in
  (errors_Is_ErrNotExist gone = true /\
   convertErr (Some (Errorf "failed to remove file /d/a: " gone))
     = Some OsErrNotExist) /\
  (errors_Is_ErrNotExist busy = false /\
   strings_Contains (Error busy) "ret=-17" = true /\
   convertErr (Some (Errorf "failed to open dir /d: " busy)) = Some OsErrExist).
Proof.
  intros gone busy.
  split.
  - split; [reflexivity|].
    apply (proj1 (convertErr_through_Errorf _ gone)); reflexivity.
  - split; [reflexivity|]. split; [reflexivity|].
    apply (proj2 (convertErr_through_Errorf _ busy)); reflexivity.
Defined.

(* ===================================================================== *)
(** * Filesystem Adapter: arguments and results *)
(* ===================================================================== *)

Lemma Perm_drops_flags (mode flags : Z) :
  Z.land flags ModePerm = 0 ->
  FileMode_Perm (Z.lor mode flags) = FileMode_Perm mode.
Proof.
  intros H. unfold FileMode_Perm.
  now rewrite Z.land_lor_distr_l, H, Z.lor_0_r.
Qed.

Lemma string_append_assoc (a b c : string) : (a ++ b) ++ c = a ++ b ++ c.
Proof. induction a as [|x a IH]; cbn; [reflexivity | now rewrite IH]. Qed.

Section Arguments.
Context {St : Type} {client : CephClient St}.

(** X4.  When the remote client refuses [MakeDir] with the already-exists
    marker, the error of [Mkdir] names the path and wraps the generic
    already-exists error, so [errors.Is] finds it; [os.IsExist], which
    does not unwrap, does not. *)
Theorem Mkdir_exists (path : string) (perm : Z) (w : World St)
    (raw : error) (s' : St) :
  c_MakeDir path (uint32 (FileMode_Perm perm)) (remote w) = (Some raw, s') ->
  errors_Is_ErrNotExist raw = false ->
  strings_Contains (Error raw) "ret=-17" = true ->
  exists e w',
    Fs_Mkdir path perm w = Returns (Some e) w' /\
    Error e = "failed to create directory " ++ path ++ ": file already exists" /\
    wraps e OsErrExist /\
    os_IsExist e = false.
Proof.
  intros Hcall Hi Hc.
  unfold Fs_Mkdir, bind, mount_MakeDir.
  rewrite (invoke_run _ _ _ _ _ Hcall).
  unfold convertErr. rewrite Hi, Hc.
  do 2 eexists; split; [reflexivity|].
  split; [|split]; [|apply wraps_Errorf, wraps_refl | reflexivity].
  cbn [Errorf_any Errorf Error].
  now rewrite !string_append_assoc.
Qed.

(** X5.  [Mkdir], [MkdirAll], [Chmod] and [OpenFile] hand only the nine
    permission bits of their [os.FileMode] argument to the remote client:
    setting any other bit of the argument (the setuid, setgid and sticky
    flags, a type flag) changes nothing of what they do. *)
Theorem permission_bits_only (path : string) (mode flags flag : Z) (w : World St) :
  Z.land flags ModePerm = 0 ->
  Fs_Mkdir path (Z.lor mode flags) w = Fs_Mkdir path mode w /\
  Fs_MkdirAll path (Z.lor mode flags) w = Fs_MkdirAll path mode w /\
  Fs_Chmod path (Z.lor mode flags) w = Fs_Chmod path mode w /\
  Handle.Fs_OpenFile path flag (Z.lor mode flags) w =
    Handle.Fs_OpenFile path flag mode w.
Proof.
  intros H.
  unfold Fs_Mkdir, Fs_MkdirAll, Fs_Chmod, Handle.Fs_OpenFile.
  rewrite (Perm_drops_flags mode flags H).
  repeat split.
Qed.

(** X6.  [OpenFile] of the two-capability revision returns a handle or an
    error, never both and never neither.  The handle carries the path as
    it was given and always has the file capability.  Whatever happens
    after the remote open, [OpenFile] does not close the remote file: no
    close call is logged, also when it returns an error. *)
Theorem OpenFile_result (path : string) (flag perm : Z) (w w' : World St)
    (file : option Handle.File) (err : option error) :
  Handle.Fs_OpenFile path flag perm w = Returns (file, err) w' ->
  (file = None <-> err <> None) /\
  (forall f, file = Some f ->
     Handle.File_Name f = path /\ Handle.f_file f <> None) /\
  exists delta,
    calls w' = (calls w ++ delta)%list /\
    forall c, In c delta ->
      (forall h, c <> CallFileClose h) /\ (forall d, c <> CallDirClose d).
Proof.
  unfold Handle.Fs_OpenFile, bind, mount_Open, file_Fstatx, mount_OpenDir.
  rewrite invoke_Returns.
  destruct (fst (c_Open _ _ _ _)) as [cfile|e0].
  - rewrite invoke_Returns. cbn [remote calls].
    destruct (fst (c_Fstatx _ _)) as [info|e1].
    + destruct (FileMode_IsDir _).
      * rewrite invoke_Returns. cbn [remote calls].
        destruct (fst (c_OpenDir _ _)) as [dir|e2].
        -- intros H; inversion H; subst; clear H.
           split; [split; [discriminate | intros E; now elim E]|].
           split; [intros f E; inversion E; split; [reflexivity | discriminate]|].
           eexists; split; [rewrite <- !app_assoc; reflexivity|].
           intros c [<-|[<-|[<-|[]]]]; split; discriminate.
        -- destruct (convertErr_Some e2) as [c2 Hc2]. rewrite Hc2.
           intros H; inversion H; subst; clear H.
           split; [split; [discriminate | reflexivity]|].
           split; [discriminate|].
           eexists; split; [rewrite <- !app_assoc; reflexivity|].
           intros c [<-|[<-|[<-|[]]]]; split; discriminate.
      * intros H; inversion H; subst; clear H.
        split; [split; [discriminate | intros E; now elim E]|].
        split; [intros f E; inversion E; split; [reflexivity | discriminate]|].
        eexists; split; [rewrite <- !app_assoc; reflexivity|].
        intros c [<-|[<-|[]]]; split; discriminate.
    + intros H; inversion H; subst; clear H.
      split; [split; [discriminate | reflexivity]|].
      split; [discriminate|].
      eexists; split; [rewrite <- !app_assoc; reflexivity|].
      intros c [<-|[<-|[]]]; split; discriminate.
  - destruct (convertErr_Some e0) as [c0 Hc0]. rewrite Hc0.
    intros H; inversion H; subst; clear H.
    split; [split; [discriminate | reflexivity]|].
    split; [discriminate|].
    eexists; split; [reflexivity|].
    intros c [<-|[]]; split; discriminate.
Qed.

(** X7.  On a handle without directory capability (the handle [Create]
    returns, the handle of an opened file), [Readdir] and [Readdirnames]
    fail with [ErrDirNil], return no entry and do not call the remote
    client. *)
Theorem nil_dir_guard (f : Handle.File) (fuel : nat) (n : Z) (w : World St) :
  Handle.f_dir f = None ->
  Handle.File_Readdir fuel f n w = Returns ([], Some ErrDirNil) w /\
  Handle.File_Readdirnames fuel f n w = Returns ([], Some ErrDirNil) w.
Proof.
  intros H.
  unfold Handle.File_Readdirnames, Handle.File_Readdir, bind.
  rewrite H. split; reflexivity.
Qed.

End Arguments.

Lemma Mkdir_exists_witness :
  let raw := CephErr false "cephfs: ret=-17, File exists" in
  let w := Scripted.world [Scripted.ReplyErr raw] in
  c_MakeDir "/d" (uint32 (FileMode_Perm 0x1ed)) (remote w) = (Some raw, []) /\
  exists e w',
    Fs_Mkdir "/d" 0x1ed w = Returns (Some e) w' /\
    Error e = "failed to create directory /d: file already exists" /\
    wraps e OsErrExist /\
    os_IsExist e = false.
Proof.
  intros raw w.
  split; [reflexivity|].
  apply (Mkdir_exists "/d" 0x1ed w raw []); reflexivity.
Defined.

(** The setuid flag of [os.FileMode] does not reach the remote client. *)
Lemma permission_bits_only_witness :
  let w := Scripted.world [Scripted.ReplyNil] in
  Z.land ModeSetuid ModePerm = 0 /\
  Fs_Chmod "/a" (Z.lor 0x1ed ModeSetuid) w = Fs_Chmod "/a" 0x1ed w /\
  Fs_Chmod "/a" 0x1ed w = Returns None (mkWorld [] [CallChmod "/a" 0x1ed]).
Proof.
  intros w.
  split; [reflexivity|].
  split; [|reflexivity].
  apply (permission_bits_only "/a" 0x1ed ModeSetuid 0 w); reflexivity.
Defined.

(** A directory whose [OpenDir] fails: the remote file stays open. *)
Lemma OpenFile_result_witness :
  let raw := CephErr false "cephfs: ret=-13, Permission denied" in
  let w := Scripted.world [Scripted.ReplyFile 7%nat;
                           Scripted.ReplyStatx Scripted.dir_statx;
                           Scripted.ReplyErr raw] in
  let w' := mkWorld [] [CallOpen "/d" 0 0; CallFstatx 7%nat; CallOpenDir "/d"] in
  Handle.Fs_OpenFile "/d" O_RDONLY 0 w = Returns (None, Some raw) w' /\
  exists delta,
    calls w' = (calls w ++ delta)%list /\
    forall c, In c delta ->
      (forall h, c <> CallFileClose h) /\ (forall d, c <> CallDirClose d).
Proof.
  intros raw w w'.
  assert (Hrun : Handle.Fs_OpenFile "/d" O_RDONLY 0 w = Returns (None, Some raw) w')
    by (vm_compute; reflexivity).
  split; [exact Hrun|].
  exact (proj2 (proj2 (OpenFile_result "/d" O_RDONLY 0 w w' None (Some raw) Hrun))).
Defined.

(** The handle of a created file has no directory capability. *)
Lemma nil_dir_guard_witness :
  let w := Scripted.world [Scripted.ReplyFile 7%nat] in
  let f := Handle.mkFile "/a" (Some 7%nat) None in
  let w1 := mkWorld [] [CallOpen "/a" 0x242 0x1b6] in
  Handle.Fs_Create "/a" w = Returns (Some f, None) w1 /\
  Handle.f_dir f = None /\
  Handle.File_Readdir 3 f 0 w1 = Returns ([], Some ErrDirNil) w1 /\
  Handle.File_Readdirnames 3 f 0 w1 = Returns ([], Some ErrDirNil) w1.
Proof.
  intros w f w1.
  split; [reflexivity|]. split; [reflexivity|].
  apply (nil_dir_guard f 3 0 w1); reflexivity.
Defined.

(* ===================================================================== *)
(** * Pages of [Readdir] on the two-capability handle *)
(* ===================================================================== *)

Lemma firstn_add {A : Type} (a b : nat) (l : list A) :
  firstn (a + b) l = (firstn a l ++ firstn b (skipn a l))%list.
Proof.
  revert l; induction a as [|a IH]; intros l; [reflexivity|].
  destruct l as [|x l]; cbn [Nat.add firstn skipn app].
  - now rewrite firstn_nil.
  - now rewrite IH.
Qed.

Section Pages.
Context {St : Type} {client : CephClient St}.

(** The bounded loop, with what it leaves: the directory cursor stands
    before the raw entries [l2], whose listing is the rest of the
    listing. *)
Lemma Readdir_loop_bounded_rest (f : Handle.File) (d : CDir) :
  forall w l e w',
    reads_plus d w l e w' ->
    forall count acc fuel,
      (List.length l < fuel)%nat ->
      0 < count <= Z.of_nat (List.length (listed f l)) ->
      exists w'' l2,
        Handle.Readdir_loop fuel f d count acc w =
          Returns ((acc ++ firstn (Z.to_nat count) (listed f l))%list, None) w'' /\
        reads_plus d w'' l2 e w' /\
        listed f l2 = skipn (Z.to_nat count) (listed f l) /\
        (List.length l2 <= List.length l)%nat.
Proof.
  induction 1 as [w w' Hread | w w' err Hread | w w1 w' [de sx] l e Hread Hrest IH];
    intros count acc fuel Hfuel Hcount;
    try (cbn in Hcount; lia).
  destruct fuel as [|fuel]; [inversion Hfuel|].
  cbn [List.length] in Hfuel.
  cbn [Handle.Readdir_loop].
  replace (count =? 0) with false by (symmetry; apply Z.eqb_neq; lia).
  rewrite (bind_run _ _ _ _ _ Hread).
  rewrite not_dot_test.
  destruct (is_dot (de_Name de)) eqn:Hdot; cbn [negb].
  - rewrite (listed_dot f de sx l Hdot) in *.
    destruct (IH count acc fuel) as (w'' & l2 & Hloop & Hcursor & Hlisted & Hlen);
      [lia | exact Hcount |].
    exists w'', l2. cbn [List.length]. repeat split; auto.
  - rewrite (listed_entry f de sx l Hdot) in *.
    cbn [List.length] in Hcount.
    replace (0 <? count) with true by (symmetry; apply Z.ltb_lt; lia).
    replace (Z.to_nat count) with (S (Z.to_nat (count - 1))) by lia.
    cbn [firstn skipn].
    destruct (Z.eq_dec (count - 1) 0) as [Hz|Hnz].
    + rewrite Hz. destruct fuel as [|fuel]; [lia|].
      cbn [Handle.Readdir_loop Z.eqb Z.to_nat firstn skipn].
      exists w1, l. cbn [List.length]. repeat split; auto.
    + destruct (IH (count - 1)
                  (acc ++ [mkFileInfo sx (Handle.f_path f ++ "/" ++ de_Name de)])%list
                  fuel) as (w'' & l2 & Hloop & Hcursor & Hlisted & Hlen);
        [lia | lia |].
      exists w'', l2. rewrite Hloop, <- app_assoc. cbn [List.length].
      repeat split; auto.
Qed.

(** X9.  Two calls of [Readdir] in a row page through the directory: the
    second call returns the entries that follow those of the first,
    nothing twice and nothing left out, so both pages together are the
    first [k1 + k2] entries. *)
Theorem Readdir_pages (f : Handle.File) (d : CDir) (k1 k2 : Z) (fuel : nat)
    (w w' : World St) (l : list (DirEntry * CephStatx)) (e : ending) :
  Handle.f_dir f = Some d ->
  reads_plus d w l e w' ->
  (List.length l < fuel)%nat ->
  0 < k1 -> 0 < k2 ->
  k1 + k2 <= Z.of_nat (List.length (listed f l)) ->
  exists page1 page2 w1 w2,
    Handle.File_Readdir fuel f k1 w = Returns (page1, None) w1 /\
    Handle.File_Readdir fuel f k2 w1 = Returns (page2, None) w2 /\
    (page1 ++ page2)%list = firstn (Z.to_nat (k1 + k2)) (listed f l) /\
    List.length page1 = Z.to_nat k1 /\
    List.length page2 = Z.to_nat k2.
Proof.
  intros Hdir Hreads Hfuel Hk1 Hk2 Hsum.
  unfold Handle.File_Readdir; rewrite Hdir.
  replace (k1 =? 0) with false by (symmetry; apply Z.eqb_neq; lia).
  replace (k2 =? 0) with false by (symmetry; apply Z.eqb_neq; lia).
  destruct (Readdir_loop_bounded_rest f d _ _ _ _ Hreads k1 [] fuel Hfuel)
    as (w1 & l2 & Hrun1 & Hcursor & Hlisted & Hlen); [lia|].
  assert (Hrest : Z.of_nat (List.length (listed f l2)) =
                  Z.of_nat (List.length (listed f l)) - k1).
  { rewrite Hlisted, length_skipn. lia. }
  destruct (Readdir_loop_bounded_rest f d _ _ _ _ Hcursor k2 [] fuel)
    as (w2 & l3 & Hrun2 & _); [lia | lia |].
  exists (firstn (Z.to_nat k1) (listed f l)),
         (firstn (Z.to_nat k2) (listed f l2)), w1, w2.
  split; [exact Hrun1|]. split; [exact Hrun2|].
  split; [|split].
  - rewrite Hlisted, Z2Nat.inj_add by lia. symmetry; apply firstn_add.
  - apply firstn_length_le; lia.
  - apply firstn_length_le; lia.
Qed.

(** The loop of [File.Readdir] never collects more than the remaining
    bound, and it stops without error only when the bound is used up. *)
Lemma Readdir_loop_length (f : Handle.File) (d : CDir) (fuel : nat) :
  forall count acc w l err w',
    0 <= count ->
    Handle.Readdir_loop fuel f d count acc w = Returns (l, err) w' ->
    exists extra,
      l = (acc ++ extra)%list /\
      Z.of_nat (List.length extra) <= count /\
      (err = None -> Z.of_nat (List.length extra) = count).
Proof.
  induction fuel as [|fuel IH]; intros count acc w l err w' Hcount Hrun;
    [discriminate|].
  cbn [Handle.Readdir_loop] in Hrun.
  destruct (count =? 0) eqn:Hz.
  - apply Z.eqb_eq in Hz. inversion Hrun; subst.
    exists []. rewrite app_nil_r. cbn. repeat split; lia.
  - apply Z.eqb_neq in Hz.
    apply bind_Returns in Hrun as (read & w1 & Hread & Hk).
    destruct read as [[[de sx]|]|e].
    + rewrite not_dot_test in Hk.
      destruct (is_dot (de_Name de)); cbn [negb] in Hk.
      * apply (IH _ _ _ _ _ _ Hcount Hk).
      * replace (0 <? count) with true in Hk by (symmetry; apply Z.ltb_lt; lia).
        apply IH in Hk as (extra & -> & Hle & Hfull); [|lia].
        exists (mkFileInfo sx (Handle.f_path f ++ "/" ++ de_Name de) :: extra).
        rewrite <- app_assoc. cbn [app List.length].
        split; [reflexivity|]. split; [lia|].
        intros E. specialize (Hfull E). lia.
    + replace (0 <? count) with true in Hk by (symmetry; apply Z.ltb_lt; lia).
      inversion Hk; subst.
      exists []. rewrite app_nil_r. cbn. repeat split; [lia | discriminate].
    + inversion Hk; subst.
      exists []. rewrite app_nil_r. cbn. repeat split; [lia | discriminate].
Qed.

(** X10.  Whatever the remote client does, [Readdir(n)] with [n > 0]
    returns at most [n] records, and when it returns fewer than [n] it
    returns a non-nil error with them ([io.EOF] or a failure): a nil error
    means a full page. *)
Theorem Readdir_page_length (f : Handle.File) (fuel : nat) (n : Z)
    (w w' : World St) (l : list FileInfo) (err : option error) :
  0 < n ->
  Handle.File_Readdir fuel f n w = Returns (l, err) w' ->
  Z.of_nat (List.length l) <= n /\
  (err = None -> Z.of_nat (List.length l) = n).
Proof.
  intros Hn Hrun. unfold Handle.File_Readdir in Hrun.
  destruct (Handle.f_dir f) as [d|].
  - replace (n =? 0) with false in Hrun by (symmetry; apply Z.eqb_neq; lia).
    destruct (Readdir_loop_length f d fuel n [] w l err w' ltac:(lia) Hrun)
      as (extra & -> & Hle & Hfull).
    cbn [app]. auto.
  - inversion Hrun; subst. cbn. split; [lia | discriminate].
Qed.

End Pages.

(** A directory of three entries, read in pages of one and two. *)
Lemma Readdir_pages_witness :
  let f := Handle.mkFile "/d" None (Some 1%nat) in
  let raw := [(mkDirEntry "." DTypeDir, Scripted.dir_statx);
              (mkDirEntry "a" DTypeReg, Scripted.reg_statx);
              (mkDirEntry "b" DTypeReg, Scripted.reg_statx);
              (mkDirEntry "c" DTypeReg, Scripted.reg_statx)] in
  let w := Scripted.world
             (map (fun p => Scripted.ReplyEntryPlus (fst p) (snd p)) raw
              ++ [Scripted.ReplyNil])%list in
  exists page1 page2 w1 w2,
    Handle.File_Readdir 5 f 1 w = Returns (page1, None) w1 /\
    Handle.File_Readdir 5 f 2 w1 = Returns (page2, None) w2 /\
    (page1 ++ page2)%list =
      [mkFileInfo Scripted.reg_statx "/d/a"; mkFileInfo Scripted.reg_statx "/d/b";
       mkFileInfo Scripted.reg_statx "/d/c"] /\
    List.length page1 = 1%nat /\ List.length page2 = 2%nat.
Proof.
  intros f raw w.
  assert (Hreads : reads_plus 1%nat w raw AtEnd
                     (mkWorld [] (repeat (CallReadDirPlus 1%nat) 5))).
  { do 4 (eapply reads_plus_entry; [vm_compute; reflexivity|]).
    apply reads_plus_end; vm_compute; reflexivity. }
  apply (Readdir_pages f 1%nat 1 2 5%nat w _ raw AtEnd eq_refl Hreads);
    cbn; lia.
Defined.

(** A page of three is asked of a directory of one entry. *)
Lemma Readdir_page_length_witness :
  let f := Handle.mkFile "/d" None (Some 1%nat) in
  let w := Scripted.world
             [Scripted.ReplyEntryPlus (mkDirEntry "a" DTypeReg) Scripted.reg_statx;
              Scripted.ReplyNil] in
  0 < 3 /\
  Handle.File_Readdir 3 f 3 w =
    Returns ([mkFileInfo Scripted.reg_statx "/d/a"], Some IoEOF)
            (mkWorld [] [CallReadDirPlus 1%nat; CallReadDirPlus 1%nat]) /\
  Z.of_nat (List.length [mkFileInfo Scripted.reg_statx "/d/a"]) <= 3.
Proof.
  intros f w.
  assert (Hrun : Handle.File_Readdir 3 f 3 w =
                 Returns ([mkFileInfo Scripted.reg_statx "/d/a"], Some IoEOF)
                   (mkWorld [] [CallReadDirPlus 1%nat; CallReadDirPlus 1%nat]))
    by (vm_compute; reflexivity).
  split; [lia|]. split; [exact Hrun|].
  apply (Readdir_page_length f 3 3 w _ _ (Some IoEOF) ltac:(lia) Hrun).
Defined.

(** Entry names as a remote directory yields them. *)
Lemma listed_names_witness :
  let f := Handle.mkFile "/d" None (Some 1%nat) in
  let raw := [(mkDirEntry ".." DTypeDir, Scripted.dir_statx);
              (mkDirEntry "a.txt" DTypeReg, Scripted.reg_statx)] in
  listed f raw = [mkFileInfo Scripted.reg_statx "/d/a.txt"] /\
  is_dot (FileInfo_Name (mkFileInfo Scripted.reg_statx "/d/a.txt")) = false.
Proof.
  intros f raw.
  split; [reflexivity|].
  apply (listed_names f raw).
  - intros p [<-|[<-|[]]]; (split; [discriminate|]);
      cbn; intros c Hc;
      repeat (destruct Hc as [<-|Hc]; [reflexivity|]); destruct Hc.
  - left; reflexivity.
Defined.

Section ListedNames.
Context {St : Type} {client : CephClient St}.

(** The loop of [File.Readdir] adds no record named ["."] or [".."]. *)
Lemma Readdir_loop_no_dot (P : St -> Prop) (f : Handle.File) (d : CDir)
    (fuel : nat) :
  yields_plain_names P ->
  forall count acc w l err w',
    P (remote w) ->
    (forall info, In info acc -> is_dot (FileInfo_Name info) = false) ->
    Handle.Readdir_loop fuel f d count acc w = Returns (l, err) w' ->
    forall info, In info l -> is_dot (FileInfo_Name info) = false.
Proof.
  intros Hnames.
  induction fuel as [|fuel IH]; intros count acc w l err w' HP Hacc Hrun;
    [discriminate|].
  cbn [Handle.Readdir_loop] in Hrun.
  destruct (count =? 0); [inversion Hrun; subst; exact Hacc|].
  apply bind_Returns in Hrun as (read & w1 & Hread & Hk).
  unfold dir_ReadDirPlus in Hread. rewrite invoke_Returns in Hread.
  inversion Hread as [[Hanswer Hworld]]; clear Hread.
  destruct (Hnames d (remote w) read (remote w1) HP) as [HP1 Hplain].
  { rewrite <- Hanswer, <- Hworld. cbn [remote].
    now destruct (c_ReadDirPlus d (remote w)). }
  destruct read as [[[de sx]|]|e].
  - rewrite not_dot_test in Hk.
    destruct (is_dot (de_Name de)) eqn:Hdot; cbn [negb] in Hk.
    + exact (IH _ _ _ _ _ _ HP1 Hacc Hk).
    + refine (IH _ _ _ _ _ _ HP1 _ Hk).
      intros info Hin. apply in_app_or in Hin as [Hin|[<-|[]]]; [now apply Hacc|].
      destruct (Hplain de sx eq_refl) as [Hne Hclean].
      unfold FileInfo_Name; cbn [fi_path].
      now rewrite (filepath_Base_child _ _ Hne Hclean).
  - destruct (0 <? count); inversion Hk; subst; exact Hacc.
  - inversion Hk; subst; exact Hacc.
Qed.

(** X26.  No record that [File.Readdir] of the two-capability handle
    returns is named ["."] or [".."], whatever the bound is and however
    the listing ends, when the entry names the remote client yields are
    not empty and hold no slash. *)
Theorem Readdir_lists_no_dot_entry (P : St -> Prop) (f : Handle.File)
    (fuel : nat) (n : Z) (w w' : World St) (l : list FileInfo)
    (err : option error) :
  yields_plain_names P ->
  P (remote w) ->
  Handle.File_Readdir fuel f n w = Returns (l, err) w' ->
  forall info, In info l -> is_dot (FileInfo_Name info) = false.
Proof.
  intros Hnames HP Hrun. unfold Handle.File_Readdir in Hrun.
  destruct (Handle.f_dir f) as [d|].
  - refine (Readdir_loop_no_dot P f d fuel Hnames _ _ _ _ _ _ HP _ Hrun).
    intros info [].
  - inversion Hrun; subst. intros info [].
Qed.

End ListedNames.

(** A script whose entries have plain names: the remote client yields
    [".."], then ["a.txt"], then the end. *)
Lemma Readdir_lists_no_dot_entry_witness :
  let plain (name : string) : Prop :=
    name <> EmptyString /\
    forall c, In c (list_ascii_of_string name) -> is_separator c = false in
  let P (s : list Scripted.Reply) : Prop :=
    forall de sx, In (Scripted.ReplyEntryPlus de sx) s -> plain (de_Name de) in
  let f := Handle.mkFile "/d" None (Some 1%nat) in
  let w := Scripted.world
             [Scripted.ReplyEntryPlus (mkDirEntry ".." DTypeDir) Scripted.dir_statx;
              Scripted.ReplyEntryPlus (mkDirEntry "a.txt" DTypeReg) Scripted.reg_statx;
              Scripted.ReplyNil] in
  let item := mkFileInfo Scripted.reg_statx "/d/a.txt" in
  yields_plain_names P /\
  P (remote w) /\
  Handle.File_Readdir 4 f 0 w =
    Returns ([item], None) (mkWorld [] (repeat (CallReadDirPlus 1%nat) 3)) /\
  is_dot (FileInfo_Name item) = false.
Proof.
  intros plain P f w item.
  assert (Hnames : yields_plain_names P).
  { intros d s r s' HP Hcall.
    destruct s as [|reply s]; cbn in Hcall; inversion Hcall; subst; clear Hcall.
    - split; [exact HP | discriminate].
    - split; [intros de sx Hin; apply (HP de sx); now right|].
      intros de sx E. destruct reply; try discriminate E.
      inversion E; subst. apply (HP de sx). now left. }
  assert (HP : P (remote w)).
  { intros de sx [E|[E|[E|[]]]]; inversion E; subst;
      (split; [discriminate|]);
      cbn; intros c Hc;
      repeat (destruct Hc as [<-|Hc]; [reflexivity|]); destruct Hc. }
  assert (Hrun : Handle.File_Readdir 4 f 0 w =
                 Returns ([item], None) (mkWorld [] (repeat (CallReadDirPlus 1%nat) 3)))
    by (vm_compute; reflexivity).
  split; [exact Hnames|]. split; [exact HP|]. split; [exact Hrun|].
  apply (Readdir_lists_no_dot_entry P f 4 0 w _ _ _ Hnames HP Hrun).
  left; reflexivity.
Defined.

(* ===================================================================== *)
(** * Recursive delete: what it touches *)
(* ===================================================================== *)

Lemma under_refl (root : string) : under root root.
Proof. now left. Qed.

Lemma under_child (root name p : string) :
  under (root ++ "/" ++ name) p -> under root p.
Proof.
  intros [-> | [rest ->]]; right.
  - exists name; reflexivity.
  - exists (name ++ "/" ++ rest).
    now rewrite !string_append_assoc.
Qed.

Section Confinement.
Context {St : Type} {client : CephClient St}.

Lemma confined_refl (root : string) (w : World St) : confined root w w.
Proof. exists []. split; [now rewrite app_nil_r | intros c []]. Qed.

Lemma confined_trans (root : string) (w w1 w2 : World St) :
  confined root w w1 -> confined root w1 w2 -> confined root w w2.
Proof.
  intros (d1 & E1 & H1) (d2 & E2 & H2).
  exists (d1 ++ d2)%list. split.
  - now rewrite E2, E1, app_assoc.
  - intros c Hc. apply in_app_or in Hc as [Hc|Hc]; auto.
Qed.

Lemma confined_deeper (root name : string) (w w' : World St) :
  confined (root ++ "/" ++ name) w w' -> confined root w w'.
Proof.
  intros (d & E & H). exists d. split; [exact E|].
  intros c Hc. destruct (H c Hc) as [Hkind Hpaths].
  split; [exact Hkind|]. intros p Hp. eapply under_child; eauto.
Qed.

Lemma confined_invoke {A : Type} (root : string) (c : Call) (op : St -> A * St)
    (w w' : World St) (a : A) :
  removal_call c = true ->
  (forall p, In p (call_paths c) -> under root p) ->
  invoke c op w = Returns a w' ->
  confined root w w'.
Proof.
  intros Hkind Hpaths Hrun. rewrite invoke_Returns in Hrun.
  inversion Hrun; subst. exists [c]. split; [reflexivity|].
  intros c' [<-|[]]; auto.
Qed.

Lemma confined_Stat (root : string) (w w' : World St)
    (r : option FileInfo * option error) :
  Fs_Stat root w = Returns r w' -> confined root w w'.
Proof.
  intros H. exists [CallStatx root]. split; [eapply Fs_Stat_calls; eauto|].
  intros c [<-|[]]. split; [reflexivity|].
  intros p [<-|[]]. apply under_refl.
Qed.

Ltac one_call :=
  eapply confined_invoke; [ | | eassumption]; [reflexivity|];
  let p := fresh "p" in
  let Hp := fresh "Hp" in
  intros p Hp; cbn [call_paths In] in Hp;
  first [ contradiction
        | destruct Hp as [<-|Hp];
          [first [apply under_refl | right; eexists; reflexivity]
          | contradiction] ].

(** Every delete the specification describes is confined to its target. *)
Lemma removes_confined :
  (forall path w c w', removes path w c w' -> confined path w w') /\
  (forall path (dir : CDir) w (c : option error) w',
      children path dir w c w' -> confined path w w') /\
  (forall path (de : DirEntry) w (c : option error) w',
      child path de w c w' -> confined path w w').
Proof.
  apply removes_children_child_ind.
  - intros path w w' info err Hstat _. eapply confined_Stat; eauto.
  - intros path w w' info err Hstat _. eapply confined_Stat; eauto.
  - intros path w w1 w' stat c Hstat _ Hremove.
    eapply confined_trans; [eapply confined_Stat; eauto|].
    unfold Fs_Remove in Hremove.
    apply bind_Returns in Hremove as (e & w2 & Hcall & Hk).
    apply ret_Returns in Hk as [_ <-]. unfold mount_Unlink in Hcall. one_call.
  - intros path w w1 w' stat err Hstat _ Hopen.
    eapply confined_trans; [eapply confined_Stat; eauto|].
    unfold mount_OpenDir in Hopen. one_call.
  - intros path w w1 w2 w3 w4 w' stat dir c closed
           Hstat _ Hopen _ Hchildren Hrmdir Hclose.
    eapply confined_trans; [eapply confined_Stat; eauto|].
    eapply confined_trans; [unfold mount_OpenDir in Hopen; one_call|].
    eapply confined_trans; [exact Hchildren|].
    eapply confined_trans; [unfold mount_RemoveDir in Hrmdir; one_call|].
    unfold dir_Close in Hclose. one_call.
  - intros path w w1 w2 w3 w' stat dir err closed
           Hstat _ Hopen _ Hchildren Hclose.
    eapply confined_trans; [eapply confined_Stat; eauto|].
    eapply confined_trans; [unfold mount_OpenDir in Hopen; one_call|].
    eapply confined_trans; [exact Hchildren|].
    unfold dir_Close in Hclose. one_call.
  - intros path dir w w' Hread. unfold dir_ReadDir in Hread. one_call.
  - intros path dir w w' err Hread. unfold dir_ReadDir in Hread. one_call.
  - intros path dir w w1 w2 w' de c Hread _ Hchild _ Hrest.
    eapply confined_trans; [unfold dir_ReadDir in Hread; one_call|].
    eapply confined_trans; eassumption.
  - intros path dir w w1 w' de err Hread _ Hchild.
    eapply confined_trans; [unfold dir_ReadDir in Hread; one_call | exact Hchild].
  - intros path de w _. apply confined_refl.
  - intros path de w w' c _ _ _ Hrec. eapply confined_deeper; eauto.
  - intros path de w w' c _ _ Hunlink. unfold mount_Unlink in Hunlink. one_call.
  - intros path de w w' c _ _ _ _ Hunlink. unfold mount_Unlink in Hunlink. one_call.
Qed.

(** X11.  [RemoveAll(path)] stays inside its target: every remote call
    it makes is a stat, an open, read or close of a directory, an unlink
    or a rmdir, and every path it hands to the remote client is [path]
    itself or [path] followed by ["/"] and more. *)
Theorem RemoveAll_confined (fuel : nat) (path : string) (w w' : World St)
    (r : option error) :
  Fs_RemoveAll fuel path w = Returns r w' ->
  confined path w w'.
Proof.
  intros Hrun.
  destruct (RemoveAll_sound fuel path w r w' Hrun) as (c & Hremoves & _).
  exact (proj1 removes_confined path w c w' Hremoves).
Qed.

(** X12.  A directory that [RemoveAll] opened is closed when
    [RemoveAll] returns, also when a child or the rmdir failed: the close
    of that directory is the last call it makes. *)
Theorem RemoveAll_closes_directory (fuel : nat) (path : string)
    (w w1 w2 w' : World St) (stat : FileInfo) (d : CDir) (r : option error) :
  Fs_Stat path w = Returns (Some stat, None) w1 ->
  FileInfo_IsDir stat = true ->
  mount_OpenDir path w1 = Returns (Ok d) w2 ->
  Fs_RemoveAll fuel path w = Returns r w' ->
  exists before, calls w' = (before ++ [CallDirClose d])%list.
Proof.
  intros Hstat Hisdir Hopen Hrun.
  destruct fuel as [|fuel]; [discriminate|].
  rewrite Fs_RemoveAll_step, (bind_run _ _ _ _ _ Hstat), Hisdir in Hrun.
  cbn [negb] in Hrun. rewrite (bind_run _ _ _ _ _ Hopen) in Hrun.
  apply bind_Returns in Hrun as (res & w3 & _ & Hk).
  assert (Hclose : forall k w4,
    (dir_Close d ;;; k)%adapter w4 = Returns r w' ->
    (forall v, exists a, k v = Returns a v) ->
    exists before, calls w' = (before ++ [CallDirClose d])%list).
  { intros k w4 H Hret.
    apply bind_Returns in H as (closed & w5 & Hc & Hk').
    unfold dir_Close in Hc. rewrite invoke_Returns in Hc.
    inversion Hc; subst.
    destruct (Hret (mkWorld (snd (c_DirClose d (remote w4)))
                            (calls w4 ++ [CallDirClose d])%list)) as [a Ha].
    rewrite Ha in Hk'. inversion Hk'; subst. eexists; reflexivity. }
  destruct res as [e|].
  - eapply Hclose; [exact Hk|]. intros v; eexists; reflexivity.
  - apply bind_Returns in Hk as (removed & w4 & _ & Hk).
    eapply Hclose; [exact Hk|]. intros v; eexists; reflexivity.
Qed.

End Confinement.

(** A directory with a file and a sub-directory: every path is under
    ["/d"], and the last call closes the directory. *)
Lemma RemoveAll_confined_witness :
  let w := Scripted.world
             [Scripted.ReplyStatx Scripted.dir_statx;
              Scripted.ReplyDir 1%nat;
              Scripted.ReplyEntry (mkDirEntry "a" DTypeReg);
              Scripted.ReplyNil;
              Scripted.ReplyEntry (mkDirEntry "sub" DTypeDir);
              Scripted.ReplyStatx Scripted.reg_statx;
              Scripted.ReplyNil;
              Scripted.ReplyNil;
              Scripted.ReplyNil;
              Scripted.ReplyNil] in
  let w' := mkWorld []
              [CallStatx "/d"; CallOpenDir "/d"; CallReadDir 1%nat;
               CallUnlink "/d/a"; CallReadDir 1%nat;
               CallStatx "/d/sub"; CallUnlink "/d/sub"; CallReadDir 1%nat;
               CallRemoveDir "/d"; CallDirClose 1%nat] in
  Fs_RemoveAll 4 "/d" w = Returns None w' /\ confined "/d" w w'.
Proof.
  intros w w'.
  assert (Hrun : Fs_RemoveAll 4 "/d" w = Returns None w')
    by (vm_compute; reflexivity).
  split; [exact Hrun|].
  exact (RemoveAll_confined 4 "/d" w w' None Hrun).
Defined.

(** The rmdir of the directory fails: it is closed all the same. *)
Lemma RemoveAll_closes_directory_witness :
  let busy := CephErr false "cephfs: ret=-39, Directory not empty" in
  let w := Scripted.world
             [Scripted.ReplyStatx Scripted.dir_statx;
              Scripted.ReplyDir 1%nat;
              Scripted.ReplyNil;
              Scripted.ReplyErr busy;
              Scripted.ReplyNil] in
  let w' := mkWorld []
              [CallStatx "/d"; CallOpenDir "/d"; CallReadDir 1%nat;
               CallRemoveDir "/d"; CallDirClose 1%nat] in
  Fs_RemoveAll 2 "/d" w = Returns (Some busy) w' /\
  exists before, calls w' = (before ++ [CallDirClose 1%nat])%list.
Proof.
  intros busy w w'.
  assert (Hrun : Fs_RemoveAll 2 "/d" w = Returns (Some busy) w')
    by (vm_compute; reflexivity).
  split; [exact Hrun|].
  eapply (RemoveAll_closes_directory 2 "/d" w _ _ w'
            (mkFileInfo Scripted.dir_statx "/d") 1%nat (Some busy));
    [vm_compute; reflexivity | reflexivity | vm_compute; reflexivity | exact Hrun].
Defined.

(* ===================================================================== *)
(** * The revision with [listFromDir] *)
(* ===================================================================== *)

Section ListingFacts.
Context {St : Type} {client : CephClient St}.

(** X13.  The end-of-directory convention of [listFromDir]: when the
    directory ends before the bound is reached, it returns the items it
    collected with a nil error, not with [io.EOF] as [File.Readdir] of the
    other revision does. *)
Theorem listFromDir_end_of_directory (T : Type) (file : Listing.File)
    (callback : DirEntry -> M St (result T)) (d : CDir) (n : Z) (fuel : nat)
    (w w1 w2 w3 w4 : World St) (stat : FileInfo) (items : list T)
    (closed : option error) :
  Listing.File_Stat file w = Returns (Some stat, None) w1 ->
  FileInfo_IsDir stat = true ->
  mount_OpenDir (Listing.f_path file) w1 = Returns (Ok d) w2 ->
  collects d callback w2 items AtEnd w3 ->
  dir_Close d w3 = Returns closed w4 ->
  Z.of_nat (List.length items) < n ->
  (List.length items < fuel)%nat ->
  Listing.listFromDir fuel file n callback w = Returns (items, None) w4.
Proof.
  intros Hstat Hisdir Hopen Hcollects Hclose Hn Hfuel.
  unfold Listing.listFromDir.
  rewrite (bind_run _ _ _ _ _ Hstat), Hisdir, (bind_run _ _ _ _ _ Hopen).
  erewrite bind_run;
    [| apply (listFromDir_loop_exhausts d callback _ _ _ _ Hcollects);
       [exact Hfuel | destruct (n =? 0) eqn:Hz; [lia | right; lia]]].
  rewrite (bind_run _ _ _ _ _ Hclose). reflexivity.
Qed.

(** X14.  [listFromDir] on a handle that is no directory fails with
    ["not a directory"], and when the stat of the handle fails it returns
    that failure as it is; in both cases the stat is the only remote
    call: no directory is opened. *)
Theorem listFromDir_not_a_directory (T : Type) (file : Listing.File)
    (callback : DirEntry -> M St (result T)) (n : Z) (fuel : nat)
    (w : World St) (s' : St) :
  let w' := mkWorld s' (calls w ++ [CallFstatx (Listing.f_File file)])%list in
  (forall stat,
      c_Fstatx (Listing.f_File file) (remote w) = (Ok stat, s') ->
      Z.land (sx_Mode stat) S_IFMT <> S_IFDIR ->
      0 <= sx_Mode stat < 65536 ->
      Listing.listFromDir fuel file n callback w =
        Returns ([], Some (ErrorsNew "not a directory")) w') /\
  (forall raw,
      c_Fstatx (Listing.f_File file) (remote w) = (Err raw, s') ->
      Listing.listFromDir fuel file n callback w = Returns ([], Some raw) w').
Proof.
  intros w'. split.
  - intros stat Hcall Hkind Hrange.
    unfold Listing.listFromDir, Listing.File_Stat, bind, file_Fstatx.
    rewrite (invoke_run _ _ _ _ _ Hcall). unfold ret.
    destruct (FileInfo_IsDir (mkFileInfo stat (Listing.f_path file))) eqn:Hisdir;
      [|reflexivity].
    apply FileInfo_IsDir_iff_uint16 in Hisdir; [contradiction | exact Hrange].
  - intros raw Hcall.
    unfold Listing.listFromDir, Listing.File_Stat, bind, file_Fstatx.
    rewrite (invoke_run _ _ _ _ _ Hcall). reflexivity.
Qed.

(** The loop of [listFromDir] never collects more than the remaining
    bound. *)
Lemma listFromDir_loop_length (T : Type) (d : CDir)
    (callback : DirEntry -> M St (result T)) (fuel : nat) :
  forall count acc w l err w',
    0 <= count ->
    Listing.listFromDir_loop fuel d count acc callback w = Returns (l, err) w' ->
    exists extra, l = (acc ++ extra)%list /\ Z.of_nat (List.length extra) <= count.
Proof.
  induction fuel as [|fuel IH]; intros count acc w l err w' Hcount Hrun;
    [discriminate|].
  cbn [Listing.listFromDir_loop] in Hrun.
  destruct (count =? 0) eqn:Hz.
  - inversion Hrun; subst. exists []. rewrite app_nil_r. cbn. split; [reflexivity | lia].
  - apply Z.eqb_neq in Hz.
    apply bind_Returns in Hrun as (read & w1 & Hread & Hk).
    destruct read as [[de|]|e];
      try (inversion Hk; subst; exists []; rewrite app_nil_r; cbn;
           split; [reflexivity | lia]).
    apply bind_Returns in Hk as (res & w2 & Hcall & Hk).
    destruct res as [item|e];
      [| inversion Hk; subst; exists []; rewrite app_nil_r; cbn;
         split; [reflexivity | lia]].
    replace (0 <? count) with true in Hk by (symmetry; apply Z.ltb_lt; lia).
    apply IH in Hk as (extra & -> & Hle); [|lia].
    exists (item :: extra). rewrite <- app_assoc. cbn [app List.length].
    split; [reflexivity | lia].
Qed.

(** X15.  Whatever the remote client and the transform do,
    [listFromDir] with a bound [n > 0] returns at most [n] items. *)
Theorem listFromDir_page_length (T : Type) (file : Listing.File)
    (callback : DirEntry -> M St (result T)) (n : Z) (fuel : nat)
    (w w' : World St) (l : list T) (err : option error) :
  0 < n ->
  Listing.listFromDir fuel file n callback w = Returns (l, err) w' ->
  Z.of_nat (List.length l) <= n.
Proof.
  intros Hn Hrun. unfold Listing.listFromDir in Hrun.
  apply bind_Returns in Hrun as ([info e] & w1 & _ & Hk).
  destruct e as [e|].
  - assert (l = []) as -> by (destruct info; inversion Hk; reflexivity).
    cbn; lia.
  - destruct info as [stat|]; [|discriminate].
    destruct (FileInfo_IsDir stat); [|inversion Hk; subst; cbn; lia].
    apply bind_Returns in Hk as (opened & w2 & _ & Hk).
    destruct opened as [d|e]; [|inversion Hk; subst; cbn; lia].
    apply bind_Returns in Hk as ([l0 err0] & w3 & Hloop & Hk).
    apply bind_Returns in Hk as (closed & w4 & _ & Hk).
    inversion Hk; subst.
    replace (n =? 0) with false in Hloop by (symmetry; apply Z.eqb_neq; lia).
    apply listFromDir_loop_length in Hloop as (extra & -> & Hle); [|lia].
    exact Hle.
Qed.

(** X16.  In this revision [Open(path)] and [OpenFile(path, O_RDONLY, 0)]
    make the same remote call and return the same handle when it
    succeeds; when it fails, [Open] returns the Error Translator's image
    of the failure and [OpenFile] the failure as it is. *)
Theorem Open_and_OpenFile (path : string) (w : World St)
    (r : result CFile) (s' : St) :
  c_Open path O_RDONLY 0 (remote w) = (r, s') ->
  let w' := mkWorld s' (calls w ++ [CallOpen path O_RDONLY 0])%list in
  match r with
  | Ok cfile =>
      Listing.Fs_Open path w = Returns (Some (Listing.mkFile cfile path), None) w' /\
      Listing.Fs_OpenFile path O_RDONLY 0 w =
        Returns (Some (Listing.mkFile cfile path), None) w'
  | Err raw =>
      Listing.Fs_Open path w = Returns (None, convertErr (Some raw)) w' /\
      Listing.Fs_OpenFile path O_RDONLY 0 w = Returns (None, Some raw) w'
  end.
Proof.
  intros Hcall w'.
  unfold Listing.Fs_Open, Listing.Fs_OpenFile, bind, mount_Open.
  change (uint32 (FileMode_Perm 0)) with 0.
  rewrite (invoke_run _ _ _ _ _ Hcall).
  destruct r; split; reflexivity.
Qed.

End ListingFacts.

(* ===================================================================== *)
(** * Connection arguments *)
(* ===================================================================== *)


Lemma string_length_append (a b : string) :
  String.length (a ++ b) = (String.length a + String.length b)%nat.
Proof. induction a as [|c a IH]; cbn; [reflexivity | now rewrite IH]. Qed.

Lemma substring_all (t : string) : substring 0 (String.length t) t = t.
Proof. induction t as [|c t IH]; cbn; [reflexivity | now rewrite IH]. Qed.

Lemma substring_skip (p t : string) (n : nat) :
  substring (String.length p) n (p ++ t) = substring 0 n t.
Proof. induction p as [|c p IH]; cbn; [reflexivity | exact IH]. Qed.

Lemma CutPrefix_found (p t : string) : strings_CutPrefix (p ++ t) p = (t, true).
Proof.
  unfold strings_CutPrefix. rewrite prefix_append, string_length_append.
  replace (String.length p + String.length t - String.length p)%nat
    with (String.length t) by lia.
  now rewrite substring_skip, substring_all.
Qed.

Lemma CutPrefix_missing (s p : string) :
  String.prefix p s = false -> strings_CutPrefix s p = (s, false).
Proof. intros H; unfold strings_CutPrefix; now rewrite H. Qed.

(** One argument changes the arguments by the first prefix of the order
    that it begins with. *)
Lemma apply_prefixes_find (order : list (string * argField)) (arg : string)
    (myArgs : cephArgs) :
  apply_prefixes order arg myArgs =
  match find (fun entry => String.prefix (fst entry) arg) order with
  | Some (p, ptr) => set_arg ptr (fst (strings_CutPrefix arg p)) myArgs
  | None => myArgs
  end.
Proof.
  induction order as [|[p ptr] order IH]; cbn [apply_prefixes find fst];
    [reflexivity|].
  unfold strings_CutPrefix at 1.
  destruct (String.prefix p arg) eqn:Hp.
  - unfold strings_CutPrefix. now rewrite Hp.
  - exact IH.
Qed.

(** No argument begins with two of the prefixes. *)
Lemma prefixes_exclusive (arg : string) (x y : string * argField) :
  In x prefixes -> In y prefixes ->
  String.prefix (fst x) arg = true -> String.prefix (fst y) arg = true ->
  x = y.
Proof.
  intros Hx Hy Hpx Hpy.
  apply prefix_split in Hpx as [t ->].
  unfold prefixes in Hx, Hy. cbn [In] in Hx, Hy.
  repeat (destruct Hx as [<-|Hx]; [|]); try contradiction;
    repeat (destruct Hy as [<-|Hy]; [|]); try contradiction;
    try reflexivity; cbn in Hpy; discriminate Hpy.
Qed.

Lemma find_exclusive {A : Type} (P : A -> bool) (l l' : list A) :
  (forall x y, In x l -> In y l -> P x = true -> P y = true -> x = y) ->
  Permutation l' l ->
  find P l' = find P l.
Proof.
  intros Hone Hperm.
  destruct (find P l) as [x|] eqn:Hl.
  - apply find_some in Hl as [Hx HPx].
    destruct (find P l') as [y|] eqn:Hl'.
    + apply find_some in Hl' as [Hy HPy].
      f_equal. apply Hone; auto. eapply Permutation_in; eauto.
    + assert (Hx' : In x l')
        by (eapply Permutation_in; [apply Permutation_sym|]; eauto).
      rewrite (find_none _ _ Hl' x Hx') in HPx. discriminate.
  - destruct (find P l') as [y|] eqn:Hl'; [|reflexivity].
    apply find_some in Hl' as [Hy HPy].
    assert (Hy' : In y l) by (eapply Permutation_in; eauto).
    rewrite (find_none _ _ Hl y Hy') in HPy. discriminate.
Qed.

Lemma apply_prefixes_any_order (order : list (string * argField)) (arg : string)
    (myArgs : cephArgs) :
  Permutation order prefixes ->
  apply_prefixes order arg myArgs = apply_prefixes prefixes arg myArgs.
Proof.
  intros Hperm. rewrite !apply_prefixes_find.
  rewrite (find_exclusive _ prefixes order); [reflexivity | | exact Hperm].
  intros x y Hx Hy. apply prefixes_exclusive; assumption.
Qed.

Lemma parse_args_any_order (orders : nat -> list (string * argField))
    (args : list string) :
  (forall i, Permutation (orders i) prefixes) ->
  forall i j myArgs,
    parse_args orders i args myArgs = parse_args (fun _ => prefixes) j args myArgs.
Proof.
  intros Hperm. induction args as [|arg args IH]; intros i j myArgs;
    cbn [parse_args]; [reflexivity|].
  rewrite (apply_prefixes_any_order _ _ _ (Hperm i)). apply IH.
Qed.

Lemma getCephArgs_canonical (orders : nat -> list (string * argField))
    (env : string) :
  (forall i, Permutation (orders i) prefixes) ->
  getCephArgs orders env = getCephArgs (fun _ => prefixes) env.
Proof. intros H. unfold getCephArgs. now apply parse_args_any_order. Qed.

(** X17.  The result of [getCephArgs] does not depend on the order in
    which Go ranges over the [prefixes] map: any two choices of orders
    give the same arguments. *)
Theorem getCephArgs_any_order (orders1 orders2 : nat -> list (string * argField))
    (env : string) :
  (forall i, Permutation (orders1 i) prefixes) ->
  (forall i, Permutation (orders2 i) prefixes) ->
  getCephArgs orders1 env = getCephArgs orders2 env.
Proof.
  intros H1 H2.
  now rewrite (getCephArgs_canonical orders1), (getCephArgs_canonical orders2).
Qed.

Lemma getCephArgs_any_order_witness :
  (forall i : nat, Permutation (ScriptedSession.backwards i) prefixes) /\
  (forall i : nat, Permutation (ScriptedSession.in_order i) prefixes) /\
  getCephArgs ScriptedSession.backwards "-n=client.admin --name=client.x -k=/k" =
  getCephArgs ScriptedSession.in_order "-n=client.admin --name=client.x -k=/k" /\
  getCephArgs ScriptedSession.in_order "-n=client.admin --name=client.x -k=/k" =
  mkCephArgs "client.x" "/k" EmptyString.
Proof.
  assert (Hback : forall i : nat, Permutation (ScriptedSession.backwards i) prefixes)
    by (intros i; apply Permutation_sym, Permutation_rev).
  assert (Hin : forall i : nat, Permutation (ScriptedSession.in_order i) prefixes)
    by (intros i; apply Permutation_refl).
  split; [exact Hback|]. split; [exact Hin|].
  split; [|reflexivity].
  apply (getCephArgs_any_order _ _ _ Hback Hin).
Defined.

Lemma get_set_arg (f g : argField) (s : string) (myArgs : cephArgs) :
  get_arg f (set_arg g s myArgs) = if
    match f, g with
    | ArgName, ArgName | ArgConfigPath, ArgConfigPath
    | ArgKeyringPath, ArgKeyringPath => true
    | _, _ => false
    end then s else get_arg f myArgs.
Proof. destruct f, g, myArgs; reflexivity. Qed.

(** An argument that begins with no prefix of the field [f] leaves [f]
    as it is. *)
Lemma apply_prefixes_other (f : argField) (arg : string) (myArgs : cephArgs) :
  (forall q, In (q, f) prefixes -> String.prefix q arg = false) ->
  get_arg f (apply_prefixes prefixes arg myArgs) = get_arg f myArgs.
Proof.
  intros Hnone. rewrite apply_prefixes_find.
  destruct (find _ prefixes) as [[p ptr]|] eqn:Hfind; [|reflexivity].
  apply find_some in Hfind as [Hin Hp]. cbn [fst] in Hp.
  rewrite get_set_arg.
  destruct f, ptr; try reflexivity;
    rewrite (Hnone p Hin) in Hp; discriminate.
Qed.

(** An argument [p ++ value], for a prefix [p] of the field [f], sets [f]
    to [value]. *)
Lemma apply_prefixes_match (f : argField) (p value : string) (myArgs : cephArgs) :
  In (p, f) prefixes ->
  get_arg f (apply_prefixes prefixes (p ++ value) myArgs) = value.
Proof.
  intros Hin. rewrite apply_prefixes_find.
  destruct (find _ prefixes) as [[p' ptr]|] eqn:Hfind.
  - apply find_some in Hfind as [Hin' Hp']. cbn [fst] in Hp'.
    assert (E : (p', ptr) = (p, f)).
    { apply (prefixes_exclusive (p ++ value)); auto. cbn. apply prefix_append. }
    inversion E; subst. rewrite CutPrefix_found, get_set_arg.
    destruct f; reflexivity.
  - pose proof (find_none _ _ Hfind _ Hin) as Hno. cbn [fst] in Hno.
    rewrite prefix_append in Hno. discriminate.
Qed.

Lemma parse_args_other (f : argField) (args : list string) :
  (forall a q, In a args -> In (q, f) prefixes -> String.prefix q a = false) ->
  forall i myArgs,
    get_arg f (parse_args (fun _ => prefixes) i args myArgs) = get_arg f myArgs.
Proof.
  induction args as [|arg args IH]; intros Hnone i myArgs; cbn [parse_args];
    [reflexivity|].
  rewrite IH by (intros a q Ha; apply Hnone; now right).
  apply apply_prefixes_other. intros q; apply Hnone; now left.
Qed.

Lemma parse_args_append (args1 args2 : list string) :
  forall i myArgs,
    parse_args (fun _ => prefixes) i (args1 ++ args2) myArgs =
    parse_args (fun _ => prefixes) i args2
      (parse_args (fun _ => prefixes) i args1 myArgs).
Proof.
  induction args1 as [|arg args1 IH]; intros i myArgs; cbn [parse_args app];
    [reflexivity|].
  rewrite (IH (S i)).
  apply (parse_args_any_order (fun _ => prefixes) args2 (fun _ => Permutation_refl _)).
Qed.

(** X18.  What [getCephArgs] returns for a field (the name, the config
    path, the keyring path): the value of the last argument of
    [CEPH_ARGS] that begins with a prefix of that field ([-n=] and
    [--name=] both stand for the name), and the empty string when no
    argument does.  Arguments with no known prefix are passed over. *)
Theorem getCephArgs_last_wins (orders : nat -> list (string * argField))
    (env : string) (f : argField) :
  (forall i, Permutation (orders i) prefixes) ->
  (forall before p value after,
      strings_Fields env = (before ++ (p ++ value)%string :: after)%list ->
      In (p, f) prefixes ->
      (forall a q, In a after -> In (q, f) prefixes -> String.prefix q a = false) ->
      get_arg f (getCephArgs orders env) = value) /\
  ((forall a q, In a (strings_Fields env) -> In (q, f) prefixes ->
                String.prefix q a = false) ->
   get_arg f (getCephArgs orders env) = EmptyString).
Proof.
  intros Hperm. rewrite (getCephArgs_canonical orders env Hperm).
  unfold getCephArgs. split.
  - intros before p value after Hfields Hin Hafter.
    rewrite Hfields, parse_args_append. cbn [parse_args].
    rewrite parse_args_other by exact Hafter.
    now apply apply_prefixes_match.
  - intros Hnone. rewrite parse_args_other by exact Hnone.
    destruct f; reflexivity.
Qed.

(** The arguments are set apart by a no-break space and by a tab. *)
Lemma getCephArgs_last_wins_witness :
  let env := "-n=client.admin" ++ ScriptedSession.nbsp ++ "--name=client.x"
             ++ ScriptedSession.nbsp ++ "foo" ++ String "009" "-k=/k" in
  (forall i : nat, Permutation (ScriptedSession.backwards i) prefixes) /\
  strings_Fields env =
    (["-n=client.admin"] ++ ("--name=" ++ "client.x")%string :: ["foo"; "-k=/k"])%list /\
  get_arg ArgName (getCephArgs ScriptedSession.backwards env) = "client.x" /\
  get_arg ArgConfigPath (getCephArgs ScriptedSession.backwards env) = EmptyString.
Proof.
  intros env.
  assert (Hback : forall i : nat, Permutation (ScriptedSession.backwards i) prefixes)
    by (intros i; apply Permutation_sym, Permutation_rev).
  assert (Hfields : strings_Fields env =
    (["-n=client.admin"] ++ ("--name=" ++ "client.x")%string :: ["foo"; "-k=/k"])%list)
    by (vm_compute; reflexivity).
  split; [exact Hback|]. split; [exact Hfields|].
  split.
  - apply (proj1 (getCephArgs_last_wins ScriptedSession.backwards env ArgName Hback)
             ["-n=client.admin"] "--name=" "client.x" ["foo"; "-k=/k"]);
      [exact Hfields | right; left; reflexivity |].
    intros a q [<-|[<-|[]]] [E|[E|[E|[E|[]]]]]; inversion E; reflexivity.
  - apply (proj2 (getCephArgs_last_wins ScriptedSession.backwards env ArgConfigPath Hback)).
    intros a q Ha [E|[E|[E|[E|[]]]]]; inversion E; subst.
    rewrite Hfields in Ha. cbn in Ha.
    repeat (destruct Ha as [<-|Ha]; [reflexivity|]). destruct Ha.
Defined.

(* ===================================================================== *)
(** * The mount's life cycle *)
(* ===================================================================== *)

Lemma apply_prefixes_same_fields (arg : string) (a b : cephArgs) :
  Name a = Name b -> ConfigPath a = ConfigPath b ->
  Name (apply_prefixes prefixes arg a) = Name (apply_prefixes prefixes arg b) /\
  ConfigPath (apply_prefixes prefixes arg a) =
    ConfigPath (apply_prefixes prefixes arg b).
Proof.
  intros Hn Hc. rewrite !apply_prefixes_find.
  destruct (find _ prefixes) as [[p ptr]|]; [|auto].
  destruct ptr; cbn; auto.
Qed.

Lemma parse_args_same_fields (args : list string) :
  forall i a b,
    Name a = Name b -> ConfigPath a = ConfigPath b ->
    Name (parse_args (fun _ => prefixes) i args a) =
      Name (parse_args (fun _ => prefixes) i args b) /\
    ConfigPath (parse_args (fun _ => prefixes) i args a) =
      ConfigPath (parse_args (fun _ => prefixes) i args b).
Proof.
  induction args as [|arg args IH]; intros i a b Hn Hc; cbn [parse_args];
    [auto|].
  destruct (apply_prefixes_same_fields arg a b Hn Hc) as [Hn' Hc'].
  now apply IH.
Qed.

Section LifeCycle.
Context {St : Type} {session : CephSession St}.

Lemma session_call_run {A : Type} (c : SessionCall) (op : St -> A * St)
    (w : Session St) :
  session_call c op w = (fst (op (fst w)), (snd (op (fst w)), (snd w ++ [c])%list)).
Proof. unfold session_call. destruct (op (fst w)); reflexivity. Qed.


(** X20.  The keyring path is parsed and then not used: an argument
    [-k=...] anywhere in [CEPH_ARGS] changes nothing of what [NewCephFS]
    does. *)
Theorem NewCephFS_ignores_keyring (orders1 orders2 : nat -> list (string * argField))
    (env1 env2 : string) (before after : list string) (value : string)
    (w : Session St) :
  (forall i, Permutation (orders1 i) prefixes) ->
  (forall i, Permutation (orders2 i) prefixes) ->
  strings_Fields env1 = (before ++ after)%list ->
  strings_Fields env2 = (before ++ ("-k=" ++ value)%string :: after)%list ->
  NewCephFS orders2 env2 w = NewCephFS orders1 env1 w.
Proof.
  intros H1 H2 Hf1 Hf2.
  assert (Hsame : Name (getCephArgs orders2 env2) = Name (getCephArgs orders1 env1) /\
                  ConfigPath (getCephArgs orders2 env2) =
                    ConfigPath (getCephArgs orders1 env1)).
  { rewrite (getCephArgs_canonical orders1 env1 H1),
            (getCephArgs_canonical orders2 env2 H2).
    unfold getCephArgs. rewrite Hf1, Hf2, !parse_args_append. cbn [parse_args].
    rewrite (parse_args_any_order (fun _ => prefixes) after
               (fun _ => Permutation_refl _) 1%nat 0%nat).
    apply parse_args_same_fields.
    - apply (apply_prefixes_other ArgName).
      intros q [E|[E|[E|[E|[]]]]]; inversion E; reflexivity.
    - apply (apply_prefixes_other ArgConfigPath).
      intros q [E|[E|[E|[E|[]]]]]; inversion E; reflexivity. }
  destruct Hsame as [Hn Hc].
  unfold NewCephFS. cbv zeta. rewrite Hn, Hc. reflexivity.
Qed.

(** X21.  [Unmount] releases the mount only after the remote unmount
    succeeded: when the unmount fails, that failure comes back wrapped
    and [Release] is not called; when it succeeds, [Release] is called
    and [Unmount] returns nil exactly when the release succeeded too. *)
Theorem Unmount_then_release (fs : Fs) (w w' : Session St) (r : option error) :
  Fs_Unmount fs w = (r, w') ->
  match fst (c_Unmount (fs_mount fs) (fst w)) with
  | Some raw =>
      r = Some (Errorf "failed to unmount cephfs: " raw) /\
      snd w' = (snd w ++ [CallUnmount (fs_mount fs)])%list
  | None =>
      snd w' = (snd w ++ [CallUnmount (fs_mount fs); CallRelease (fs_mount fs)])%list /\
      (r = None <->
       fst (c_Release (fs_mount fs)
              (snd (c_Unmount (fs_mount fs) (fst w)))) = None)
  end.
Proof.
  unfold Fs_Unmount. rewrite session_call_run.
  destruct (fst (c_Unmount _ _)) as [raw|].
  - intros H; inversion H; subst. split; reflexivity.
  - rewrite session_call_run. cbn [fst snd].
    destruct (fst (c_Release _ _)) as [raw|];
      intros H; inversion H; subst; cbn [snd];
      (split; [now rewrite <- app_assoc|]); split; congruence.
Qed.

End LifeCycle.


Lemma NewCephFS_ignores_keyring_witness :
  let w := ([ScriptedSession.ReplyMount 5%nat; ScriptedSession.ReplyNil;
             ScriptedSession.ReplyNil], @nil SessionCall) in
  let env1 := "-n=client.a" in
  let env2 := "-n=client.a" ++ ScriptedSession.nbsp ++ "-k=/etc/ceph/keyring" in
  strings_Fields env1 = (["-n=client.a"] ++ [])%list /\
  strings_Fields env2 =
    (["-n=client.a"] ++ ("-k=" ++ "/etc/ceph/keyring")%string :: [])%list /\
  NewCephFS ScriptedSession.backwards env2 w =
  NewCephFS ScriptedSession.in_order env1 w.
Proof.
  intros w env1 env2.
  assert (H1 : strings_Fields env1 = (["-n=client.a"] ++ [])%list)
    by (vm_compute; reflexivity).
  assert (H2 : strings_Fields env2 =
               (["-n=client.a"] ++ ("-k=" ++ "/etc/ceph/keyring")%string :: [])%list)
    by (vm_compute; reflexivity).
  split; [exact H1|]. split; [exact H2|].
  apply (NewCephFS_ignores_keyring ScriptedSession.in_order ScriptedSession.backwards
           env1 env2 ["-n=client.a"] [] "/etc/ceph/keyring" w).
  - intros i; apply Permutation_refl.
  - intros i; apply Permutation_sym, Permutation_rev.
  - exact H1.
  - exact H2.
Defined.

(** The remote unmount fails: the mount is not released. *)
Lemma Unmount_then_release_witness :
  let busy := CephErr false "cephfs: ret=-16, Device or resource busy" in
  let w := ([ScriptedSession.ReplyErr busy; ScriptedSession.ReplyNil],
            @nil SessionCall) in
  Fs_Unmount (ToAferoFS 5%nat) w =
    (Some (Errorf "failed to unmount cephfs: " busy),
     ([ScriptedSession.ReplyNil], [CallUnmount 5%nat])) /\
  snd ([ScriptedSession.ReplyNil], [CallUnmount 5%nat]) =
    (snd w ++ [CallUnmount 5%nat])%list.
Proof.
  intros busy w.
  assert (Hrun : Fs_Unmount (ToAferoFS 5%nat) w =
    (Some (Errorf "failed to unmount cephfs: " busy),
     ([ScriptedSession.ReplyNil], [CallUnmount 5%nat])))
    by reflexivity.
  split; [exact Hrun|].
  exact (proj2 (Unmount_then_release (ToAferoFS 5%nat) w _ _ Hrun)).
Defined.

(* ===================================================================== *)
(** * The single-handle revision on scripted remotes *)
(* ===================================================================== *)

(** A directory of two entries, listed with a bound of five. *)
Lemma listFromDir_end_of_directory_witness :
  let file := Listing.mkFile 4%nat "/srv" in
  let w := Scripted.world [Scripted.ReplyStatx Scripted.dir_statx;
                           Scripted.ReplyDir 2%nat;
                           Scripted.ReplyEntry (mkDirEntry "x" DTypeReg);
                           Scripted.ReplyEntry (mkDirEntry "y" DTypeDir);
                           Scripted.ReplyNil;
                           Scripted.ReplyNil] in
  exists w', Listing.File_Readdirnames 3 file 5 w = Returns (["x"; "y"], None) w'.
Proof.
  intros file w. eexists.
  unfold Listing.File_Readdirnames.
  eapply (listFromDir_end_of_directory string file _ 2%nat 5 3%nat w).
  - vm_compute; reflexivity.
  - reflexivity.
  - vm_compute; reflexivity.
  - eapply collects_item; [vm_compute; reflexivity | vm_compute; reflexivity |].
    eapply collects_item; [vm_compute; reflexivity | vm_compute; reflexivity |].
    apply collects_end. vm_compute; reflexivity.
  - vm_compute; reflexivity.
  - cbn; lia.
  - cbn; lia.
Defined.

(** The handle of a regular file. *)
Lemma listFromDir_not_a_directory_witness :
  let file := Listing.mkFile 4%nat "/srv/notes.txt" in
  let w := Scripted.world [Scripted.ReplyStatx Scripted.reg_statx;
                           Scripted.ReplyDir 2%nat] in
  Listing.File_Readdirnames 3 file 0 w =
    Returns ([], Some (ErrorsNew "not a directory"))
            (mkWorld [Scripted.ReplyDir 2%nat] [CallFstatx 4%nat]).
Proof.
  intros file w.
  unfold Listing.File_Readdirnames.
  apply (proj1 (listFromDir_not_a_directory string file _ 0 3%nat w
                  [Scripted.ReplyDir 2%nat]) Scripted.reg_statx).
  - reflexivity.
  - vm_compute; discriminate.
  - vm_compute; split; [discriminate | reflexivity].
Defined.

(** Two entries are there, one is asked for. *)
Lemma listFromDir_page_length_witness :
  let file := Listing.mkFile 4%nat "/srv" in
  let w := Scripted.world [Scripted.ReplyStatx Scripted.dir_statx;
                           Scripted.ReplyDir 2%nat;
                           Scripted.ReplyEntry (mkDirEntry "x" DTypeReg);
                           Scripted.ReplyNil] in
  Listing.File_Readdirnames 2 file 1 w =
    Returns (["x"], None)
            (mkWorld [] [CallFstatx 4%nat; CallOpenDir "/srv"; CallReadDir 2%nat;
                         CallDirClose 2%nat]) /\
  Z.of_nat (List.length ["x"]) <= 1.
Proof.
  intros file w.
  assert (Hrun : Listing.File_Readdirnames 2 file 1 w =
    Returns (["x"], None)
            (mkWorld [] [CallFstatx 4%nat; CallOpenDir "/srv"; CallReadDir 2%nat;
                         CallDirClose 2%nat]))
    by (vm_compute; reflexivity).
  split; [exact Hrun|].
  apply (listFromDir_page_length string file _ 1 2%nat w _ _ _ ltac:(lia) Hrun).
Defined.

(** The path does not exist. *)
Lemma Open_and_OpenFile_witness :
  let missing := CephErr true "cephfs: ret=-2, No such file or directory" in
  let w := Scripted.world [Scripted.ReplyErr missing] in
  let w' := mkWorld [] [CallOpen "/srv/gone" O_RDONLY 0] in
  Listing.Fs_Open "/srv/gone" w = Returns (None, Some OsErrNotExist) w' /\
  Listing.Fs_OpenFile "/srv/gone" O_RDONLY 0 w = Returns (None, Some missing) w'.
Proof.
  intros missing w w'.
  exact (Open_and_OpenFile "/srv/gone" w (Err missing) [] eq_refl).
Defined.

(* ===================================================================== *)
(** * The interactive shell *)
(* ===================================================================== *)

Lemma sh_bind_call {St A B : Type} (m : M St A) (k : A -> Sh St B)
    (w w1 : World St) (a : A) :
  m w = Returns a w1 -> sh_bind (sh_call m) k w = k a w1.
Proof.
  intros H. unfold sh_bind, sh_call. cbn [ended written]. rewrite H.
  destruct (k a w1); reflexivity.
Qed.

Lemma sh_bind_step {St A B : Type} (m : Sh St A) (k : A -> Sh St B)
    (w w1 : World St) (out : list Output) (a : A) :
  m w = mkRan out (Returns a w1) ->
  sh_bind m k w = mkRan (out ++ written (k a w1))%list (ended (k a w1)).
Proof. intros H. unfold sh_bind. rewrite H. reflexivity. Qed.

Lemma print_all_run {St : Type} (lst : list string) (w : World St) :
  print_all lst w = mkRan (map Printed lst) (Returns tt w).
Proof.
  induction lst as [|item rest IH]; [reflexivity|].
  cbn [print_all map].
  rewrite (sh_bind_step _ _ w w [Printed item] tt eq_refl), IH.
  reflexivity.
Qed.

Section ShellFacts.
Context {St : Type} {client : CephClient St}.

(** X22.  The [create] command of the shell does not stop when the file
    cannot be created: with either revision of the adapter, when the
    remote open fails it hands the failure to [c.Err], then prints
    ["file created"], and then panics on the nil file it closes. *)
Theorem create_reports_success_after_failure (path : string) (fuel : nat)
    (w : World St) (raw : error) (s' : St) :
  c_Open path (Z.lor O_RDWR (Z.lor O_CREATE O_TRUNC)) 0x1b6 (remote w) = (Err raw, s') ->
  let ran : Ran St unit :=
    mkRan [Failed (ErrorsNew ("failed to create file: " ++ Error raw));
           Printed "file created"] Panics in
  cmd_create (fs := HandleFs fuel) [path] w = ran /\
  cmd_create (fs := ListingFs fuel) [path] w = ran.
Proof.
  intros Hcall ran.
  assert (Ha : Handle.Fs_Create path w =
               Returns (None, Some raw)
                 (mkWorld s' (calls w ++ [CallOpen path (Z.lor O_RDWR (Z.lor O_CREATE O_TRUNC)) 0x1b6])%list)).
  { unfold Handle.Fs_Create, bind, mount_Open.
    rewrite (invoke_run _ _ _ _ _ Hcall). reflexivity. }
  assert (Hb : Listing.Fs_Create path w =
               Returns (None, Some raw)
                 (mkWorld s' (calls w ++ [CallOpen path (Z.lor O_RDWR (Z.lor O_CREATE O_TRUNC)) 0x1b6])%list)).
  { unfold Listing.Fs_Create, bind, mount_Open.
    rewrite (invoke_run _ _ _ _ _ Hcall). reflexivity. }
  split; unfold cmd_create.
  - rewrite (sh_bind_call (afero_Create (AferoFs := HandleFs fuel) path) _ _ _ _ Ha).
    reflexivity.
  - rewrite (sh_bind_call (afero_Create (AferoFs := ListingFs fuel) path) _ _ _ _ Hb).
    reflexivity.
Qed.

(** What [Readdirnames] of the two-capability handle returns on a
    directory that ends before the bound. *)
Lemma Handle_Readdirnames_to_end (f : Handle.File) (d : CDir) (n : Z) (fuel : nat)
    (w w' : World St) (l : list (DirEntry * CephStatx)) :
  Handle.f_dir f = Some d ->
  reads_plus d w l AtEnd w' ->
  (List.length l < fuel)%nat ->
  n <= 0 \/ Z.of_nat (List.length (listed f l)) < n ->
  Handle.File_Readdirnames fuel f n w =
    Returns (map FileInfo_Name (listed f l),
             if 0 <? n then Some IoEOF else None) w'.
Proof.
  intros Hdir Hreads Hfuel Hn.
  unfold Handle.File_Readdirnames, Handle.File_Readdir. rewrite Hdir.
  erewrite bind_run;
    [| apply (Readdir_loop_exhausts f d _ _ _ _ Hreads); [exact Hfuel|];
       destruct (n =? 0) eqn:Hz; [left; lia|];
       apply Z.eqb_neq in Hz; destruct Hn; [left; lia | right; assumption]].
  cbv beta iota. rewrite fold_left_names. cbn [app].
  replace (0 <? (if n =? 0 then -1 else n)) with (0 <? n); [reflexivity|].
  destruct (n =? 0) eqn:Hz; [|reflexivity].
  apply Z.eqb_eq in Hz; subst; reflexivity.
Qed.

(** X23.  The [list] command on the two-capability handle.  When the
    directory holds fewer entries than the count the user gave, the
    command writes the names of the entries, without ["."] and [".."],
    and then reports the failure ["failed to read directory: EOF"]; with
    a count of zero or less it writes the names and no failure.  Either
    way it closes the handle before it returns. *)
Theorem list_beyond_end_reports_EOF (Atoi : string -> result Z)
    (path a : string) (rest : list string) (n : Z) (fuel : nat)
    (w w1 w2 w3 w4 : World St) (info : FileInfo) (f : Handle.File) (d : CDir)
    (l : list (DirEntry * CephStatx)) (closed : option error) :
  Atoi a = Ok n ->
  Fs_Stat path w = Returns (Some info, None) w1 ->
  FileInfo_IsDir info = true ->
  Handle.Fs_Open path w1 = Returns (Some f, None) w2 ->
  Handle.f_dir f = Some d ->
  reads_plus d w2 l AtEnd w3 ->
  Handle.File_Close f w3 = Returns closed w4 ->
  (List.length l < fuel)%nat ->
  let names := map Printed (map FileInfo_Name (listed f l)) in
  (Z.of_nat (List.length (listed f l)) < n ->
   cmd_list (fs := HandleFs fuel) Atoi (path :: a :: rest) w =
     mkRan (names ++ [Failed (ErrorsNew "failed to read directory: EOF")])%list
           (Returns tt w4)) /\
  (n <= 0 ->
   cmd_list (fs := HandleFs fuel) Atoi (path :: a :: rest) w =
     mkRan names (Returns tt w4)).
Proof.
  intros Hatoi Hstat Hisdir Hopen Hdir Hreads Hclose Hfuel names.
  assert (Hrun : n <= 0 \/ Z.of_nat (List.length (listed f l)) < n ->
    cmd_list (fs := HandleFs fuel) Atoi (path :: a :: rest) w =
      mkRan (names ++ (if 0 <? n
                       then [Failed (ErrorsNew "failed to read directory: EOF")]
                       else []))%list (Returns tt w4)).
  { intros Hn. unfold cmd_list. rewrite Hatoi.
    cbn [afero_Stat afero_Open afero_Close afero_Readdirnames info_IsDir HandleFs].
    rewrite (sh_bind_call _ _ _ _ _ Hstat), Hisdir.
    rewrite (sh_bind_call _ _ _ _ _ Hopen).
    rewrite (sh_bind_call _ _ _ _ _
               (Handle_Readdirnames_to_end f d n fuel _ _ l Hdir Hreads Hfuel Hn)).
    unfold sh_bind. rewrite print_all_run. cbn [ended written].
    destruct (0 <? n); cbn [sh_Err sh_ret sh_call ended written];
      rewrite Hclose; cbn [app]; rewrite ?app_nil_r; reflexivity. }
  split; intros Hn.
  - rewrite Hrun by (right; exact Hn).
    replace (0 <? n) with true by (symmetry; apply Z.ltb_lt; lia). reflexivity.
  - rewrite Hrun by (left; exact Hn).
    replace (0 <? n) with false by (symmetry; apply Z.ltb_ge; lia).
    now rewrite app_nil_r.
Qed.

(** X24.  The [list] command on the single-handle revision.  When the
    directory ends before the count is reached, or the count is zero or
    less, the command writes every name the remote client yields, as it
    yields it, and reports no failure. *)
Theorem list_beyond_end_is_silent (Atoi : string -> result Z)
    (path a : string) (rest : list string) (n : Z) (fuel : nat)
    (w w1 w2 w3 w4 w5 w6 w7 : World St) (info st : FileInfo)
    (file : Listing.File) (d : CDir) (names : list string)
    (c closed : option error) :
  Atoi a = Ok n ->
  Fs_Stat path w = Returns (Some info, None) w1 ->
  FileInfo_IsDir info = true ->
  Listing.Fs_Open path w1 = Returns (Some file, None) w2 ->
  Listing.File_Stat file w2 = Returns (Some st, None) w3 ->
  FileInfo_IsDir st = true ->
  mount_OpenDir (Listing.f_path file) w3 = Returns (Ok d) w4 ->
  collects d (fun de => ret (Ok (de_Name de))) w4 names AtEnd w5 ->
  dir_Close d w5 = Returns c w6 ->
  Listing.File_Close file w6 = Returns closed w7 ->
  (List.length names < fuel)%nat ->
  n <= 0 \/ Z.of_nat (List.length names) < n ->
  cmd_list (fs := ListingFs fuel) Atoi (path :: a :: rest) w =
    mkRan (map Printed names) (Returns tt w7).
Proof.
  intros Hatoi Hstat Hisdir Hopen Hfstat Hisdir' Hopendir Hcollects Hdirclose
         Hclose Hfuel Hn.
  assert (Hnames : Listing.File_Readdirnames fuel file n w2 =
                   Returns (names, None) w6).
  { unfold Listing.File_Readdirnames, Listing.listFromDir.
    rewrite (bind_run _ _ _ _ _ Hfstat), Hisdir', (bind_run _ _ _ _ _ Hopendir).
    erewrite bind_run;
      [| apply (listFromDir_loop_exhausts d _ _ _ _ _ Hcollects); [exact Hfuel|];
         destruct (n =? 0) eqn:Hz; [left; lia|];
         apply Z.eqb_neq in Hz; destruct Hn; [left; lia | right; assumption]].
    rewrite (bind_run _ _ _ _ _ Hdirclose). reflexivity. }
  unfold cmd_list. rewrite Hatoi.
  cbn [afero_Stat afero_Open afero_Close afero_Readdirnames info_IsDir ListingFs].
  rewrite (sh_bind_call _ _ _ _ _ Hstat), Hisdir.
  rewrite (sh_bind_call _ _ _ _ _ Hopen).
  rewrite (sh_bind_call _ _ _ _ _ Hnames).
  unfold sh_bind. rewrite print_all_run.
  cbn [sh_Err sh_ret sh_call ended written].
  rewrite Hclose. cbn [app]. rewrite ?app_nil_r. reflexivity.
Qed.

End ShellFacts.

Section ShellUsage.
Context {St F I : Type} {fs : AferoFs St F I}.

(** X25.  The commands [create], [mkdir], [stat] and [rm] take exactly
    one argument: with none, or with more than one, each of them writes
    one failure and returns without a call to the filesystem. *)
Theorem usage_errors_call_nothing
    (MarshalIndent : string -> Z -> Z -> bool -> result string)
    (args : list string) (w : World St) :
  List.length args <> 1%nat ->
  forall cmd : list string -> Sh St unit,
    In cmd [cmd_create; cmd_mkdir; cmd_stat MarshalIndent; cmd_rm] ->
    exists e, cmd args w = mkRan [Failed e] (Returns tt w).
Proof.
  intros Hlen cmd Hin.
  destruct args as [|x [|y args]]; [| now elim Hlen |];
    cbn [In] in Hin;
    repeat (destruct Hin as [<-|Hin]; [eexists; reflexivity|]);
    contradiction.
Qed.

End ShellUsage.

(* ===================================================================== *)
(** * The shell on scripted remotes *)
(* ===================================================================== *)

(** The remote refuses the open. *)
Lemma create_reports_success_after_failure_witness :
  let denied := CephErr false "cephfs: ret=-13, Permission denied" in
  let w := Scripted.world [Scripted.ReplyErr denied] in
  let ran : Ran (list Scripted.Reply) unit :=
    mkRan [Failed (ErrorsNew "failed to create file: cephfs: ret=-13, Permission denied");
           Printed "file created"] Panics in
  cmd_create (fs := HandleFs 0) ["/srv/new"] w = ran /\
  cmd_create (fs := ListingFs 0) ["/srv/new"] w = ran.
Proof.
  intros denied w ran.
  exact (create_reports_success_after_failure "/srv/new" 0%nat w denied [] eq_refl).
Defined.

(** [list /d 10] on a directory of one file. *)
Lemma list_beyond_end_reports_EOF_witness :
  let f := Handle.mkFile "/d" (Some 3%nat) (Some 1%nat) in
  let raw := [(mkDirEntry "." DTypeDir, Scripted.dir_statx);
              (mkDirEntry "notes" DTypeReg, Scripted.reg_statx)] in
  let w := Scripted.world [Scripted.ReplyStatx Scripted.dir_statx;
                           Scripted.ReplyFile 3%nat;
                           Scripted.ReplyStatx Scripted.dir_statx;
                           Scripted.ReplyDir 1%nat;
                           Scripted.ReplyEntryPlus (mkDirEntry "." DTypeDir) Scripted.dir_statx;
                           Scripted.ReplyEntryPlus (mkDirEntry "notes" DTypeReg) Scripted.reg_statx;
                           Scripted.ReplyNil; Scripted.ReplyNil; Scripted.ReplyNil] in
  exists w',
    cmd_list (fs := HandleFs 4) atoi_ten ["/d"; "10"] w =
      mkRan [Printed "notes"; Failed (ErrorsNew "failed to read directory: EOF")]
            (Returns tt w').
Proof.
  intros f raw w. eexists.
  refine (proj1 (list_beyond_end_reports_EOF atoi_ten "/d" "10" [] 10 4%nat w
                   _ _ _ _ (mkFileInfo Scripted.dir_statx "/d") f 1%nat raw None
                   _ _ _ _ _ _ _ _) _).
  - reflexivity.
  - vm_compute; reflexivity.
  - reflexivity.
  - vm_compute; reflexivity.
  - reflexivity.
  - eapply reads_plus_entry; [vm_compute; reflexivity|].
    eapply reads_plus_entry; [vm_compute; reflexivity|].
    apply reads_plus_end. vm_compute; reflexivity.
  - vm_compute; reflexivity.
  - cbn; lia.
  - cbn; lia.
Defined.

(** The same directory through the single-handle revision: the
    pseudo-entry is written too, and no failure. *)
Lemma list_beyond_end_is_silent_witness :
  let file := Listing.mkFile 3%nat "/d" in
  let w := Scripted.world [Scripted.ReplyStatx Scripted.dir_statx;
                           Scripted.ReplyFile 3%nat;
                           Scripted.ReplyStatx Scripted.dir_statx;
                           Scripted.ReplyDir 1%nat;
                           Scripted.ReplyEntry (mkDirEntry "." DTypeDir);
                           Scripted.ReplyEntry (mkDirEntry "notes" DTypeReg);
                           Scripted.ReplyNil; Scripted.ReplyNil; Scripted.ReplyNil] in
  exists w',
    cmd_list (fs := ListingFs 4) atoi_ten ["/d"; "10"] w =
      mkRan [Printed "."; Printed "notes"] (Returns tt w').
Proof.
  intros file w. eexists.
  refine (list_beyond_end_is_silent atoi_ten "/d" "10" [] 10 4%nat w
            _ _ _ _ _ _ _ (mkFileInfo Scripted.dir_statx "/d")
            (mkFileInfo Scripted.dir_statx "/d") file 1%nat ["."; "notes"] None None
            _ _ _ _ _ _ _ _ _ _ _ _).
  - reflexivity.
  - vm_compute; reflexivity.
  - reflexivity.
  - vm_compute; reflexivity.
  - vm_compute; reflexivity.
  - reflexivity.
  - vm_compute; reflexivity.
  - eapply collects_item; [vm_compute; reflexivity | vm_compute; reflexivity |].
    eapply collects_item; [vm_compute; reflexivity | vm_compute; reflexivity |].
    apply collects_end. vm_compute; reflexivity.
  - vm_compute; reflexivity.
  - vm_compute; reflexivity.
  - cbn; lia.
  - right; cbn; lia.
Defined.

(** [rm] with two arguments. *)
Lemma usage_errors_call_nothing_witness :
  let w := Scripted.world [Scripted.ReplyNil] in
  exists e, cmd_rm (fs := HandleFs 0) ["/a"; "/b"] w = mkRan [Failed e] (Returns tt w).
Proof.
  intros w.
  apply (usage_errors_call_nothing (fs := HandleFs 0)
           (fun _ _ _ _ => Ok EmptyString) ["/a"; "/b"] w).
  - cbn; lia.
  - cbn [In]. do 3 right. left. reflexivity.
Defined.
